(** * Include: a communication platform for deaf and speech-impaired students

    A shallow embedding of the synchronisation and streaming pipeline of the
    classroom application: the gesture debouncer of the recognition script
    (mute_studentpage.py), the speech output queue and the session pollers
    (teacher_page.py, deaf_student_page.py, mute_studentpage.py), the
    streaming transcriber and the visualisation chunker with its cache
    (deaf_student_page.py).

    Conventions of the embedding.
    - A Python [str] is a [string] whose characters are code points below
      256.
    - A reading of [time.time()] is an integer number of milliseconds, so a
      delay of 0.5 s is 500 and a cooldown of 10 s is 10000.
    - A comparison of a quotient of two counts with a decimal constant
      ([i / u > 0.7]) is the comparison of the cross products
      ([10 * i > 7 * u]); the two agree for every pair of counts that a
      word list can produce.
    - Remote calls, the speech-to-text engine and the renderer are inputs
      of the step functions: a step receives what the collaborator
      answered. *)

From Stdlib Require Import ZArith Lia Ascii.
From stdpp Require Import base gmap strings list.

Open Scope string_scope.
Open Scope list_scope.
Open Scope nat_scope.

(** ** Python string primitives *)

Module PyStr.

(** [str.isspace] on the code points below 256. *)
Definition is_space (a : ascii) : bool :=
  let n := N_of_ascii a in
  ((9 <=? n) && (n <=? 13) || (28 <=? n) && (n <=? 32)
   || (n =? 133) || (n =? 160))%N.

(** [s.split()]: the maximal runs of characters that are not white space. *)
Fixpoint split (s : string) : list string :=
  match s with
  | EmptyString => []
  | String a s' =>
      if is_space a then split s'
      else match s' with
           | EmptyString => [String a EmptyString]
           | String b _ =>
               if is_space b then String a EmptyString :: split s'
               else match split s' with
                    | w :: ws => String a w :: ws
                    | [] => [String a EmptyString]
                    end
           end
  end.

Fixpoint lstrip (s : string) : string :=
  match s with
  | EmptyString => EmptyString
  | String a s' => if is_space a then lstrip s' else s
  end.

Fixpoint rstrip (s : string) : string :=
  match s with
  | EmptyString => EmptyString
  | String a s' =>
      match rstrip s' with
      | EmptyString => if is_space a then EmptyString else String a EmptyString
      | r => String a r
      end
  end.

(** [s.strip()] *)
Definition strip (s : string) : string := rstrip (lstrip s).

(** [str.lower] on one code point below 256: A-Z and the accented
    capitals 192-222 (without the multiplication sign 215) move up by 32. *)
Definition lower_char (a : ascii) : ascii :=
  let n := N_of_ascii a in
  if ((65 <=? n) && (n <=? 90)
      || (192 <=? n) && (n <=? 222) && negb (n =? 215))%N
  then ascii_of_N (n + 32) else a.

Fixpoint lower (s : string) : string :=
  match s with
  | EmptyString => EmptyString
  | String a s' => String (lower_char a) (lower s')
  end.

(** [s.replace(old, new)] for a non-empty [old]: occurrences are replaced
    from the left and do not overlap.  [skip] counts the characters of a
    matched occurrence that are still to be dropped. *)
Fixpoint replace_go (old new : string) (skip : nat) (s : string) : string :=
  match s with
  | EmptyString => EmptyString
  | String a s' =>
      match skip with
      | S k => replace_go old new k s'
      | O =>
          if String.prefix old s
          then new +:+ replace_go old new (String.length old - 1) s'
          else String a (replace_go old new 0 s')
      end
  end.

Definition replace (old new s : string) : string := replace_go old new 0 s.

(** [sep.join(ws)] *)
Definition join (sep : string) (ws : list string) : string :=
  String.concat sep ws.

(** Truth value of a string: [if s:]. *)
Definition truthy (s : string) : bool :=
  match s with EmptyString => false | _ => true end.

(** Whether a string holds a character that is not white space. *)
Fixpoint has_ink (s : string) : bool :=
  match s with
  | EmptyString => false
  | String a s' => negb (is_space a) || has_ink s'
  end.

(** Whether the first [k] characters of a string (all of them if it is
    shorter) are white space. *)
Fixpoint blank_prefix (k : nat) (s : string) : bool :=
  match k, s with
  | O, _ => true
  | S _, EmptyString => true
  | S k', String a s' => is_space a && blank_prefix k' s'
  end.

End PyStr.

(** ** The gesture recognizer (MEDIAPIPE_SCRIPT in mute_studentpage.py) *)

Module Gesture.

Definition FINGER_SIGNS : gmap Z string :=
  list_to_map
    [ (1, "HELLO"); (2, "PLEASE"); (3, "RPEPEAT THAT");
      (4, "I DID NOT UNDERSTAND"); (5, "STOP"); (6, "THANKS");
      (7, "GREAT"); (8, "GOT IT "); (9, "YES"); (10, "GOOD") ]%Z.

(** [FINGER_SIGNS.get(smoothed_count, "UNKNOWN")] *)
Definition sign_text (smoothed_count : Z) : string :=
  default "UNKNOWN" (FINGER_SIGNS !! smoothed_count).

Definition REPEAT_THRESHOLD : Z := 10.
Definition upload_cooldown : Z := 2000.

Record state := mkState {
  sentence : string;
  last_finger_count : Z;
  repeat_count : Z;
  last_upload_time : Z
}.

(** The script's globals before the capture loop. *)
Definition init : state :=
  {| sentence := ""; last_finger_count := -1; repeat_count := 0;
     last_upload_time := 0 |}.

Inductive event :=
| Recognized (sign : string)
| Upload (sent : string).

(** A frame in which hands were detected, seen after smoothing: the
    smoothed count and the clock reading taken if a token is committed. *)
Record frame := mkFrame { smoothed_count : Z; current_time : Z }.

(** The debounce of one frame with hands:
    [if smoothed_count == last_finger_count: repeat_count += 1
     else: repeat_count = 0; last_finger_count = smoothed_count]
    followed by the commit test. *)
Definition step (st : state) (f : frame) : state * list event :=
  let c := smoothed_count f in
  let st1 :=
    if decide (c = last_finger_count st)
    then {| sentence := sentence st;
            last_finger_count := last_finger_count st;
            repeat_count := repeat_count st + 1;
            last_upload_time := last_upload_time st |}
    else {| sentence := sentence st;
            last_finger_count := c;
            repeat_count := 0;
            last_upload_time := last_upload_time st |} in
  if decide (repeat_count st1 = REPEAT_THRESHOLD ∧ 0 < c)%Z then
    let sent := sentence st1 +:+ sign_text c +:+ " " in
    if decide (upload_cooldown <= current_time f - last_upload_time st1)%Z
    then ({| sentence := sent; last_finger_count := last_finger_count st1;
             repeat_count := 0; last_upload_time := current_time f |},
          [Recognized (sign_text c); Upload sent])
    else ({| sentence := sent; last_finger_count := last_finger_count st1;
             repeat_count := 0; last_upload_time := last_upload_time st1 |},
          [Recognized (sign_text c)])
  else (st1, []).

(** The token a frame commits, if any. *)
Definition committed (evs : list event) : option string :=
  match evs with
  | Recognized s :: _ => Some s
  | _ => None
  end.

(** The capture loop over a stream of frames with hands: the token
    committed by each frame, in order, and the final state. *)
Fixpoint run (st : state) (fs : list frame) : list (option string) * state :=
  match fs with
  | [] => ([], st)
  | f :: fs' =>
      let '(st', evs) := step st f in
      let '(out, st'') := run st' fs' in
      (committed evs :: out, st'')
  end.

Definition commits (st : state) (fs : list frame) : list (option string) :=
  fst (run st fs).

(** A stream whose smoothed count is constantly [c], one frame per clock
    reading. *)
Definition constant_stream (c : Z) (clock : list Z) : list frame :=
  map (mkFrame c) clock.

End Gesture.

(** ** The speech output queue (TextToSpeechEngine in teacher_page.py and
       deaf_student_page.py) *)

Module Speech.

(** One call of [speaker.Speak(word, 1)]: when it started, with which
    text, and whether it returned normally. *)
Record call := mkCall { started : Z; spoken : string; returned : bool }.

Record engine := mkEngine {
  word_queue : list string;
  is_speaking : bool;
  clock : Z;
  calls : list call
}.

Definition init : engine :=
  {| word_queue := []; is_speaking := false; clock := 0%Z; calls := [] |}.

(** [speak(word)]: the producers' side. *)
Definition speak (word : string) (e : engine) : engine :=
  let w := PyStr.strip word in
  if PyStr.truthy w && (1 <? String.length w)%nat
  then {| word_queue := word_queue e ++ [w]; is_speaking := is_speaking e;
          clock := clock e; calls := calls e |}
  else e.

(** [time.sleep(0.5 + len(word) * 0.1)] in milliseconds. *)
Definition pacing_delay (word : string) : Z :=
  (500 + 100 * Z.of_nat (String.length word))%Z.

(** What the consumer cannot decide in one pass of its loop: whether
    [Speak] raises, and by how much its sleeps overshoot. *)
Record pass := mkPass { raises : bool; overshoot : nat }.

(** [_process_queue]: one pass of its [while self.running] loop. *)
Definition _process_queue (p : pass) (e : engine) : engine :=
  match word_queue e, is_speaking e with
  | word :: rest, false =>
      let c := {| started := clock e; spoken := word;
                  returned := negb (raises p) |} in
      let slept := if raises p then 0%Z else pacing_delay word in
      {| word_queue := rest; is_speaking := false;
         clock := (clock e + slept + 50 + Z.of_nat (overshoot p))%Z;
         calls := calls e ++ [c] |}
  | _, _ =>
      {| word_queue := word_queue e; is_speaking := is_speaking e;
         clock := (clock e + 50 + Z.of_nat (overshoot p))%Z;
         calls := calls e |}
  end.

(** Producers and the consumer interleave. *)
Inductive action :=
| Say (word : string)
| Pass (p : pass).

Definition act (e : engine) (a : action) : engine :=
  match a with
  | Say w => speak w e
  | Pass p => _process_queue p e
  end.

Definition run (e : engine) (tr : list action) : engine :=
  foldl act e tr.

(** The words handed to [speak] along a trace. *)
Definition said (tr : list action) : list string :=
  omap (λ a, match a with Say w => Some w | Pass _ => None end) tr.

(** What [speak] lets through. *)
Definition accepted (ws : list string) : list string :=
  filter (λ w, (1 < String.length w)%nat) (PyStr.strip <$> ws).

(** Consecutive calls respect the pacing delay of the earlier one. *)
Definition paced (cs : list call) : Prop :=
  ∀ (i : nat) (c1 c2 : call),
    cs !! i = Some c1 → cs !! S i = Some c2 → returned c1 = true →
    (started c1 + pacing_delay (spoken c1) <= started c2)%Z.

Definition quiet : pass := {| raises := false; overshoot := 0 |}.

(** The pacing invariant: the calls so far are paced, and the clock has
    passed the delay of the last call that returned. *)
Definition rested (e : engine) : Prop :=
  paced (calls e)
  ∧ ∀ c, last (calls e) = Some c → returned c = true →
         (started c + pacing_delay (spoken c) <= clock e)%Z.

End Speech.

(** ** The session record and the pollers *)

Module Feed.

Record ChatMessage := mkMsg {
  sender : string;
  sender_name : string;
  message : string;
  timestamp : Z
}.

(** A field of a session record.  An entry of the chat log is a message
    or something that is not one ([None]: a JSON null). *)
Inductive JVal :=
| JStr (s : string)
| JNum (n : Z)
| JChat (log : list (option ChatMessage)).

#[global] Instance ChatMessage_eq_dec : EqDecision ChatMessage.
Proof. solve_decision. Defined.

#[global] Instance JVal_eq_dec : EqDecision JVal.
Proof. solve_decision. Defined.

Abbreviation session := (gmap string JVal).

(** [d.get(k, dflt)] for a field that holds a string. *)
Definition get_str (d : session) (k dflt : string) : string :=
  match d !! k with
  | Some (JStr s) => s
  | _ => dflt
  end.

(** [d.get("chat_messages", [])] *)
Definition get_chat (d : session) : list (option ChatMessage) :=
  match d !! "chat_messages" with
  | Some (JChat l) => l
  | _ => []
  end.

(** [session_data and session_data.get("session_code") == code] *)
Definition has_code (code : string) (d : session) : bool :=
  bool_decide (d ≠ ∅) && bool_decide (d !! "session_code" = Some (JStr code)).

(** The first record of [sessions.items()] that carries the code. *)
Fixpoint find_session (code : string) (sessions : list (string * session))
  : option (string * session) :=
  match sessions with
  | [] => None
  | (id, d) :: rest =>
      if has_code code d then Some (id, d) else find_session code rest
  end.

Inductive event :=
| Connection (up : bool)
| Verified (found : bool)
| StudentInfo (name : string)
| Transcript (text : string)
| Chat (m : ChatMessage).

Definition transcripts (evs : list event) : list string :=
  omap (λ e, match e with Transcript t => Some t | _ => None end) evs.

Definition chats (evs : list event) : list ChatMessage :=
  omap (λ e, match e with Chat m => Some m | _ => None end) evs.

(** *** StudentTranscriptListener (teacher_page.py) *)
Module Teacher.

Record state := mkState {
  last_transcript : string;
  last_chat_count : nat;
  last_chat_message : string;
  student_name : string
}.

Definition init : state :=
  {| last_transcript := ""; last_chat_count := 0;
     last_chat_message := ""; student_name := "Student" |}.

(** What one GET of the session answered: nothing usable (an exception
    or a status other than 200), or the record. *)
Inductive response :=
| Unreachable
| Record_ (d : session).

(** The [for message in new_messages] loop.  It stops with an
    exception ([false]) at an entry that is not a message; what it did
    before stays done. *)
Fixpoint chat_loop (last : string) (new_messages : list (option ChatMessage))
  : string * list event * bool :=
  match new_messages with
  | [] => (last, [], true)
  | None :: _ => (last, [], false)
  | Some m :: rest =>
      if decide (sender m = "student") then
        if decide (message m ≠ last) then
          let '(last', evs, ok) := chat_loop (message m) rest in
          (last', Chat m :: evs, ok)
        else chat_loop last rest
      else chat_loop last rest
  end.

Definition poll (st : state) (r : response) : state * list event :=
  match r with
  | Unreachable => (st, [Connection false])
  | Record_ d =>
      let name := get_str d "student_name" "Student" in
      let ev_name :=
        if decide (name ≠ student_name st) then [StudentInfo name] else [] in
      let t := get_str d "student_transcript" "" in
      let fresh := PyStr.truthy t && bool_decide (t ≠ last_transcript st) in
      let last_t := if fresh then t else last_transcript st in
      let ev_t := if fresh then [Transcript t] else [] in
      let log := get_chat d in
      if decide (last_chat_count st < length log) then
        let '(last_m, ev_c, ok) :=
          chat_loop (last_chat_message st) (drop (last_chat_count st) log) in
        ({| last_transcript := last_t;
            last_chat_count :=
              if ok then length log else last_chat_count st;
            last_chat_message := last_m;
            student_name := name |},
         Connection true :: ev_name ++ ev_t ++ ev_c
           ++ (if ok then [] else [Connection false]))
      else
        ({| last_transcript := last_t;
            last_chat_count := last_chat_count st;
            last_chat_message := last_chat_message st;
            student_name := name |},
         Connection true :: ev_name ++ ev_t)
  end.

End Teacher.

(** *** FirebaseListener (deaf_student_page.py) *)
Module Deaf.

Record state := mkState {
  last_transcript : string;
  last_chat_count : nat;
  session_id : option string
}.

Definition init : state :=
  {| last_transcript := ""; last_chat_count := 0; session_id := None |}.

Inductive response :=
| Unreachable
| Sessions (all : list (string * session)).

(** [if message and isinstance(message, dict): emit(message)] *)
Definition chat_loop (new_messages : list (option ChatMessage)) : list event :=
  omap (λ e, Chat <$> e) new_messages.

Definition poll (code : string) (st : state) (r : response)
  : state * list event :=
  match r with
  | Unreachable => (st, [Connection false])
  | Sessions all =>
      match find_session code all with
      | None => (st, [Connection true])
      | Some (id, d) =>
          let t := get_str d "current_transcript" "" in
          let fresh := PyStr.truthy t && bool_decide (t ≠ last_transcript st) in
          let log := get_chat d in
          let grown := bool_decide (last_chat_count st < length log) in
          ({| last_transcript := if fresh then t else last_transcript st;
              last_chat_count :=
                if grown then length log else last_chat_count st;
              session_id := Some id |},
           Connection true :: (if fresh then [Transcript t] else [])
             ++ (if grown then chat_loop (drop (last_chat_count st) log)
                 else []))
      end
  end.

End Deaf.

(** *** FirebaseListener (mute_studentpage.py) *)
Module Mute.

Record state := mkState {
  session_id : option string;
  last_chat_count : nat;
  last_transcript : string
}.

Definition init : state :=
  {| session_id := None; last_chat_count := 0; last_transcript := "" |}.

(** The two GETs of one pass: the connection test, then the sessions. *)
Inductive response :=
| Unreachable
| SessionsFailed
| Sessions (all : list (string * session)).

(** [if message and message.get("sender") == "teacher": emit(message)] *)
Definition chat_loop (new_messages : list (option ChatMessage)) : list event :=
  omap (λ e, match e with
             | Some m => if decide (sender m = "teacher") then Some (Chat m) else None
             | None => None
             end) new_messages.

Definition poll (code : string) (st : state) (r : response)
  : state * list event :=
  match r with
  | Unreachable => (st, [Connection false])
  | SessionsFailed => (st, [Connection true; Connection false])
  | Sessions all =>
      match find_session code all with
      | None => (st, [Connection true; Verified false])
      | Some (id, d) =>
          let log := get_chat d in
          let grown := bool_decide (last_chat_count st < length log) in
          let t := get_str d "student_transcript" "" in
          let changed := bool_decide (t ≠ last_transcript st) in
          ({| session_id := Some id;
              last_chat_count :=
                if grown then length log else last_chat_count st;
              last_transcript := if changed then t else last_transcript st |},
           Connection true :: Verified true
             :: (if grown then chat_loop (drop (last_chat_count st) log)
                 else [])
             ++ (if changed && PyStr.truthy t then [Transcript t] else []))
      end
  end.

End Mute.

(** [run] of a listener: its pass [poll] over the answers of the store, one
    per pass of the [while self.running] loop; the events of every pass, in
    order, and the final state. *)
Fixpoint run {S R : Type} (poll : S → R → S * list event)
    (st : S) (rs : list R) : list event * S :=
  match rs with
  | [] => ([], st)
  | r :: rs' =>
      let '(st', evs) := poll st r in
      let '(out, st'') := run poll st' rs' in
      (evs ++ out, st'')
  end.


(** No value occurs twice in a row. *)
Definition adjacent_distinct (l : list string) : Prop :=
  ∀ (i : nat) (x y : string), l !! i = Some x → l !! S i = Some y → x ≠ y.


Definition from_student (m : ChatMessage) : Prop := sender m = "student".

#[global] Instance from_student_dec (m : ChatMessage) : Decision (from_student m).
Proof. unfold from_student. apply _. Defined.








End Feed.

(** ** The streaming transcriber (WhisperSTTProcessor in
       deaf_student_page.py) *)

Module Transcriber.

Definition sample_rate : Z := 16000.
Definition buffer_duration : Z := 3.
Definition processing_interval : Z := 2000.

(** A chunk of audio is the list of its 16-bit samples; the scaling by
    1/32768 changes no length. *)
Abbreviation chunk := (list Z).

Record state := mkState {
  model_loaded : bool;
  is_loading : bool;
  audio_buffer : list chunk;
  last_processing_time : Z;
  last_transcription : string
}.

(** [sum(len(chunk) for chunk in self.audio_buffer)] *)
Definition total_samples (buf : list chunk) : Z :=
  foldr (λ c n, Z.of_nat (length c) + n)%Z 0%Z buf.

(** [add_audio_chunk]: the new state and whether a job was dispatched. *)
Definition add_audio_chunk (st : state) (c : chunk) (current_time : Z)
  : state * bool :=
  if negb (model_loaded st) || is_loading st then (st, false)
  else
    let buf := audio_buffer st ++ [c] in
    let st' := {| model_loaded := model_loaded st;
                  is_loading := is_loading st;
                  audio_buffer := buf;
                  last_processing_time := last_processing_time st;
                  last_transcription := last_transcription st |} in
    (st', bool_decide (sample_rate * buffer_duration <= total_samples buf)%Z
          && bool_decide (processing_interval
                          <= current_time - last_processing_time st)%Z).

(** The loop of [_clean_transcription] that keeps the first occurrence of
    every word. *)
Fixpoint first_occurrences (seen : gset string) (words : list string)
  : list string :=
  match words with
  | [] => []
  | w :: rest =>
      if decide (w ∈ seen) then first_occurrences seen rest
      else w :: first_occurrences ({[w]} ∪ seen) rest
  end.

Definition _clean_transcription (text : string) : string :=
  if negb (PyStr.truthy text) then ""
  else
    let words := PyStr.split text in
    let unique_words : gset string := list_to_set words in
    let text1 :=
      if bool_decide (10 < length words)
         && bool_decide (10 * size unique_words < 3 * length words)
      then PyStr.join " " (take 20 (first_occurrences ∅ words))
      else text in
    let text2 := PyStr.replace " . . ." "..." text1 in
    let text3 := PyStr.replace ".." "." text2 in
    let text4 := PyStr.replace "  " " " text3 in
    PyStr.strip text4.

(** [set(text.lower().split())] *)
Definition word_set (text : string) : gset string :=
  list_to_set (PyStr.split (PyStr.lower text)).

(** [_is_too_similar(text1, text2)] with the default threshold 0.7. *)
Definition _is_too_similar (text1 text2 : string) : bool :=
  if negb (PyStr.truthy text1) || negb (PyStr.truthy text2) then false
  else
    let words1 := word_set text1 in
    let words2 := word_set text2 in
    if bool_decide (words1 = ∅) || bool_decide (words2 = ∅) then false
    else
      let intersection := size (words1 ∩ words2) in
      let union := size (words1 ∪ words2) in
      if bool_decide (union = 0) then false
      else bool_decide (7 * union < 10 * intersection).

(** What [self.model.transcribe] did: it raised, or it returned a result
    whose text is [raw]. *)
Inductive answer :=
| Raised
| Result (raw : string).

(** [audio[-keep_samples:]] as the only chunk when the audio is longer,
    the whole audio otherwise. *)
Definition continuity_tail (audio : chunk) : list chunk :=
  let keep_samples := Z.to_nat (sample_rate * 1) in
  if bool_decide (keep_samples < length audio)
  then [drop (length audio - keep_samples) audio]
  else [audio].

(** [_process_buffer]: the new state and the text emitted, if any.
    [now] is the clock reading taken on acceptance. *)
Definition _process_buffer (st : state) (a : answer) (now : Z)
  : state * option string :=
  if negb (model_loaded st) || bool_decide (audio_buffer st = []) then (st, None)
  else
    let audio := concat (audio_buffer st) in
    (* len(audio) < self.sample_rate * 0.8 *)
    if bool_decide (10 * Z.of_nat (length audio) < sample_rate * 8)%Z
    then (st, None)
    else
      match a with
      | Raised =>
          ({| model_loaded := model_loaded st; is_loading := is_loading st;
              audio_buffer := [];
              last_processing_time := last_processing_time st;
              last_transcription := last_transcription st |}, None)
      | Result raw =>
          let text := PyStr.strip raw in
          if PyStr.truthy text then
            let text := _clean_transcription text in
            if _is_too_similar text (last_transcription st) then (st, None)
            else
              ({| model_loaded := model_loaded st; is_loading := is_loading st;
                  audio_buffer := continuity_tail audio;
                  last_processing_time := now;
                  last_transcription := text |}, Some text)
          else (st, None)
      end.

(** A state in which [_process_buffer] reaches the engine: the model is
    loaded and the buffer holds at least 0.8 s of audio. *)
Definition ready (st : state) : Prop :=
  model_loaded st = true
  ∧ (sample_rate * 8 <= 10 * Z.of_nat (length (concat (audio_buffer st))))%Z.

(** The state after a transcription was accepted. *)
Definition accept (st : state) (text : string) (now : Z) : state :=
  {| model_loaded := model_loaded st; is_loading := is_loading st;
     audio_buffer := continuity_tail (concat (audio_buffer st));
     last_processing_time := now;
     last_transcription := text |}.

End Transcriber.

(** ** The visualisation chunker and its cache (StudentPage in
       deaf_student_page.py) *)

Module Visual.

Definition word_count_threshold : nat := 20.
Definition visualization_cooldown : Z := 10000.

Section Controller.

(** The rendered artefact and Python's [hash] on strings. *)
Variable pixmap : Type.
Variable hash : string → Z.

(** A [dict] keeps its keys in insertion order. *)
Abbreviation cache := (list (Z * pixmap)).

Record state := mkState {
  word_buffer : list string;
  total_words_processed : nat;
  last_visualization_time : Z;
  is_generating_visual : bool;
  visual_cache : cache
}.

Definition init : state :=
  {| word_buffer := []; total_words_processed := 0;
     last_visualization_time := 0; is_generating_visual := false;
     visual_cache := [] |}.

(** [key in d] and [d[key]] *)
Fixpoint dict_get (d : cache) (key : Z) : option pixmap :=
  match d with
  | [] => None
  | (k, v) :: rest => if decide (k = key) then Some v else dict_get rest key
  end.

(** [d[key] = v]: a key already present keeps its place. *)
Fixpoint dict_set (d : cache) (key : Z) (v : pixmap) : cache :=
  match d with
  | [] => [(key, v)]
  | (k, v0) :: rest =>
      if decide (k = key) then (k, v) :: rest
      else (k, v0) :: dict_set rest key v
  end.

(** [d.pop(next(iter(d)))] on a dict that is not empty. *)
Definition pop_first (d : cache) : cache := tail d.

Inductive effect :=
| Display (p : pixmap)
| Generate (chunk_text : string) (cache_key : Z)
| Fallback
| ResetFlagLater.

(** [chunk_text[:50]] *)
Definition first50 (s : string) : string := String.substring 0 50 s.

(** [generate_visualization(chunk_text)] *)
Definition generate_visualization (st : state) (chunk_text : string)
  : list effect :=
  let cache_key := hash (first50 chunk_text) in
  match dict_get (visual_cache st) cache_key with
  | Some p => [Display p]
  | None => [Generate chunk_text cache_key]
  end.

(** [process_for_visualization(transcript)] at clock reading
    [current_time]. *)
Definition process_for_visualization (st : state) (transcript : string)
    (current_time : Z) : state * list effect :=
  if bool_decide (current_time - last_visualization_time st
                  < visualization_cooldown)%Z
     || is_generating_visual st
  then (st, [])
  else
    let words := PyStr.split transcript in
    let new_word_count := length words in
    if bool_decide (new_word_count = 0) then (st, [])
    else
      let buf := word_buffer st ++ words in
      let total := total_words_processed st + new_word_count in
      let chunks_needed :=
        (Z.of_nat total / Z.of_nat word_count_threshold)%Z in
      let chunks_generated :=
        ((Z.of_nat total - Z.of_nat (length buf))
         / Z.of_nat word_count_threshold)%Z in
      if bool_decide (word_count_threshold ≤ length buf)
         && bool_decide (chunks_generated < chunks_needed)%Z
      then
        let chunk_text := PyStr.join " " (take word_count_threshold buf) in
        ({| word_buffer := drop word_count_threshold buf;
            total_words_processed := total;
            last_visualization_time := current_time;
            is_generating_visual := true;
            visual_cache := visual_cache st |},
         generate_visualization st chunk_text ++ [ResetFlagLater])
      else
        ({| word_buffer := buf;
            total_words_processed := total;
            last_visualization_time := last_visualization_time st;
            is_generating_visual := is_generating_visual st;
            visual_cache := visual_cache st |}, []).

Definition _reset_generation_flag (st : state) : state :=
  {| word_buffer := word_buffer st;
     total_words_processed := total_words_processed st;
     last_visualization_time := last_visualization_time st;
     is_generating_visual := false;
     visual_cache := visual_cache st |}.

(** How the generator and the renderer answered: an exception, no
    concept, a null pixmap, or a pixmap. *)
Inductive rendering :=
| Failed
| NoConcept
| NullPixmap
| Rendered (p : pixmap).

(** The cache after [self.visual_cache[cache_key] = pixmap] and the
    size limit. *)
Definition cache_store (d : cache) (cache_key : Z) (p : pixmap) : cache :=
  let d' := dict_set d cache_key p in
  if bool_decide (10 < length d') then pop_first d' else d'.

(** [_generate_visual_async(chunk_text, cache_key)] *)
Definition _generate_visual_async (st : state) (cache_key : Z)
    (r : rendering) : state * list effect :=
  match r with
  | Rendered p =>
      ({| word_buffer := word_buffer st;
          total_words_processed := total_words_processed st;
          last_visualization_time := last_visualization_time st;
          is_generating_visual := is_generating_visual st;
          visual_cache := cache_store (visual_cache st) cache_key p |},
       [Display p])
  | _ => (st, [Fallback])
  end.

(** A run of successful generations, one per key. *)
Definition generate_all (st : state) (jobs : list (Z * pixmap)) : state :=
  foldl (λ s '(k, p), fst (_generate_visual_async s k (Rendered p))) st jobs.

End Controller.

Arguments word_buffer {pixmap}.
Arguments total_words_processed {pixmap}.
Arguments last_visualization_time {pixmap}.
Arguments is_generating_visual {pixmap}.
Arguments visual_cache {pixmap}.
Arguments mkState {pixmap}.
Arguments init {pixmap}.
Arguments dict_get {pixmap}.
Arguments dict_set {pixmap}.
Arguments pop_first {pixmap}.
Arguments cache_store {pixmap}.
Arguments process_for_visualization {pixmap}.
Arguments _generate_visual_async {pixmap}.
Arguments generate_all {pixmap}.
Arguments _reset_generation_flag {pixmap}.
Arguments generate_visualization {pixmap}.
Arguments Display {pixmap}.
Arguments Generate {pixmap}.
Arguments Fallback {pixmap}.
Arguments ResetFlagLater {pixmap}.
Arguments Failed {pixmap}.
Arguments NoConcept {pixmap}.
Arguments NullPixmap {pixmap}.
Arguments Rendered {pixmap}.

End Visual.

(** ** Joining a session from the deaf student's page
       (StudentPage._check_session_async in deaf_student_page.py) *)

Module Join.
Import Feed.

(** The store: the records of [/sessions.json] in the order in which
    [data.items()] yields them. *)
Abbreviation store := (list (string * session)).

(** PATCH of a record: the fields sent replace or extend the record, the
    other fields stay. *)
Definition patch_fields (update_data d : session) : session :=
  update_data ∪ d.

Definition patch (id : string) (update_data : session) (db : store) : store :=
  (λ '(i, d), if decide (i = id) then (i, patch_fields update_data d) else (i, d))
    <$> db.

(** What became of a PATCH: it answered 200, it answered another status
    and wrote nothing, or it raised, in which case the write may have
    happened all the same. *)
Inductive patch_answer :=
| Patched
| Rejected
| Lost (written : bool).

(** The exceptions the join tells apart: [requests.exceptions.Timeout],
    [requests.exceptions.ConnectionError], and any other one, with its
    [str(e)]. *)
Inductive exception :=
| Timeout
| ConnectionError
| Other (text : string).

(** What a request did: it answered with a status code, or it raised. *)
Inductive reply :=
| Status (status_code : N)
| Raises (e : exception).

(** What the network did to the three requests of a join; [patch_written]
    tells whether a PATCH that raised was applied by the store. *)
Record network := mkNetwork {
  test_response : reply;    (* GET /.json *)
  response : reply;         (* GET /sessions.json *)
  patch_response : reply;   (* PATCH /sessions/<id>.json *)
  patch_written : bool
}.

Definition answered_200 (r : reply) : bool :=
  match r with
  | Status status_code => (status_code =? 200)%N
  | Raises _ => false
  end.

(** GET /.json answered 200; GET /sessions.json answered 200. *)
Definition test_ok (net : network) : bool := answered_200 (test_response net).
Definition sessions_ok (net : network) : bool := answered_200 (response net).

Definition patch_result (net : network) : patch_answer :=
  match patch_response net with
  | Status status_code => if (status_code =? 200)%N then Patched else Rejected
  | Raises _ => Lost (patch_written net)
  end.

Inductive outcome :=
| Joined
| Error (msg : string).

(** The three [except] clauses of the deaf student's join. *)
Definition show_exception (e : exception) : outcome :=
  match e with
  | Timeout =>
      Error "Connection timeout. Please check your internet connection."
  | ConnectionError =>
      Error "Connection error. Please check your internet connection."
  | Other text => Error ("Connection error: " +:+ text)
  end.

(** [update_data] of the join. *)
Definition update_data (name : string) (now : Z) : session :=
  {[ "deaf_student_name" := JStr name; "last_updated" := JNum now ]}.

Definition _check_session_async (name code : string) (now : Z)
    (net : network) (db : store) : store * outcome :=
  match test_response net with
  | Raises e => (db, show_exception e)
  | Status test_status =>
      if negb (test_status =? 200)%N then
        (db, Error "Connection failed. Please check your internet connection.")
      else
        match response net with
        | Raises e => (db, show_exception e)
        | Status status =>
            if (status =? 200)%N then
              match find_session code db with
              | None =>
                  (db, Error "Session not found. Please check the code and make sure your teacher has created the session.")
              | Some (session_id, _) =>
                  match patch_response net with
                  | Status patch_status =>
                      if (patch_status =? 200)%N
                      then (patch session_id (update_data name now) db, Joined)
                      else (db, Error "Failed to join session. Please try again.")
                  | Raises e =>
                      (if patch_written net
                       then patch session_id (update_data name now) db else db,
                       show_exception e)
                  end
              end
            else (db, Error "Failed to connect to classroom sessions.")
        end
  end.

(** What the join leaves alone in a record. *)
Definition untouched (old new : string * session) : Prop :=
  new.1 = old.1
  ∧ (∀ k : string, k ≠ "deaf_student_name" → k ≠ "last_updated" →
       new.2 !! k = old.2 !! k).

End Join.

(** ** More Python string primitives *)

Module PyText.

(** [needle in s] *)
Fixpoint contains (needle s : string) : bool :=
  String.prefix needle s
  || match s with
     | EmptyString => false
     | String _ s' => contains needle s'
     end.

(** [s.split(sep)] for a separator of one character: the pieces between
    the separators, empty pieces included. *)
Fixpoint split_on (sep : ascii) (s : string) : list string :=
  match s with
  | EmptyString => [EmptyString]
  | String a s' =>
      if decide (a = sep) then EmptyString :: split_on sep s'
      else match split_on sep s' with
           | w :: ws => String a w :: ws
           | [] => [String a EmptyString]
           end
  end.

(** [s.startswith(p)] *)
Definition startswith (p s : string) : bool := String.prefix p s.

(** A word as [split()] yields them: not empty and free of white space. *)
Fixpoint solid (s : string) : bool :=
  match s with
  | EmptyString => true
  | String a s' => negb (PyStr.is_space a) && solid s'
  end.

Definition is_word (w : string) : bool :=
  PyStr.truthy w && solid w.

(** [str.isdigit] on one code point below 256: the decimal digits and the
    superscripts 1, 2 and 3. *)
Definition digit_char (a : ascii) : bool :=
  let n := N_of_ascii a in
  ((48 <=? n) && (n <=? 57) || (n =? 178) || (n =? 179) || (n =? 185))%N.

Fixpoint all_chars (p : ascii → bool) (s : string) : bool :=
  match s with
  | EmptyString => true
  | String a s' => p a && all_chars p s'
  end.

(** [s.isdigit()]: false on the empty string. *)
Definition isdigit (s : string) : bool :=
  PyStr.truthy s && all_chars digit_char s.

(** [str(n)] for an integer that is not negative. *)
Definition digit_of (d : N) : ascii := ascii_of_N (48 + d).

Fixpoint str_go (fuel : nat) (n : N) (acc : string) : string :=
  let acc' := String (digit_of (n mod 10)) acc in
  match fuel with
  | O => acc'
  | S fuel' => if (n / 10 =? 0)%N then acc' else str_go fuel' (n / 10)%N acc'
  end.

Definition str (n : N) : string := str_go (N.to_nat (N.log2 n)) n EmptyString.

End PyText.

(** ** The capture loop of the gesture script (MEDIAPIPE_SCRIPT in
       mute_studentpage.py) *)

Module Capture.

(** [finger_count_queue.append(c)] on a [deque(maxlen=5)]. *)
Definition append_maxlen (q : list Z) (c : Z) : list Z :=
  drop (length (q ++ [c]) - 5) (q ++ [c]).

(** [q.count(x)] *)
Definition count_of (q : list Z) (x : Z) : nat :=
  length (filter (λ y, y = x) q).

(** [max(best, *rest, key=key)]: the first element whose key is largest. *)
Fixpoint max_by (key : Z → nat) (best : Z) (rest : list Z) : Z :=
  match rest with
  | [] => best
  | x :: rest' =>
      if key best <? key x then max_by key x rest' else max_by key best rest'
  end.

(** An order in which [set(q)] may be iterated: every element of [q],
    once. *)
Definition iterates (set_iter : list Z → list Z) : Prop :=
  ∀ q : list Z, NoDup (set_iter q) ∧ ∀ x : Z, x ∈ set_iter q ↔ x ∈ q.

(** [max(set(q), key=q.count) if len(q) == 5 else current]; the order in
    which the set is iterated is the interpreter's, [set_iter]. *)
Definition smooth (set_iter : list Z → list Z) (q : list Z) (current : Z) : Z :=
  if decide (length q = 5) then
    match set_iter q with
    | x :: rest => max_by (count_of q) x rest
    | [] => current
    end
  else current.

Inductive key := NoKey | KeyQ | KeyC.

(** One pass of the capture loop as the script sees it: the count of
    raised fingers of each detected hand (none: no hand in the frame), the
    clock and the key pressed. *)
Record capture := mkCapture {
  fingers : list nat;
  now : Z;
  pressed : key
}.

Record recognizer := mkRecognizer {
  core : Gesture.state;
  finger_count_queue : list Z
}.

Definition init : recognizer :=
  {| core := Gesture.init; finger_count_queue := [] |}.

Inductive event :=
| Commit (sign : string)
| Upload (at_time : Z) (sent : string)
| ForcedUpload (sent : string).

Definition of_debounce (t : Z) (e : Gesture.event) : event :=
  match e with
  | Gesture.Recognized s => Commit s
  | Gesture.Upload s => Upload t s
  end.

(** [min(total_fingers, 10)] *)
Definition current_finger_count (c : capture) : Z :=
  Z.min (Z.of_nat (foldr Nat.add 0 (fingers c))) 10.

Definition clear_sentence (st : Gesture.state) : Gesture.state :=
  {| Gesture.sentence := "";
     Gesture.last_finger_count := Gesture.last_finger_count st;
     Gesture.repeat_count := Gesture.repeat_count st;
     Gesture.last_upload_time := Gesture.last_upload_time st |}.

(** The body of the [while True] loop, up to the test of the quit key. *)
Definition pass (set_iter : list Z → list Z) (r : recognizer) (c : capture)
  : recognizer * list event :=
  let '(r1, evs) :=
    match fingers c with
    | [] => (r, [])
    | _ :: _ =>
        let current := current_finger_count c in
        let q := append_maxlen (finger_count_queue r) current in
        let smoothed := smooth set_iter q current in
        let '(st, out) := Gesture.step (core r) (Gesture.mkFrame smoothed (now c)) in
        ({| core := st; finger_count_queue := q |}, of_debounce (now c) <$> out)
    end in
  match pressed c with
  | KeyC => ({| core := clear_sentence (core r1);
                finger_count_queue := finger_count_queue r1 |},
             evs ++ [ForcedUpload ""])
  | _ => (r1, evs)
  end.

(** The loop: it ends with the frames or at the quit key. *)
Fixpoint run (set_iter : list Z → list Z) (r : recognizer) (cs : list capture)
  : recognizer * list event :=
  match cs with
  | [] => (r, [])
  | c :: cs' =>
      let '(r1, evs) := pass set_iter r c in
      match pressed c with
      | KeyQ => (r1, evs)
      | _ => let '(r2, out) := run set_iter r1 cs' in (r2, evs ++ out)
      end
  end.

Definition commits (evs : list event) : list string :=
  omap (λ e, match e with Commit s => Some s | _ => None end) evs.

Definition uploads (evs : list event) : list (Z * string) :=
  omap (λ e, match e with Upload t s => Some (t, s) | _ => None end) evs.

(** The phrases of the table. *)
Definition vocabulary : list string :=
  (map_to_list Gesture.FINGER_SIGNS).*2.

(** The debounce never lets the repetitions of a positive count reach the
    threshold unreset. *)
Definition steady (st : Gesture.state) : Prop :=
  (0 < Gesture.last_finger_count st →
   0 <= Gesture.repeat_count st < Gesture.REPEAT_THRESHOLD)%Z.

(** Uploads are spaced by the cooldown. *)
Definition spaced (ups : list (Z * string)) : Prop :=
  ∀ (i : nat) (u1 u2 : Z * string),
    ups !! i = Some u1 → ups !! S i = Some u2 →
    (Gesture.upload_cooldown <= u2.1 - u1.1)%Z.

(** The text of a run of tokens: each followed by a space. *)
Definition spell (tokens : list string) : string :=
  foldr (λ t acc, t +:+ " " +:+ acc) "" tokens.

(** The counts a frame can yield. *)
Definition in_range (x : Z) : Prop := (0 <= x <= 10)%Z.

(** An iteration order to compute with. *)
Definition first_seen (q : list Z) : list Z := remove_dups q.

End Capture.

(** ** Writes to the session store (mute_studentpage.py, teacher_page.py,
       deaf_student_page.py) *)

Module Store.
Import Feed.

(** Whether a PATCH reached the store, and whether its answer was 200. *)
Definition applied (a : Join.patch_answer) : bool :=
  match a with
  | Join.Patched => true
  | Join.Rejected => false
  | Join.Lost written => written
  end.

Definition acknowledged (a : Join.patch_answer) : bool :=
  match a with
  | Join.Patched => true
  | _ => false
  end.

(** GET of one record by its id: the record, or null when there is none. *)
Fixpoint lookup_id (id : string) (db : Join.store) : option session :=
  match db with
  | [] => None
  | (i, d) :: rest => if decide (i = id) then Some d else lookup_id id rest
  end.

(** PATCH of [/sessions/<id>.json]: the fields are merged into the record;
    a record that does not exist is created with these fields. *)
Definition patch_at (id : string) (update_data : session) (db : Join.store)
  : Join.store :=
  match lookup_id id db with
  | Some _ => Join.patch id update_data db
  | None => db ++ [(id, update_data)]
  end.

Definition write (id : string) (update_data : session) (a : Join.patch_answer)
    (db : Join.store) : Join.store :=
  if applied a then patch_at id update_data db else db.

(** *** [upload_to_firebase] of the gesture script *)

Definition sentence_update (student_name sentence : string) (now : Z) : session :=
  {[ "student_transcript" := JStr sentence;
     "student_name" := JStr student_name;
     "last_updated" := JNum now ]}.

(** [fetched]: the GET of the sessions answered 200.  A record cannot be
    null here, so the test of the loop is [has_code]. *)
Definition upload_to_firebase (session_code student_name sentence : string)
    (now : Z) (fetched : bool) (a : Join.patch_answer) (db : Join.store)
  : Join.store :=
  if fetched then
    match find_session session_code db with
    | Some (session_id, _) =>
        write session_id (sentence_update student_name sentence now) a db
    | None => db
    end
  else db.

(** *** [TeacherSessionPage.update_transcript_in_firebase] *)

Definition transcript_update (transcript : string) (now : Z) : session :=
  {[ "current_transcript" := JStr transcript; "last_updated" := JNum now ]}.

(** The page holds the id of its session ([None]: no id).  The call
    answers [True] unless the request raised. *)
Definition update_transcript_in_firebase (session_id : option string)
    (transcript : string) (now : Z) (a : Join.patch_answer) (db : Join.store)
  : Join.store * bool :=
  match session_id with
  | None => (db, false)
  | Some id =>
      (write id (transcript_update transcript now) a db,
       match a with Join.Lost _ => false | _ => true end)
  end.

(** *** Sending a chat message: read the log, append, write it back *)

Definition chat_update (existing_chat : list (option ChatMessage))
    (m : ChatMessage) (now : Z) : session :=
  {[ "chat_messages" := JChat (existing_chat ++ [Some m]);
     "last_updated" := JNum now ]}.

(** [TeacherSessionPage.upload_chat_to_firebase]: the first half reads
    the record, the second half writes the longer log. *)
Definition teacher_message (message : string) (now : Z) : ChatMessage :=
  {| sender := "teacher"; sender_name := ""; message := message; timestamp := now |}.

Definition teacher_read (session_id : string) (db : Join.store)
  : list (option ChatMessage) :=
  get_chat (default ∅ (lookup_id session_id db)).

Definition teacher_write (session_id : string)
    (existing_chat : list (option ChatMessage)) (message : string) (now : Z)
    (a : Join.patch_answer) (db : Join.store) : Join.store :=
  write session_id (chat_update existing_chat (teacher_message message now) now) a db.

Definition upload_chat_to_firebase (session_id message : string) (now : Z)
    (fetched : bool) (a : Join.patch_answer) (db : Join.store)
  : Join.store * bool :=
  if fetched then
    (teacher_write session_id (teacher_read session_id db) message now a db,
     acknowledged a)
  else (db, false).

(** [StudentPage._send_chat_to_firebase] (deaf_student_page.py) *)
Definition student_message (student_name message : string) (now : Z)
  : ChatMessage :=
  {| sender := "student"; sender_name := student_name; message := message;
     timestamp := now |}.

Definition _send_chat_to_firebase (session_code student_name message : string)
    (now : Z) (fetched : bool) (a : Join.patch_answer) (db : Join.store)
  : Join.store :=
  if fetched then
    match find_session session_code db with
    | Some (session_id, d) =>
        write session_id
          (chat_update (get_chat d) (student_message student_name message now) now)
          a db
    | None => db
    end
  else db.

(** The second half of a student's send, on the log read in the first. *)
Definition student_write (session_id : string)
    (existing_chat : list (option ChatMessage)) (student_name message : string)
    (now : Z) (a : Join.patch_answer) (db : Join.store) : Join.store :=
  write session_id
    (chat_update existing_chat (student_message student_name message now) now) a db.

(** [MuteStudentPage._send_chat_async]: the message carries no name. *)
Definition _send_chat_async (session_code message : string)
    (now : Z) (fetched : bool) (a : Join.patch_answer) (db : Join.store)
  : Join.store :=
  _send_chat_to_firebase session_code "" message now fetched a db.

(** *** [MuteStudentPage._check_session_async]; the status codes quoted in
    its messages are left out *)

Definition name_update (student_name : string) (now : Z) : session :=
  {[ "student_name" := JStr student_name; "last_updated" := JNum now ]}.

(** The three [except] clauses of the mute student's join. *)
Definition mute_show_exception (e : Join.exception) : Join.outcome :=
  match e with
  | Join.Timeout =>
      Join.Error "Connection timeout. Please check your internet connection and try again."
  | Join.ConnectionError =>
      Join.Error "Connection error. Please check your internet connection."
  | Join.Other text => Join.Error ("Connection error: " +:+ text)
  end.

Definition mute_check_session_async (student_name session_code : string)
    (now : Z) (net : Join.network) (db : Join.store)
  : Join.store * Join.outcome :=
  match Join.test_response net with
  | Join.Raises e => (db, mute_show_exception e)
  | Join.Status test_status =>
      if negb (test_status =? 200)%N then
        (db, Join.Error ("Connection failed (Status: " +:+ PyText.str test_status
                         +:+ "). Please check your internet connection."))
      else
        match Join.response net with
        | Join.Raises e => (db, mute_show_exception e)
        | Join.Status status =>
            if (status =? 200)%N then
              match find_session session_code db with
              | None =>
                  (db, Join.Error "Session not found. Please check the code and make sure your teacher has created the session.")
              | Some (session_id, _) =>
                  match Join.patch_response net with
                  | Join.Status patch_status =>
                      if (patch_status =? 200)%N
                      then (Join.patch session_id (name_update student_name now) db,
                            Join.Joined)
                      else (db, Join.Error ("Failed to join session (Error: "
                                            +:+ PyText.str patch_status +:+ ")"))
                  | Join.Raises e =>
                      (if Join.patch_written net
                       then Join.patch session_id (name_update student_name now) db
                       else db,
                       mute_show_exception e)
                  end
              end
            else (db, Join.Error ("Failed to fetch sessions (Error: "
                                  +:+ PyText.str status +:+ ")"))
        end
  end.

(** *** [SessionCreationPage.push_to_firebase]: the record of a new session *)

Definition new_session (session_name session_code : string) (now : Z) : session :=
  {[ "session_code" := JStr session_code;
     "session_name" := JStr session_name;
     "status" := JStr "active";
     "current_transcript" := JStr "";
     "student_transcript" := JStr "Student has not started signing yet...";
     "student_name" := JStr "Waiting for student...";
     "chat_messages" := JChat [];
     "created_at" := JNum now;
     "last_updated" := JNum now ]}.

(** The ids of a store are the keys of a JSON object: no id occurs twice. *)
Definition keyed (db : Join.store) : Prop := NoDup db.*1.

(** The student names a listener reported. *)
Definition names (evs : list event) : list string :=
  omap (λ e, match e with StudentInfo n => Some n | _ => None end) evs.

End Store.

(** ** Speaking the student's words on the teacher's page
       (TeacherSessionPage in teacher_page.py) *)

Module Voice.
Import Feed.

Record state := mkState {
  tts_enabled : bool;
  last_full_transcript : string;
  last_spoken_content : string;
  last_spoken_time : Z;
  student_name : string;
  tts_engine : Speech.engine
}.

Definition init : state :=
  {| tts_enabled := true; last_full_transcript := "";
     last_spoken_content := ""; last_spoken_time := 0;
     student_name := "Student"; tts_engine := Speech.init |}.

Definition min_speech_interval : Z := 2000.

(** [get_new_words(current_transcript)] *)
Definition get_new_words (st : state) (current_transcript : string) : list string :=
  if negb (PyStr.truthy (last_full_transcript st))
  then PyStr.split current_transcript
  else
    let current_words := PyStr.split current_transcript in
    let previous_words := PyStr.split (last_full_transcript st) in
    if length previous_words <? length current_words
    then drop (length previous_words) current_words
    else [].

(** [speak_word(word)] at clock reading [current_time]. *)
Definition speak_word (st : state) (word : string) (current_time : Z) : state :=
  if bool_decide (word = last_spoken_content st)
     && bool_decide (current_time - last_spoken_time st < min_speech_interval)%Z
  then st
  else {| tts_enabled := tts_enabled st;
          last_full_transcript := last_full_transcript st;
          last_spoken_content := word;
          last_spoken_time := current_time;
          student_name := student_name st;
          tts_engine := Speech.speak word (tts_engine st) |}.

Definition system_phrases : list string :=
  ["student has not started"; "waiting for student"; "session created";
   "share the code"; "waiting for student..."].

(** [any(phrase in transcript.lower() for phrase in [...])] *)
Definition is_system_message (transcript : string) : bool :=
  existsb (λ phrase, PyText.contains phrase (PyStr.lower transcript))
    system_phrases.

(** The loop [for word in new_words]; [clock i] is the reading of the
    clock while the word at position [i] is handled. *)
Fixpoint speak_each (st : state) (i : nat) (clock : nat → Z)
    (new_words : list string) : state :=
  match new_words with
  | [] => st
  | word :: rest =>
      let st' := if 1 <? String.length word then speak_word st word (clock i)
                 else st in
      speak_each st' (S i) clock rest
  end.

(** [speak_new_words(transcript)] *)
Definition speak_new_words (st : state) (transcript : string) (clock : nat → Z)
  : state :=
  if negb (tts_enabled st) || negb (PyStr.truthy (PyStr.strip transcript)) then st
  else if is_system_message transcript then st
  else
    let new_words := get_new_words st transcript in
    speak_each {| tts_enabled := tts_enabled st;
                  last_full_transcript := transcript;
                  last_spoken_content := last_spoken_content st;
                  last_spoken_time := last_spoken_time st;
                  student_name := student_name st;
                  tts_engine := tts_engine st |} 0 clock new_words.

(** [speak_chat_message(message)] *)
Definition speak_chat_message (st : state) (message : string) (current_time : Z)
  : state :=
  if negb (tts_enabled st) || negb (PyStr.truthy (PyStr.strip message)) then st
  else speak_word st (student_name st +:+ " says: " +:+ message) current_time.

(** [update_student_name_display(student_name)] *)
Definition update_student_name_display (st : state) (name : string) : state :=
  {| tts_enabled := tts_enabled st;
     last_full_transcript := last_full_transcript st;
     last_spoken_content := last_spoken_content st;
     last_spoken_time := last_spoken_time st;
     student_name := name;
     tts_engine := tts_engine st |}.

(** [update_chat_display(message_data)] *)
Definition update_chat_display (st : state) (m : ChatMessage) (current_time : Z)
  : state :=
  if decide (sender m = "student")
  then speak_chat_message st (message m) current_time
  else st.

(** The slots the listener's signals are connected to
    ([start_student_listener]); every event is handled at the reading
    [clock 0], its words at [clock 0], [clock 1], ... *)
Definition handle (clock : nat → Z) (st : state) (e : event) : state :=
  match e with
  | Transcript t => speak_new_words st t clock
  | Chat m => update_chat_display st m (clock 0)
  | StudentInfo n => update_student_name_display st n
  | Connection _ | Verified _ => st
  end.

(** The words waiting to be spoken. *)
Definition queued (st : state) : list string := Speech.word_queue (tts_engine st).

(** What the new words add to the speech queue, by the rule of the
    property: a word of one character is passed over; a longer word is
    left out when it is the content spoken last and less than 2 s have
    passed since that was spoken; otherwise it is queued and becomes the
    content spoken last, at the reading of the clock taken for it.
    [content] and [time] are the content spoken last and its time, [i] is
    the position of the first word. *)
Fixpoint voiced (content : string) (time : Z) (i : nat) (clock : nat → Z)
    (words : list string) : list string :=
  match words with
  | [] => []
  | word :: rest =>
      if 1 <? String.length word then
        if bool_decide (word = content)
           && bool_decide (clock i - time < 2000)%Z
        then voiced content time (S i) clock rest
        else word :: voiced word (clock i) (S i) clock rest
      else voiced content time (S i) clock rest
  end.

End Voice.


(* ================================================================== *)
(** * The forms: creating a session and asking to join one
      ([teacher_page.py], [SessionCreationPage.create_session];
       [deaf_student_page.py] and [mute_studentpage.py], [check_session]) *)

Module Forms.
Import PyStr PyText Feed.

(** What [check_session] ends in: an error shown on the form, or the join
    scheduled with the name and code it stored. *)
Inductive checked :=
| ShowError (msg : string)
| Joining (name code : string).

(** [check_session], the same in both student pages. *)
Definition check_session (name_input code_input : string) : checked :=
  let name := strip name_input in
  let code := strip code_input in
  if negb (truthy name) then ShowError "Please enter your name"
  else if negb (truthy code) then ShowError "Please enter a session code"
  else if negb (String.length code =? 6) || negb (isdigit code)
  then ShowError "Please enter a valid 6-digit code"
  else Joining name code.

(** [random.randint(100000, 999999)]: both ends included. *)
Definition randint_range (r : N) : Prop := (100000 <= r <= 999999)%N.

(** [create_session]: nothing is created for a blank name; otherwise the
    code is [str] of the number drawn and the record is the one
    [push_to_firebase] posts. *)
Definition create_session (session_input : string) (randint : N) (now : Z)
  : option (string * session) :=
  let session_name := strip session_input in
  if negb (truthy session_name) then None
  else
    let session_code := str randint in
    Some (session_code, Store.new_session session_name session_code now).

(** The codes of the records of a store. *)
Definition carries (code : string) (rec : string * session) : Prop :=
  has_code code rec.2 = true.

#[global] Instance carries_dec code rec : Decision (carries code rec).
Proof. unfold carries. apply _. Defined.

End Forms.


(* ================================================================== *)
(** * The assistant's chat display ([app_window.py], [AIAssistantWidget]) *)

Module Html.
Import PyStr PyText.

Definition amp : ascii := "&"%char.
Definition lt : ascii := "<"%char.
Definition gt : ascii := ">"%char.
Definition quot : ascii := "034"%char.
Definition apos : ascii := "'"%char.
Definition newline : ascii := "010"%char.

Definition char (a : ascii) : string := String a EmptyString.

(** [escape_html] *)
Definition escape_html (text : string) : string :=
  if negb (truthy text) then EmptyString
  else
    replace (char apos) "&#39;"
      (replace (char quot) "&quot;"
         (replace (char gt) "&gt;"
            (replace (char lt) "&lt;"
               (replace (char amp) "&amp;" text)))).

(** [formatted_message] of [add_message] for a reply of the assistant. *)
Definition formatted_message (message : string) : string :=
  replace (char newline) "<br>" (escape_html message).

(** What one character of the text becomes. *)
Definition entity (a : ascii) : string :=
  if decide (a = amp) then "&amp;"
  else if decide (a = lt) then "&lt;"
  else if decide (a = gt) then "&gt;"
  else if decide (a = quot) then "&quot;"
  else if decide (a = apos) then "&#39;"
  else char a.

(** The characters with a meaning in markup that [escape_html] is to
    remove. *)
Definition markup (a : ascii) : bool :=
  bool_decide (a = lt) || bool_decide (a = gt) || bool_decide (a = quot)
  || bool_decide (a = apos).

(** The text with each character replaced by what [f] gives for it. *)
Fixpoint expand (f : ascii → string) (s : string) : string :=
  match s with
  | EmptyString => EmptyString
  | String a s' => f a +:+ expand f s'
  end.

End Html.


(* ================================================================== *)
(** * The visual concept ([deaf_student_page.py],
      [ProfessionalVisualRenderer._parse_concept_clearly]) *)

Module Concept.
Import PyStr PyText.

Record data := mkData {
  concept : string;
  type : string;
  points : list string
}.

Definition default_points : list string :=
  ["Learning Process"; "Key Concepts"; "Understanding"].

Definition newline : ascii := "010"%char.

(** The body of the loop over the lines. *)
Definition parse_line (d : data) (line : string) : data :=
  let line := strip line in
  if negb (truthy line) then d
  else if startswith "CONCEPT:" line then
    let concept := strip (replace "CONCEPT:" "" line) in
    let words := take 4 (split concept) in
    mkData (join " " words) (type d) (points d)
  else if startswith "VISUAL_TYPE:" line then
    let vis_type := lower (strip (replace "VISUAL_TYPE:" "" line)) in
    mkData (concept d) vis_type (points d)
  else if startswith "-" line then
    let point := strip (replace "-" "" line) in
    let words := take 3 (split point) in
    match words with
    | [] => d
    | _ => mkData (concept d) (type d) (points d ++ [join " " words])
    end
  else d.

Definition _parse_concept_clearly (visual_concept : string) : data :=
  let data := mkData "Teaching Concept" "bubbles" [] in
  if negb (truthy visual_concept) then data
  else
    let d := foldl parse_line data (split_on newline visual_concept) in
    let points1 :=
      if length (points d) <? 3 then take 3 default_points else points d in
    mkData (concept d) (type d) (take 4 points1).

(** The figure [create_professional_visual] draws for the parsed concept. *)
Inductive figure := Mindmap | Flowchart | Bubbles.

Definition figure_of (concept_data : data) : figure :=
  let visual_type := lower (type concept_data) in
  if contains "mindmap" visual_type then Mindmap
  else if contains "flowchart" visual_type then Flowchart
  else Bubbles.

(** A text of at least [lo] and at most [hi] words. *)
Definition words_between (lo hi : nat) (text : string) : Prop :=
  lo ≤ length (split text) ≤ hi.

(** What the loop over the lines keeps true. *)
Definition parsed_well (d : data) : Prop :=
  Forall (words_between 1 3) (points d) ∧ words_between 0 4 (concept d).

End Concept.


(* ================================================================== *)
(** * The transcriber of the deaf student's page over a session
      ([deaf_student_page.py], [WhisperSTTProcessor]) *)

Module Captions.
Import PyStr Transcriber.

(** Chunks arriving one after the other, no job in between. *)
Definition feed (st : state) (chunks : list (chunk * Z)) : state :=
  foldl (λ s ct, (add_audio_chunk s ct.1 ct.2).1) st chunks.

End Captions.

(** ** The threads of the transcriber

    [add_audio_chunk] starts a thread on [_process_buffer] for every chunk
    that finds enough audio and time, whether or not an earlier thread is
    still running, so jobs overlap.  The threads share the fields of the
    processor; every statement that reads or writes a shared field is one
    step, and the steps of the threads interleave in any order. *)

Module Jobs.
Import PyStr Transcriber.

(** Where a thread on [_process_buffer] stands, with what it holds in its
    local variables. *)
Inductive job :=
| Started                                  (* nothing has run *)
| Checked                                  (* l.1066 passed *)
| Transcribing (audio : chunk)             (* l.1070-1074 passed, the engine runs *)
| Testing (audio : chunk) (text : string)  (* l.1089-1092 done, the text is cleaned *)
| Accepted (audio : chunk) (text : string) (* the test of l.1094 passed *)
| Remembered (audio : chunk) (text : string)  (* l.1099 done *)
| Trimmed (text : string)                  (* l.1101-1105 done *)
| Stamped (text : string)                  (* l.1107 done *)
| Failing                                  (* an exception is on its way to l.1110 *)
| Done.

(** Where the caller of [add_audio_chunk] stands. *)
Inductive call :=
| Idle
| Appended                                 (* l.1047-1051 done *)
| Counted (total_samples current_time : Z).   (* l.1053-1054 done *)

Record system := mkSystem {
  shared : state;
  caller : call;
  jobs : list job;        (* the threads started so far, in order *)
  emitted : list string   (* the texts emitted so far, oldest first *)
}.

Definition start (st : state) : system :=
  {| shared := st; caller := Idle; jobs := []; emitted := [] |}.

(** The next statement of a thread on [_process_buffer]: the shared
    fields, the thread, and the text emitted, if any.  [a] is what the
    engine does when it is the engine's turn, [now] the reading of the
    clock when it is read. *)
Definition turn (sh : state) (jb : job) (a : answer) (now : Z)
  : state * job * option string :=
  match jb with
  | Started =>
      if negb (model_loaded sh) || bool_decide (audio_buffer sh = [])
      then (sh, Done, None) else (sh, Checked, None)
  | Checked =>
      (* np.concatenate raises on an empty list *)
      if bool_decide (audio_buffer sh = []) then (sh, Failing, None)
      else
        let audio := concat (audio_buffer sh) in
        if bool_decide (10 * Z.of_nat (length audio) < sample_rate * 8)%Z
        then (sh, Done, None)
        else (sh, Transcribing audio, None)
  | Transcribing audio =>
      match a with
      | Raised => (sh, Failing, None)
      | Result raw =>
          let text := strip raw in
          if truthy text
          then (sh, Testing audio (_clean_transcription text), None)
          else (sh, Done, None)
      end
  | Testing audio text =>
      if _is_too_similar text (last_transcription sh) then (sh, Done, None)
      else (sh, Accepted audio text, None)
  | Accepted audio text =>
      ({| model_loaded := model_loaded sh; is_loading := is_loading sh;
          audio_buffer := audio_buffer sh;
          last_processing_time := last_processing_time sh;
          last_transcription := text |}, Remembered audio text, None)
  | Remembered audio text =>
      ({| model_loaded := model_loaded sh; is_loading := is_loading sh;
          audio_buffer := continuity_tail audio;
          last_processing_time := last_processing_time sh;
          last_transcription := last_transcription sh |}, Trimmed text, None)
  | Trimmed text =>
      ({| model_loaded := model_loaded sh; is_loading := is_loading sh;
          audio_buffer := audio_buffer sh;
          last_processing_time := now;
          last_transcription := last_transcription sh |}, Stamped text, None)
  | Stamped text => (sh, Done, Some text)
  | Failing =>
      ({| model_loaded := model_loaded sh; is_loading := is_loading sh;
          audio_buffer := [];
          last_processing_time := last_processing_time sh;
          last_transcription := last_transcription sh |}, Done, None)
  | Done => (sh, Done, None)
  end.

(** What the scheduler lets happen next: the caller enters
    [add_audio_chunk] with a chunk, goes on to count the samples, goes on
    to decide; or thread [j] runs its next statement.  A move that is not
    possible leaves the system as it is. *)
Inductive move :=
| Chunk (c : chunk)
| Count (current_time : Z)
| Decide
| Turn (j : nat) (a : answer) (now : Z).

Definition step (s : system) (m : move) : system :=
  match m with
  | Chunk c =>
      match caller s with
      | Idle =>
          let sh := shared s in
          if negb (model_loaded sh) || is_loading sh then s
          else
            {| shared :=
                 {| model_loaded := model_loaded sh; is_loading := is_loading sh;
                    audio_buffer := audio_buffer sh ++ [c];
                    last_processing_time := last_processing_time sh;
                    last_transcription := last_transcription sh |};
               caller := Appended; jobs := jobs s; emitted := emitted s |}
      | _ => s
      end
  | Count current_time =>
      match caller s with
      | Appended =>
          {| shared := shared s;
             caller := Counted (total_samples (audio_buffer (shared s)))
                         current_time;
             jobs := jobs s; emitted := emitted s |}
      | _ => s
      end
  | Decide =>
      match caller s with
      | Counted total current_time =>
          {| shared := shared s; caller := Idle;
             jobs :=
               if bool_decide (sample_rate * buffer_duration <= total)%Z
                  && bool_decide (processing_interval
                                  <= current_time
                                     - last_processing_time (shared s))%Z
               then jobs s ++ [Started] else jobs s;
             emitted := emitted s |}
      | _ => s
      end
  | Turn j a now =>
      match jobs s !! j with
      | Some jb =>
          let r := turn (shared s) jb a now in
          {| shared := r.1.1; caller := caller s;
             jobs := <[j := r.1.2]> (jobs s);
             emitted := emitted s ++ option_list r.2 |}
      | None => s
      end
  end.

Definition run (s : system) (moves : list move) : system := foldl step s moves.




(** No text of the list is too similar to the one before it, [prev]
    standing before the first. *)
Fixpoint distinct_enough (prev : string) (texts : list string) : Prop :=
  match texts with
  | [] => True
  | t :: rest => _is_too_similar t prev = false ∧ distinct_enough t rest
  end.




(** A call of [add_audio_chunk] and a thread on [_process_buffer] that run
    with no step of another thread in between. *)
Definition call_alone (c : chunk) (current_time : Z) : list move :=
  [Chunk c; Count current_time; Decide].

Definition job_alone (j : nat) (a : answer) (now : Z) : list move :=
  replicate 8 (Turn j a now).

(** [n] statements of a thread with nothing in between: the shared fields,
    the thread and the texts emitted. *)
Fixpoint alone (n : nat) (sh : state) (jb : job) (a : answer) (now : Z)
  : state * job * list string :=
  match n with
  | O => (sh, jb, [])
  | S n' =>
      let r := turn sh jb a now in
      let r' := alone n' r.1.1 r.1.2 a now in
      (r'.1.1, r'.1.2, option_list r.2 ++ r'.2)
  end.

(** Two threads that run in step, a statement of the one, then a
    statement of the other. *)
Definition in_step (j1 j2 : nat) (a : answer) (now : Z) : list move :=
  concat (replicate 8 [Turn j1 a now; Turn j2 a now]).

End Jobs.

(* ================================================================== *)
(** * The teacher's speech recognition ([teacher_page.py],
      [WhisperSTTProcessor] and [TeacherSessionPage.process_audio]) *)

Module Whisper.
Import PyStr.

Abbreviation chunk := (list Z).

Record state := mkState {
  model_loaded : bool;
  audio_buffer : list chunk;
  last_processing_time : Z
}.

Definition sample_rate : Z := 16000.
Definition buffer_duration : Z := 3.
Definition processing_interval : Z := 2000.

(** [int(self.sample_rate * 0.5)] *)
Definition keep_samples : nat := Z.to_nat (sample_rate / 2).

Definition cleared (st : state) : state :=
  {| model_loaded := model_loaded st; audio_buffer := [];
     last_processing_time := last_processing_time st |}.

(** [process_buffer]: the new state and the text returned. *)
Definition process_buffer (st : state) (a : Transcriber.answer) (now : Z)
  : state * string :=
  if negb (model_loaded st) || bool_decide (audio_buffer st = []) then (st, "")
  else
    let audio := concat (audio_buffer st) in
    (* len(audio) < self.sample_rate * 0.5 *)
    if bool_decide (2 * Z.of_nat (length audio) < sample_rate)%Z then (st, "")
    else
      match a with
      | Transcriber.Raised => (cleared st, "")
      | Transcriber.Result raw =>
          let text := strip raw in
          if truthy text then
            ({| model_loaded := model_loaded st;
                audio_buffer :=
                  if bool_decide (keep_samples < length audio)
                  then [drop (length audio - keep_samples) audio]
                  else [audio];
                last_processing_time := now |}, text)
          else (cleared st, "")
      end.

(** [add_audio_chunk]: the new state and what is returned, [None] without
    a model. *)
Definition add_audio_chunk (st : state) (c : chunk) (current_time : Z)
    (a : Transcriber.answer) (now : Z) : state * option string :=
  if negb (model_loaded st) then (st, None)
  else
    let st1 := {| model_loaded := model_loaded st;
                  audio_buffer := audio_buffer st ++ [c];
                  last_processing_time := last_processing_time st |} in
    if bool_decide (sample_rate * buffer_duration
                    < Transcriber.total_samples (audio_buffer st1))%Z
       && bool_decide (processing_interval
                       < current_time - last_processing_time st)%Z
    then (let r := process_buffer st1 a now in (r.1, Some r.2))
    else (st1, Some "").

(** One turn of the loop of [process_audio]: the chunk goes to the
    recognizer, and a text that is not blank becomes the current
    transcript and is written to the session. *)
Definition process_chunk (session_id : option string) (st : state)
    (db : Join.store) (c : chunk) (current_time : Z) (a : Transcriber.answer)
    (now write_time : Z) (net : Join.patch_answer)
  : state * Join.store * option string :=
  let r := add_audio_chunk st c current_time a now in
  match r.2 with
  | Some text =>
      if truthy text && truthy (strip text)
      then (r.1,
            (Store.update_transcript_in_firebase session_id text write_time
               net db).1,
            Some text)
      else (r.1, db, None)
  | None => (r.1, db, None)
  end.

(** Whether a chunk makes the recognizer run the engine: more than 3 s of
    audio are buffered and more than 2 s have passed. *)
Definition due (st : state) (c : chunk) (current_time : Z) : bool :=
  bool_decide (sample_rate * buffer_duration
               < Transcriber.total_samples (audio_buffer st ++ [c]))%Z
  && bool_decide (processing_interval
                  < current_time - last_processing_time st)%Z.

End Whisper.

(* ================================================================== *)
(** * Properties *)
(* ================================================================== *)

(** ** Gesture debounce *)

Section GestureFacts.
Import Gesture.

Lemma step_same_below (st : state) (f : frame) :
  smoothed_count f = last_finger_count st →
  (repeat_count st + 1 ≠ REPEAT_THRESHOLD)%Z →
  ∃ st', step st f = (st', []) ∧
         last_finger_count st' = last_finger_count st ∧
         repeat_count st' = (repeat_count st + 1)%Z.
Proof.
  intros Hc Hr. unfold step.
  destruct (decide (smoothed_count f = last_finger_count st)) as [_|]; [|done].
  cbn [repeat_count]. rewrite decide_False by (intros [? _]; done).
  eexists; split; [reflexivity|]. by cbn.
Qed.

Lemma step_same_commit (st : state) (f : frame) :
  smoothed_count f = last_finger_count st →
  (0 < smoothed_count f)%Z →
  (repeat_count st + 1 = REPEAT_THRESHOLD)%Z →
  ∃ st' evs, step st f = (st', evs) ∧
         committed evs = Some (sign_text (smoothed_count f)) ∧
         last_finger_count st' = last_finger_count st ∧
         repeat_count st' = 0%Z.
Proof.
  intros Hc Hpos Hr. unfold step.
  destruct (decide (smoothed_count f = last_finger_count st)) as [_|]; [|done].
  cbn [repeat_count sentence last_upload_time last_finger_count].
  rewrite decide_True by done.
  case_decide; do 2 eexists; (split; [reflexivity|]); by cbn.
Qed.

(** From a state that already tracks [c] with [r] repeats, the frame at
    offset [k] of a constant stream commits exactly when [r + k + 1] is a
    multiple of the threshold. *)
Lemma commits_tracking (c : Z) (clock : list Z) :
  (0 < c)%Z →
  ∀ (st : state) (k : nat),
    last_finger_count st = c →
    (0 <= repeat_count st < REPEAT_THRESHOLD)%Z →
    k < length clock →
    commits st (constant_stream c clock) !! k
    = Some (if decide (((repeat_count st + Z.of_nat k + 1) mod 10)%Z = 0%Z)
            then Some (sign_text c) else None).
Proof.
  intros Hc. induction clock as [|t clock IH]; intros st k Hl Hr Hk.
  { cbn in Hk. lia. }
  unfold commits, constant_stream in *. cbn [map run].
  unfold REPEAT_THRESHOLD in *.
  destruct (decide (repeat_count st + 1 = 10)%Z) as [Hten|Hten].
  - destruct (step_same_commit st (mkFrame c t)) as (st' & evs & -> & Hev & Hl' & Hr');
      [by cbn | by cbn | done |].
    specialize (IH st'). destruct (run st' (map (mkFrame c) clock)) as [out st''] eqn:Hrun.
    cbn [fst] in *. destruct k as [|k]; cbn [lookup list_lookup].
    + cbn in Hev. rewrite Hev. rewrite decide_True; [done|].
      replace (repeat_count st + Z.of_nat 0 + 1)%Z with 10%Z by lia. done.
    + cbn in Hk. rewrite IH by (try lia; congruence). rewrite Hr'.
      f_equal. apply decide_ext.
      replace (repeat_count st + Z.of_nat (S k) + 1)%Z
        with (0 + Z.of_nat k + 1 + 1 * 10)%Z by lia.
      by rewrite Z_mod_plus_full.
  - destruct (step_same_below st (mkFrame c t)) as (st' & -> & Hl' & Hr');
      [by cbn | done |].
    specialize (IH st'). destruct (run st' (map (mkFrame c) clock)) as [out st''] eqn:Hrun.
    cbn [fst] in *. destruct k as [|k]; cbn [lookup list_lookup].
    + cbn [committed]. rewrite decide_False; [done|].
      replace (repeat_count st + Z.of_nat 0 + 1)%Z with (repeat_count st + 1)%Z by lia.
      rewrite Z.mod_small by lia. lia.
    + cbn in Hk. rewrite IH by (try lia; congruence). rewrite Hr'.
      f_equal. apply decide_ext.
      replace (repeat_count st + 1 + Z.of_nat k + 1)%Z
        with (repeat_count st + Z.of_nat (S k) + 1)%Z by lia.
      done.
Qed.

(** From the initial state the first frame only records the count. *)
Lemma step_first (c t : Z) :
  (0 < c)%Z →
  ∃ st', step init (mkFrame c t) = (st', []) ∧
         last_finger_count st' = c ∧ repeat_count st' = 0%Z.
Proof.
  intros Hc. unfold step, init. cbn [smoothed_count last_finger_count].
  destruct (decide (c = -1)%Z) as [?|_]; [lia|]. cbn [repeat_count].
  rewrite decide_False by (intros [? _]; done).
  eexists; split; [reflexivity|]. by cbn.
Qed.

(** C1 (as amended). Started in its initial state and fed frames whose
    smoothed count is a constant c > 0, the recognizer commits nothing
    during the first 10 frames, commits one token for c at the 11th frame
    (the 10th repetition), and commits one token again at every 10th
    frame after it (frames 21, 31, ...): the frame at 0-based position k
    commits exactly when k is a positive multiple of 10. *)
Theorem gesture_commit_timing (c : Z) (clock : list Z) (k : nat) :
  (0 < c)%Z →
  k < length clock →
  commits init (constant_stream c clock) !! k
  = Some (if decide (k ≠ 0 ∧ k `mod` 10 = 0) then Some (sign_text c) else None).
Proof.
  intros Hc Hk. destruct clock as [|t clock]; [cbn in Hk; lia|].
  unfold commits, constant_stream. cbn [map run].
  destruct (step_first c t Hc) as (st' & -> & Hl & Hr).
  pose proof (commits_tracking c clock Hc st') as Htr.
  unfold commits, constant_stream in Htr.
  destruct (run st' (map (mkFrame c) clock)) as [out st''].
  cbn [fst] in *. destruct k as [|k]; cbn [lookup list_lookup].
  - cbn. rewrite decide_False by (intros [? _]; done). done.
  - cbn in Hk. rewrite Htr by (unfold REPEAT_THRESHOLD; lia). rewrite Hr.
    f_equal. apply decide_ext.
    replace (0 + Z.of_nat k + 1)%Z with (Z.of_nat (S k)) by lia.
    change 10%Z with (Z.of_nat 10). rewrite <- Nat2Z.inj_mod. lia.
Qed.

Lemma gesture_commit_timing_witness :
  commits init (constant_stream 3 ((λ i, 40 * Z.of_nat i)%Z <$> seq 0 11)) !! 10
  = Some (Some "RPEPEAT THAT").
Proof.
  apply (gesture_commit_timing 3 ((λ i, 40 * Z.of_nat i)%Z <$> seq 0 11) 10);
    [lia | cbn; lia].
Defined.

(** C1 as stated fails: on 21 frames of smoothed count 3 the 10th frame
    commits nothing, and the 11th and the 21st each commit a token. *)
Lemma gesture_tenth_frame_counterexample :
  ¬ (∀ k : nat, k < 21 →
       commits init (constant_stream 3 (Z.of_nat <$> seq 0 21)) !! k
       = Some (if decide (k = 9) then Some (sign_text 3) else None)).
Proof.
  intros H. specialize (H 9 ltac:(lia)). vm_compute in H. discriminate.
Qed.

End GestureFacts.

(** ** Speech output queue *)

Section SpeechFacts.
Import Speech.

Lemma accepted_cons (w : string) (ws : list string) :
  accepted (w :: ws)
  = (if decide (1 < String.length (PyStr.strip w)) then [PyStr.strip w] else [])
      ++ accepted ws.
Proof.
  unfold accepted. cbn [fmap list_fmap]. rewrite filter_cons.
  by case_decide.
Qed.

(** What [speak] appends. *)
Lemma speak_queue (w : string) (e : engine) :
  word_queue (speak w e)
  = word_queue e
      ++ (if decide (1 < String.length (PyStr.strip w)) then [PyStr.strip w] else [])
  ∧ calls (speak w e) = calls e
  ∧ clock (speak w e) = clock e
  ∧ is_speaking (speak w e) = is_speaking e.
Proof.
  unfold speak.
  destruct (PyStr.truthy (PyStr.strip w)) eqn:Ht; cbn [andb].
  - destruct (Nat.ltb_spec 1 (String.length (PyStr.strip w))).
    + rewrite decide_True by done. by cbn.
    + rewrite decide_False by lia. by rewrite app_nil_r.
  - destruct (PyStr.strip w); [|done]. cbn. by rewrite app_nil_r.
Qed.

(** First in, first out: what was called, followed by what still waits,
    is what was accepted, in the order of the calls to [speak]. *)
Lemma run_fifo (tr : list action) (e : engine) :
  (spoken <$> calls (run e tr)) ++ word_queue (run e tr)
  = (spoken <$> calls e) ++ word_queue e ++ accepted (said tr).
Proof.
  revert e. induction tr as [|a tr IH]; intros e.
  - cbn. by rewrite app_nil_r.
  - unfold run in *. cbn [foldl]. rewrite IH. destruct a as [w|p]; cbn [act said omap list_omap].
    + destruct (speak_queue w e) as (-> & -> & _ & _).
      fold (said tr). rewrite (accepted_cons w (said tr)).
      by rewrite <- !app_assoc.
    + fold (said tr). unfold _process_queue.
      destruct (word_queue e) as [|w q] eqn:Hq; [done|].
      destruct (is_speaking e); cbn [calls word_queue]; [done|].
      rewrite fmap_app. cbn. by rewrite <- !app_assoc.
Qed.

(** The consumer is the only writer of the flag and always clears it. *)
Lemma run_not_speaking (tr : list action) (e : engine) :
  is_speaking e = false → is_speaking (run e tr) = false.
Proof.
  revert e. induction tr as [|a tr IH]; intros e He; [done|].
  unfold run in *. cbn [foldl]. apply IH. destruct a as [w|p]; cbn [act].
  - by destruct (speak_queue w e) as (_ & _ & _ & ->).
  - unfold _process_queue. destruct (word_queue e); [done|]. by rewrite He.
Qed.

(** Enough passes empty the queue. *)
Lemma run_drains (ps : list pass) (e : engine) :
  is_speaking e = false →
  length (word_queue e) ≤ length ps →
  word_queue (run e (Pass <$> ps)) = [].
Proof.
  revert e. induction ps as [|p ps IH]; intros e He Hl.
  - cbn in *. destruct (word_queue e); [done|cbn in Hl; lia].
  - unfold run in *. cbn [fmap list_fmap foldl act]. apply IH.
    + unfold _process_queue. destruct (word_queue e); [done|]. by rewrite He.
    + unfold _process_queue. destruct (word_queue e) as [|w q]; cbn in *; [lia|].
      rewrite He. cbn. lia.
Qed.

Lemma paced_snoc (cs : list call) (c : call) :
  paced cs →
  (∀ c0, last cs = Some c0 → returned c0 = true →
         (started c0 + pacing_delay (spoken c0) <= started c)%Z) →
  paced (cs ++ [c]).
Proof.
  intros Hp Hlast i c1 c2 H1 H2 Hret.
  destruct (decide (S i < length cs)) as [Hlt|Hge].
  - rewrite lookup_app_l in H1 by lia. rewrite lookup_app_l in H2 by lia.
    by apply (Hp i).
  - assert (S i = length cs) as Hi.
    { apply lookup_lt_Some in H2. rewrite length_app in H2. cbn in H2. lia. }
    rewrite lookup_app_l in H1 by lia.
    rewrite lookup_app_r in H2 by lia.
    replace (S i - length cs) with 0 in H2 by lia. cbn in H2.
    injection H2 as <-. apply Hlast; [|done].
    rewrite last_lookup. rewrite <- Hi. cbn. done.
Qed.

Lemma rested_act (a : action) (e : engine) : rested e → rested (act e a).
Proof.
  intros [Hp Hl]. destruct a as [w|p]; cbn [act].
  - destruct (speak_queue w e) as (_ & Hc & Hk & _).
    unfold rested. by rewrite Hc, Hk.
  - unfold _process_queue.
    destruct (word_queue e) as [|w q], (is_speaking e); unfold rested; cbn [calls clock];
      try (split; [done|]; intros c Hc Hr; specialize (Hl c Hc Hr); lia).
    split.
    + apply paced_snoc; [done|]. intros c0 Hc0 Hr. cbn. by apply Hl.
    + intros c. rewrite last_snoc. intros [= <-]. cbn.
      destruct (raises p); [done|]. intros _. lia.
Qed.

Lemma rested_run (tr : list action) (e : engine) : rested e → rested (run e tr).
Proof.
  revert e. induction tr as [|a tr IH]; intros e He; [done|].
  unfold run in *. cbn [foldl]. by apply IH, rested_act.
Qed.

Lemma rested_init : rested init.
Proof. split; [intros i c1 c2 H; done | intros c H; done]. Qed.

Lemma run_app (e : engine) (tr1 tr2 : list action) :
  run e (tr1 ++ tr2) = run (run e tr1) tr2.
Proof. unfold run. apply foldl_app. Qed.

(** C8 (as amended). Of the words handed to the queue, exactly those
    whose trimmed text is longer than one character are synthesised, as
    trimmed and in the order in which they were handed over; a call
    never starts before 0.5 s plus 0.1 s per character have passed since
    the start of the previous call that returned.  For "a", "bb", "ccc"
    the calls are "bb" then "ccc": "a" is never spoken. *)
Theorem speech_order_and_pacing (tr : list action) (ps : list pass) :
  length (accepted (said tr)) ≤ length ps →
  let e := run init (tr ++ (Pass <$> ps)) in
  spoken <$> calls e = accepted (said tr) ∧ paced (calls e).
Proof.
  intros Hl e. split.
  - pose proof (run_fifo (tr ++ (Pass <$> ps)) init) as Hf. fold e in Hf.
    assert (word_queue e = []) as Hq.
    { unfold e. rewrite run_app. apply run_drains.
      - by apply run_not_speaking.
      - pose proof (run_fifo tr init) as Hf'. cbn in Hf'.
        apply (f_equal length) in Hf'. rewrite length_app in Hf'. lia. }
    rewrite Hq, app_nil_r in Hf. rewrite Hf. cbn.
    unfold said. rewrite omap_app.
    replace (omap _ (Pass <$> ps)) with (@nil string); [by rewrite app_nil_r|].
    clear. induction ps; [done|]. by cbn.
  - apply rested_run, rested_init.
Qed.

Lemma speech_order_and_pacing_witness :
  let e := run init ([Say "a"; Say "bb"; Say " ccc "] ++ (Pass <$> [quiet; quiet])) in
  spoken <$> calls e = ["bb"; "ccc"] ∧ paced (calls e).
Proof.
  apply (speech_order_and_pacing [Say "a"; Say "bb"; Say " ccc "] [quiet; quiet]).
  vm_compute. lia.
Defined.

(** C8 as stated fails: however long the consumer runs, the calls after
    handing over "a", "bb", "ccc" are never those three words. *)
Lemma speech_single_letter_counterexample :
  ¬ (∃ ps : list pass,
       spoken <$> calls (run init ([Say "a"; Say "bb"; Say "ccc"] ++ (Pass <$> ps)))
       = ["a"; "bb"; "ccc"]).
Proof.
  intros [ps H].
  pose proof (run_fifo ([Say "a"; Say "bb"; Say "ccc"] ++ (Pass <$> ps)) init) as Hf.
  rewrite H in Hf.
  assert (said ([Say "a"; Say "bb"; Say "ccc"] ++ (Pass <$> ps))
          = ["a"; "bb"; "ccc"]) as Hsaid.
  { unfold said. rewrite omap_app.
    replace (omap _ (Pass <$> ps)) with (@nil string); [done|].
    clear. induction ps; [done|]. by cbn. }
  rewrite Hsaid in Hf.
  assert (accepted ["a"; "bb"; "ccc"] = ["bb"; "ccc"]) as Hacc
    by (vm_compute; reflexivity).
  rewrite Hacc in Hf. apply (f_equal length) in Hf.
  rewrite length_app in Hf. cbn in Hf. lia.
Qed.

End SpeechFacts.

(** ** Visualisation chunker and cache *)

Section VisualFacts.
Import Visual.
Context {pixmap : Type}.
Implicit Types (d jobs : list (Z * pixmap)) (k : Z) (p : pixmap).

Lemma dict_get_None d k : dict_get d k = None ↔ k ∉ d.*1.
Proof.
  induction d as [|[k0 v0] d IH]; cbn.
  - split; [intros _; apply not_elem_of_nil | done].
  - rewrite not_elem_of_cons. case_decide as Hk.
    + split; [done | intros [Hne _]; by destruct Hne].
    + rewrite IH. split; [by intros ? | by intros [_ ?]].
Qed.

Lemma dict_set_fresh d k p :
  dict_get d k = None → dict_set d k p = d ++ [(k, p)].
Proof.
  induction d as [|[k0 v0] d IH]; cbn; [done|].
  case_decide; [done|]. intros Hget. by rewrite IH.
Qed.

Lemma dict_set_length d k p :
  length (dict_set d k p)
  = match dict_get d k with Some _ => length d | None => S (length d) end.
Proof.
  induction d as [|[k0 v0] d IH]; cbn; [done|].
  case_decide; cbn; [done|]. rewrite IH. by destruct (dict_get d k).
Qed.

(** The size limit is an invariant of the store operation. *)
Lemma cache_store_bound d k p :
  length d ≤ 10 → length (cache_store d k p) ≤ 10.
Proof.
  intros Hd. unfold cache_store, pop_first. case_bool_decide as Hlen.
  - rewrite length_tl. rewrite dict_set_length in *.
    destruct (dict_get d k); lia.
  - lia.
Qed.

(** A full cache and a new key: the oldest entry leaves, and only it. *)
Lemma cache_store_full d k p :
  length d = 10 → dict_get d k = None →
  cache_store d k p = tail d ++ [(k, p)].
Proof.
  intros Hd Hk. unfold cache_store, pop_first.
  rewrite dict_set_fresh by done.
  rewrite bool_decide_true by (rewrite length_app; cbn; lia).
  destruct d; [done|]. done.
Qed.

Lemma generate_all_snoc (st : state pixmap) jobs k p :
  generate_all st (jobs ++ [(k, p)])
  = fst (_generate_visual_async (generate_all st jobs) k (Rendered p)).
Proof. unfold generate_all. by rewrite foldl_app. Qed.

Lemma generate_all_bound (st : state pixmap) jobs :
  length (visual_cache st) ≤ 10 →
  length (visual_cache (generate_all st jobs)) ≤ 10.
Proof.
  induction jobs as [|[k p] jobs IH] using rev_ind; [done|].
  intros H. rewrite generate_all_snoc. cbn. by apply cache_store_bound, IH.
Qed.

(** With distinct keys the cache holds the last ten jobs, oldest first. *)
Lemma generate_all_distinct jobs :
  NoDup jobs.*1 →
  visual_cache (generate_all init jobs) = drop (length jobs - 10) jobs.
Proof.
  induction jobs as [|[k p] jobs IH] using rev_ind; [done|].
  rewrite fmap_app, NoDup_app. intros (Hnd & Hdisj & _).
  rewrite generate_all_snoc. cbn [_generate_visual_async fst visual_cache].
  rewrite IH by done. clear IH.
  assert (dict_get (drop (length jobs - 10) jobs) k = None) as Hfresh.
  { apply dict_get_None. intros Hin. apply (Hdisj k); [|cbn; left].
    rewrite <- (take_drop (length jobs - 10) jobs), fmap_app.
    apply elem_of_app. by right. }
  unfold cache_store, pop_first. rewrite dict_set_fresh by done.
  rewrite !length_app, length_drop. cbn [length].
  case_bool_decide as Hlen.
  - assert (10 ≤ length jobs) as Hge by lia.
    replace (length jobs + 1 - 10) with (S (length jobs - 10)) by lia.
    rewrite drop_app_le by lia.
    destruct (drop (length jobs - 10) jobs) as [|x rest] eqn:Hd.
    { apply (f_equal length) in Hd. rewrite length_drop in Hd. cbn in Hd. lia. }
    cbn [tail app]. f_equal.
    rewrite <- (Nat.add_1_r (length jobs - 10)), <- drop_drop, Hd. done.
  - replace (length jobs + 1 - 10) with 0 by lia.
    replace (length jobs - 10) with 0 by lia. by rewrite !drop_0.
Qed.

(** C7. After 11 successful generations for distinct keys the cache holds
    exactly 10 entries and the first key is absent; whatever the jobs,
    the cache never holds more than 10 entries after an insertion; and an
    insertion of a new key into a full cache evicts the oldest entry and
    nothing else. *)
Theorem cache_bound (jobs : list (Z * pixmap)) :
  length jobs = 11 →
  NoDup jobs.*1 →
  let d := visual_cache (generate_all init jobs) in
  length d = 10
  ∧ (∀ k p, jobs !! 0 = Some (k, p) → dict_get d k = None)
  ∧ d = drop 1 jobs
  ∧ (∀ any : list (Z * pixmap),
       length (visual_cache (generate_all init any)) ≤ 10)
  ∧ (∀ d0 k p, length d0 = 10 → dict_get d0 k = None →
       cache_store d0 k p = tail d0 ++ [(k, p)]).
Proof.
  intros Hlen Hnd d.
  assert (d = drop 1 jobs) as Hd.
  { unfold d. rewrite generate_all_distinct by done. by rewrite Hlen. }
  split_and!.
  - rewrite Hd, length_drop. lia.
  - intros k p Hk. apply dict_get_None. rewrite Hd.
    destruct jobs as [|[k0 p0] jobs]; [done|]. cbn in Hk. injection Hk as -> ->.
    cbn in Hnd. apply NoDup_cons in Hnd as [Hnot _]. cbn. by rewrite ?drop_0.
  - done.
  - intros any. apply generate_all_bound. cbn. lia.
  - intros. by apply cache_store_full.
Qed.

End VisualFacts.

Lemma cache_bound_witness :
  let jobs := (λ i : nat, (Z.of_nat i, i)) <$> seq 0 11 in
  let d := Visual.visual_cache (Visual.generate_all Visual.init jobs) in
  length d = 10 ∧ Visual.dict_get d 0%Z = None.
Proof.
  intros jobs d.
  destruct (cache_bound jobs) as (H1 & H2 & _).
  - reflexivity.
  - apply (bool_decide_unpack _). vm_compute. exact I.
  - split; [exact H1 | exact (H2 0%Z 0 eq_refl)].
Defined.

Section VisualBuffering.
Import Visual.
Context {pixmap : Type} (hash : string → Z).

(** C2 (as amended). A call of the transcript-consumption operation with
    at least one word extends the word buffer by the words of the text
    and adds their number to the total exactly when the 10 s cooldown has
    elapsed and no generation is in flight: the buffer is then the old
    buffer followed by the words when these are fewer than 20 together,
    and otherwise what is left of them after the first 20, which leave at
    once as a chunk.  When the cooldown has not elapsed or a generation is
    in flight the call changes nothing: the words are not buffered and not
    counted. *)
Theorem visual_buffering_gated (st : state pixmap) (transcript : string) (now : Z) :
  PyStr.split transcript ≠ [] →
  let words := PyStr.split transcript in
  let st' := fst (process_for_visualization hash st transcript now) in
  ((visualization_cooldown <= now - last_visualization_time st)%Z
   ∧ is_generating_visual st = false →
     total_words_processed st' = total_words_processed st + length words
     ∧ (length (word_buffer st ++ words) < 20 →
        word_buffer st' = word_buffer st ++ words)
     ∧ (20 ≤ length (word_buffer st ++ words) →
        word_buffer st' = drop 20 (word_buffer st ++ words)))
  ∧ ((now - last_visualization_time st < visualization_cooldown)%Z
     ∨ is_generating_visual st = true → st' = st).
Proof.
  intros Hne words st'. subst st'. unfold process_for_visualization.
  fold words in Hne |- *. clearbody words. split.
  - intros [Hcool Hgen]. rewrite Hgen, orb_false_r.
    rewrite bool_decide_false by lia.
    rewrite bool_decide_false by (destruct words; [done | cbn; lia]).
    unfold word_count_threshold.
    destruct (decide (20 ≤ length (word_buffer st ++ words))) as [Hlen|Hlen].
    + rewrite (bool_decide_true (20 ≤ _)) by done.
      rewrite bool_decide_true.
      2:{ change (Z.of_nat 20) with 20%Z.
          assert (20 <= Z.of_nat (length (word_buffer st ++ words)))%Z by lia.
          Z.to_euclidean_division_equations; lia. }
      cbn. split_and!; [done | lia | done].
    + rewrite (bool_decide_false (20 ≤ _)) by done.
      cbn. split_and!; [done | done | lia].
  - intros [Hcool|Hgen].
    + by rewrite bool_decide_true by lia.
    + by rewrite Hgen, orb_true_r.
Qed.

End VisualBuffering.

Lemma visual_buffering_gated_witness :
  let st := fst (Visual.process_for_visualization (pixmap:=unit) (λ _, 0%Z)
                   Visual.init "hello world" 20000) in
  Visual.total_words_processed st = 2 ∧ Visual.word_buffer st = ["hello"; "world"].
Proof.
  intros st.
  destruct (visual_buffering_gated (pixmap:=unit) (λ _, 0%Z) Visual.init
              "hello world" 20000) as [Hopen _].
  - vm_compute. discriminate.
  - assert ((Visual.visualization_cooldown
              <= 20000 - Visual.last_visualization_time (Visual.init (pixmap:=unit)))%Z
            ∧ Visual.is_generating_visual (Visual.init (pixmap:=unit)) = false) as Hfree
      by (split; [vm_compute; discriminate | reflexivity]).
    destruct (Hopen Hfree) as (Htot & Hbuf & _).
    split; [exact Htot|]. apply Hbuf. vm_compute. lia.
Defined.

(** C2 as stated fails: a 20-word transcript starts a generation; one
    second later, with the generation in flight and inside the cooldown,
    the words of the next text are neither buffered nor counted. *)
Lemma visual_buffering_counterexample :
  let hash := λ _ : string, 0%Z in
  let st1 := fst (Visual.process_for_visualization (pixmap:=unit) hash Visual.init
    "one two three four five six seven eight nine ten eleven twelve thirteen fourteen fifteen sixteen seventeen eighteen nineteen twenty twentyone"
    20000) in
  let st2 := fst (Visual.process_for_visualization hash st1 "hello world" 21000) in
  Visual.word_buffer st1 = ["twentyone"]
  ∧ Visual.total_words_processed st1 = 21
  ∧ ¬ (Visual.word_buffer st2 = Visual.word_buffer st1 ++ ["hello"; "world"])
  ∧ ¬ (Visual.total_words_processed st2 = Visual.total_words_processed st1 + 2).
Proof.
  vm_compute. split_and!; [done | done | discriminate | discriminate].
Qed.

(** ** Pollers: transcript events *)

Section FeedTranscripts.
Import Feed.

Lemma transcripts_app (a b : list event) :
  transcripts (a ++ b) = transcripts a ++ transcripts b.
Proof. apply omap_app. Qed.

Lemma chats_app (a b : list event) : chats (a ++ b) = chats a ++ chats b.
Proof. apply omap_app. Qed.




Lemma teacher_chat_loop_events last log :
  transcripts (Teacher.chat_loop last log).1.2 = [].
Proof.
  revert last. induction log as [|[m|] log IH]; intros last; cbn; [done| |done].
  repeat case_decide; try apply IH.
  specialize (IH (message m)).
  destruct (Teacher.chat_loop (message m) log) as [[l e] ok]. by cbn in *.
Qed.







End FeedTranscripts.

(** ** Pollers: chat events *)

Section FeedChats.
Import Feed.

Lemma chats_no_transcript (b : bool) (t : string) :
  chats (if b then [Transcript t] else []) = [].
Proof. by destruct b. Qed.




Lemma chats_connection (b : bool) (l : list event) :
  chats (Connection b :: l) = chats l.
Proof. done. Qed.

Lemma chats_verified (b : bool) (l : list event) :
  chats (Verified b :: l) = chats l.
Proof. done. Qed.












End FeedChats.

(** ** Joining from the deaf student's page *)

Section JoinFacts.
Import Feed Join.

Lemma update_data_other (name : string) (now : Z) (k : string) :
  k ≠ "deaf_student_name" → k ≠ "last_updated" →
  update_data name now !! k = None.
Proof.
  intros H1 H2. unfold update_data.
  rewrite lookup_insert_ne by done. by rewrite lookup_singleton_ne.
Qed.

Lemma patch_fields_other (name : string) (now : Z) (d : session) (k : string) :
  k ≠ "deaf_student_name" → k ≠ "last_updated" →
  patch_fields (update_data name now) d !! k = d !! k.
Proof.
  intros H1 H2. unfold patch_fields.
  apply lookup_union_r. by apply update_data_other.
Qed.

(** The teacher's listener reads three fields of a record and no other. *)
Lemma teacher_poll_reads (st : Teacher.state) (d d' : session) :
  d' !! "student_name" = d !! "student_name" →
  d' !! "student_transcript" = d !! "student_transcript" →
  d' !! "chat_messages" = d !! "chat_messages" →
  Teacher.poll st (Teacher.Record_ d') = Teacher.poll st (Teacher.Record_ d).
Proof.
  intros Hn Ht Hc. unfold Teacher.poll, get_str, get_chat.
  by rewrite Hn, Ht, Hc.
Qed.

Lemma patch_untouched (id name : string) (now : Z) (db : store) :
  Forall2 untouched db (patch id (update_data name now) db).
Proof.
  unfold patch. induction db as [|[i d] db IH]; [constructor|].
  cbn [fmap list_fmap]. constructor; [|apply IH].
  case_decide; split; cbn; try done.
  intros k H1 H2. by apply patch_fields_other.
Qed.

Lemma untouched_refl (db : store) : Forall2 untouched db db.
Proof. induction db; constructor; [by split | done]. Qed.

Lemma join_untouched (name code : string) (now : Z) (net : network) (db : store) :
  Forall2 untouched db (_check_session_async name code now net db).1.
Proof.
  unfold _check_session_async.
  destruct (test_response net) as [test_status|e]; [|apply untouched_refl].
  destruct (test_status =? 200)%N; cbn [negb]; [|apply untouched_refl].
  destruct (response net) as [status|e]; [|apply untouched_refl].
  destruct (status =? 200)%N; [|apply untouched_refl].
  destruct (find_session code db) as [[id d]|]; [|apply untouched_refl].
  destruct (patch_response net) as [patch_status|e].
  - destruct (patch_status =? 200)%N; cbn [fst];
      [apply patch_untouched | apply untouched_refl].
  - destruct (patch_written net); cbn [fst];
      [apply patch_untouched | apply untouched_refl].
Qed.

(** C10. Whatever the network does, the join changes at most the fields
    deaf_student_name and last_updated of the records of the store: every
    other field, student_name and student_transcript among them, keeps its
    value, so the teacher's listener behaves on the record after the join
    as on the record before it and reports no new student name. *)
Theorem join_preserves_student_fields (name code : string) (now : Z)
    (net : network) (db : store) :
  Forall2
    (λ old new : string * session,
       new.1 = old.1
       ∧ (∀ k : string, k ≠ "deaf_student_name" → k ≠ "last_updated" →
            new.2 !! k = old.2 !! k)
       ∧ new.2 !! "student_name" = old.2 !! "student_name"
       ∧ new.2 !! "student_transcript" = old.2 !! "student_transcript"
       ∧ (∀ st : Teacher.state,
            Teacher.poll st (Teacher.Record_ new.2)
            = Teacher.poll st (Teacher.Record_ old.2)))
    db (_check_session_async name code now net db).1.
Proof.
  eapply Forall2_impl; [apply join_untouched|].
  intros old new [Hid Hk]. split_and!; [done | done | by apply Hk.. |].
  intros st. apply teacher_poll_reads; by apply Hk.
Qed.

End JoinFacts.

(** ** Python strings: white space and words *)

Section PyStrFacts.
Import PyStr.

Lemma has_ink_app (a b : string) : has_ink (a +:+ b) = has_ink a || has_ink b.
Proof.
  induction a as [|c a IH]; [done|].
  change (String c a +:+ b) with (String c (a +:+ b)).
  cbn [has_ink]. by rewrite IH, orb_assoc.
Qed.

Lemma has_ink_truthy (s : string) : has_ink s = true → truthy s = true.
Proof. by destruct s. Qed.

Lemma lstrip_ink (s : string) : has_ink (lstrip s) = has_ink s.
Proof.
  induction s as [|a s IH]; [done|]. cbn.
  destruct (is_space a) eqn:Ha; cbn; [done | by rewrite Ha].
Qed.

Lemma rstrip_ink (s : string) :
  has_ink (rstrip s) = has_ink s ∧ (has_ink s = false → rstrip s = "").
Proof.
  induction s as [|a s [IH1 IH2]]; [done|]. cbn [rstrip has_ink].
  destruct (rstrip s) as [|b r] eqn:Hr.
  - cbn in IH1. rewrite <- IH1.
    destruct (is_space a) eqn:Ha; cbn; rewrite ?Ha; by cbn.
  - rewrite <- IH1. cbn [has_ink]. split; [done|].
    intros H. apply orb_false_elim in H as [_ H].
    rewrite <- IH1 in IH2. by specialize (IH2 H).
Qed.

Lemma strip_ink (s : string) : strip s ≠ "" → has_ink (strip s) = true.
Proof.
  unfold strip. intros Hne.
  destruct (rstrip_ink (lstrip s)) as [H1 H2]. rewrite H1.
  destruct (has_ink (lstrip s)); [done|]. by specialize (H2 eq_refl).
Qed.

Lemma strip_keeps_ink (s : string) : has_ink (strip s) = has_ink s.
Proof.
  unfold strip. destruct (rstrip_ink (lstrip s)) as [-> _]. apply lstrip_ink.
Qed.

(** The words of a string are not empty and hold no white space; there is
    one as soon as the string has a character that is not white space. *)
Lemma split_words_ink (s : string) : Forall (λ w, has_ink w = true) (split s).
Proof.
  induction s as [|a s IH]; [constructor|]. cbn.
  destruct (is_space a) eqn:Ha; [done|].
  destruct s as [|b s']; [constructor; [by cbn; rewrite Ha|constructor]|].
  destruct (is_space b) eqn:Hb.
  - constructor; [by cbn; rewrite Ha | done].
  - destruct (split (String b s')) as [|w ws].
    + constructor; [by cbn; rewrite Ha | constructor].
    + inversion IH; subst. constructor; [by cbn; rewrite Ha | done].
Qed.

Lemma split_nonempty (s : string) : has_ink s = true → split s ≠ [].
Proof.
  induction s as [|a s IH]; [done|]. cbn.
  destruct (is_space a) eqn:Ha; cbn; [done|]. intros _.
  destruct s as [|b s']; [done|].
  destruct (is_space b); [done|]. by destruct (split (String b s')).
Qed.

Lemma lower_char_space (a : ascii) : is_space (lower_char a) = is_space a.
Proof. by destruct a as [[] [] [] [] [] [] [] []]. Qed.

Lemma lower_ink (s : string) : has_ink (lower s) = has_ink s.
Proof.
  induction s as [|a s IH]; [done|]. cbn. by rewrite lower_char_space, IH.
Qed.

(** Replacing by a text that is not blank keeps a string from being
    blank. *)
Lemma replace_ink_new (old new s : string) :
  has_ink new = true → has_ink s = true →
  has_ink (replace old new s) = true.
Proof.
  intros Hnew. unfold replace. induction s as [|a s IH]; intros Hs; [done|].
  cbn [replace_go]. destruct (String.prefix old (String a s)).
  - by rewrite has_ink_app, Hnew.
  - cbn in *. destruct (is_space a); cbn in *; [|done]. by apply IH.
Qed.

Lemma blank_prefix_of_prefix (old s : string) :
  has_ink old = false → String.prefix old s = true →
  blank_prefix (String.length old) s = true.
Proof.
  revert s. induction old as [|c old IH]; intros s Hold Hp; [done|].
  destruct s as [|a s]; [done|]. cbn in *.
  destruct (Ascii.ascii_dec c a) as [->|]; [|done].
  apply orb_false_elim in Hold as [Hc Ho]. apply negb_false_iff in Hc.
  rewrite Hc. cbn. by apply IH.
Qed.

(** Replacing a blank text removes white space only. *)
Lemma replace_go_ink_blank (old new : string) (s : string) (skip : nat) :
  old ≠ "" → has_ink old = false →
  blank_prefix skip s = true →
  has_ink s = true →
  has_ink (replace_go old new skip s) = true.
Proof.
  intros Hne Hold. revert skip. induction s as [|a s IH]; intros skip Hb Hs; [done|].
  cbn [replace_go]. destruct skip as [|k].
  - destruct (String.prefix old (String a s)) eqn:Hp.
    + rewrite has_ink_app. apply orb_true_intro. right.
      pose proof (blank_prefix_of_prefix _ _ Hold Hp) as Hbl.
      destruct old as [|c old]; [done|]. cbn [String.length] in *.
      cbn in Hbl. apply andb_prop in Hbl as [Ha Hbl].
      cbn in Hs. rewrite Ha in Hs. cbn in Hs.
      replace (S (String.length old) - 1) with (String.length old) by lia.
      by apply IH.
    + cbn in *. destruct (is_space a); cbn in *; [|done]. by apply IH.
  - cbn in Hb. apply andb_prop in Hb as [Ha Hb].
    cbn in Hs. rewrite Ha in Hs. by apply IH.
Qed.

Lemma join_head_ink (sep w : string) (ws : list string) :
  has_ink w = true → has_ink (join sep (w :: ws)) = true.
Proof.
  intros Hw. unfold join. destruct ws; cbn; [done|].
  by rewrite has_ink_app, Hw.
Qed.

End PyStrFacts.

(** ** Streaming transcriber *)

Section TranscriberFacts.
Import PyStr Transcriber.

Lemma replace_ink_blank (old new s : string) :
  old ≠ "" → has_ink old = false → has_ink s = true →
  has_ink (replace old new s) = true.
Proof. intros. by apply replace_go_ink_blank. Qed.

(** Cleaning never blanks a text. *)
Lemma clean_ink (text : string) :
  has_ink text = true → has_ink (_clean_transcription text) = true.
Proof.
  intros Hink. unfold _clean_transcription.
  rewrite (has_ink_truthy _ Hink). cbn [negb].
  rewrite strip_keeps_ink.
  apply replace_ink_blank; [done | done |].
  apply replace_ink_new; [done|]. apply replace_ink_new; [done|].
  match goal with |- context [if ?b then _ else _] => destruct b eqn:Hb end; [|done].
  pose proof (split_words_ink text) as Hw.
  destruct (split text) as [|w ws]; [by cbn in Hb|].
  inversion Hw; subst. cbn [first_occurrences].
  rewrite decide_False by set_solver. cbn [take]. by apply join_head_ink.
Qed.

Lemma word_set_nonempty (text : string) : has_ink text = true → word_set text ≠ ∅.
Proof.
  intros Hink. unfold word_set.
  pose proof (split_nonempty (lower text)) as Hs. rewrite lower_ink in Hs.
  specialize (Hs Hink). destruct (split (lower text)) as [|w ws]; [done|].
  cbn. set_solver.
Qed.

Lemma word_set_empty_string : word_set "" = ∅.
Proof. done. Qed.

(** The test of [_is_too_similar] is the test on the two sizes as soon as
    the new text has a word. *)
Lemma is_too_similar_sizes (text prev : string) :
  has_ink text = true →
  _is_too_similar text prev = true
  ↔ 7 * size (word_set text ∪ word_set prev)
    < 10 * size (word_set text ∩ word_set prev).
Proof.
  intros Hink. unfold _is_too_similar.
  rewrite (has_ink_truthy _ Hink). cbn [negb orb].
  pose proof (word_set_nonempty _ Hink) as Hne.
  assert (word_set prev = ∅ → ¬ 7 * size (word_set text ∪ word_set prev)
                                < 10 * size (word_set text ∩ word_set prev)) as Hempty.
  { intros ->. rewrite intersection_empty_r_L, size_empty. lia. }
  destruct (truthy prev) eqn:Hp; cbn [negb].
  - rewrite (bool_decide_false (word_set text = ∅)) by done. cbn [orb].
    case_bool_decide as Hprev; [split; [done | intros H; by apply Hempty in H]|].
    rewrite bool_decide_false.
    + by rewrite bool_decide_eq_true.
    + intros Hu. apply size_empty_iff in Hu. apply Hne. set_solver.
  - destruct prev; [|done]. rewrite word_set_empty_string in *.
    split; [done | intros H; by apply Hempty in H].
Qed.

Lemma is_too_similar_self (text : string) :
  has_ink text = true → _is_too_similar text text = true.
Proof.
  intros Hink. apply is_too_similar_sizes; [done|].
  rewrite union_idemp_L, intersection_idemp_L.
  pose proof (word_set_nonempty _ Hink) as Hne.
  assert (size (word_set text) ≠ 0) as Hsz.
  { intros Hz. apply size_empty_iff in Hz. apply Hne. set_solver. }
  lia.
Qed.

Lemma is_too_similar_first (text : string) : _is_too_similar text "" = false.
Proof. unfold _is_too_similar. by destruct (truthy text). Qed.

(** What [_process_buffer] does once the engine has answered with a text
    that is not blank. *)
Lemma process_buffer_answer (st : state) (raw : string) (now : Z) :
  ready st → strip raw ≠ "" →
  _process_buffer st (Result raw) now
  = let text := _clean_transcription (strip raw) in
    if _is_too_similar text (last_transcription st) then (st, None)
    else (accept st text now, Some text).
Proof.
  intros [Hm Ha] Hraw. unfold _process_buffer, accept. rewrite Hm. cbn [negb orb].
  rewrite bool_decide_false.
  2:{ intros Hb. rewrite Hb in Ha. cbn in Ha. unfold sample_rate in Ha. lia. }
  rewrite bool_decide_false by lia.
  by rewrite (has_ink_truthy _ (strip_ink _ Hraw)).
Qed.

(** C3 (as amended). Once the engine has answered with a text that is not
    blank, the cleaned text is suppressed exactly when the Jaccard
    similarity of its lower-cased word set with the word set of the last
    accepted transcription exceeds 0.7 (7 * |union| < 10 * |intersection|),
    and is emitted otherwise; the same text fed a second time is always
    suppressed.  For "the cat sat on the mat" then "the cat sat on the rug"
    the similarity is 4/6 (4 shared words of 6), not 0.5, and both are
    emitted. *)
Theorem similarity_suppression (st : state) (raw : string) (now : Z) :
  ready st → strip raw ≠ "" →
  let text := _clean_transcription (strip raw) in
  let prev := last_transcription st in
  let out := _process_buffer st (Result raw) now in
  (out.2 = None
   ↔ 7 * size (word_set text ∪ word_set prev)
     < 10 * size (word_set text ∩ word_set prev))
  ∧ (out.2 ≠ None → out.2 = Some text)
  ∧ (∀ (st2 : state) (now2 : Z),
       last_transcription st2 = last_transcription out.1 →
       (_process_buffer st2 (Result raw) now2).2 = None).
Proof.
  intros Hready Hraw text prev out.
  pose proof (clean_ink _ (strip_ink _ Hraw)) as Hink. fold text in Hink.
  pose proof (is_too_similar_sizes text prev Hink) as Hsim.
  pose proof (process_buffer_answer st raw now Hready Hraw) as Hout.
  fold out in Hout. cbv zeta in Hout. fold text prev in Hout.
  split_and!.
  - rewrite <- Hsim, Hout. by destruct (_is_too_similar text prev).
  - rewrite Hout. by destruct (_is_too_similar text prev).
  - intros st2 now2 Hlast. unfold _process_buffer.
    destruct (negb (model_loaded st2) || bool_decide (audio_buffer st2 = [])); [done|].
    case_bool_decide; [done|].
    rewrite (has_ink_truthy _ (strip_ink _ Hraw)). fold text.
    assert (_is_too_similar text (last_transcription st2) = true) as ->; [|done].
    rewrite Hlast, Hout.
    destruct (_is_too_similar text prev) eqn:Hs; cbn; [done|].
    by apply is_too_similar_self.
Qed.

(** C3 as stated fails in its example: for "the cat sat on the mat" and
    "the cat sat on the rug" the two word sets share 4 words of 6, so the
    similarity is 4/6 and not 0.5. *)
Lemma similarity_half_counterexample :
  let a := word_set "the cat sat on the mat" in
  let b := word_set "the cat sat on the rug" in
  size (a ∩ b) = 4 ∧ size (a ∪ b) = 6 ∧ 2 * size (a ∩ b) ≠ size (a ∪ b).
Proof. vm_compute. split_and!; [reflexivity | reflexivity | discriminate]. Qed.

(** C4 (as amended). When a new transcription is discarded as a near
    repeat, nothing is emitted and the processor is left as it was: the
    audio buffer is not trimmed and the time of the last dispatch is not
    stamped.  The buffer is trimmed to its continuity tail, and the time
    stamped, on acceptance only. *)
Theorem suppressed_leaves_buffer (st : state) (raw : string) (now : Z) :
  ready st → strip raw ≠ "" →
  let text := _clean_transcription (strip raw) in
  let out := _process_buffer st (Result raw) now in
  (_is_too_similar text (last_transcription st) = true → out = (st, None))
  ∧ (_is_too_similar text (last_transcription st) = false →
       out.2 = Some text
       ∧ audio_buffer out.1 = continuity_tail (concat (audio_buffer st))
       ∧ last_processing_time out.1 = now
       ∧ last_transcription out.1 = text).
Proof.
  intros Hready Hraw text out. subst out.
  rewrite (process_buffer_answer st raw now Hready Hraw). cbv zeta. fold text.
  split; intros ->; [done|]. by cbn.
Qed.

(** C9. With no transcription accepted yet the similarity check answers
    false for every text, so the first transcription that is not blank is
    emitted, cleaned and not empty; a transcription can only be suppressed
    when an earlier one was accepted. *)
Theorem first_transcription_emitted (st : state) (raw : string) (now : Z) :
  ready st → strip raw ≠ "" →
  (∀ text : string, _is_too_similar text "" = false)
  ∧ (last_transcription st = "" →
       (_process_buffer st (Result raw) now).2
       = Some (_clean_transcription (strip raw))
       ∧ _clean_transcription (strip raw) ≠ "")
  ∧ ((_process_buffer st (Result raw) now).2 = None →
       last_transcription st ≠ "").
Proof.
  intros Hready Hraw.
  rewrite (process_buffer_answer st raw now Hready Hraw). cbv zeta.
  split_and!.
  - apply is_too_similar_first.
  - intros ->. rewrite is_too_similar_first. split; [done|].
    pose proof (clean_ink _ (strip_ink _ Hraw)) as Hink.
    by destruct (_clean_transcription (strip raw)).
  - intros Hnone Hlast. rewrite Hlast, is_too_similar_first in Hnone. done.
Qed.

End TranscriberFacts.

(** A processor with a loaded model, 1.25 s of audio in two chunks and
    "the cat sat on the mat" as its last accepted transcription. *)
Lemma listening_ready :
  Transcriber.ready
    {| Transcriber.model_loaded := true; Transcriber.is_loading := false;
       Transcriber.audio_buffer := [replicate (Z.to_nat 12000) 0%Z; replicate (Z.to_nat 8000) 0%Z];
       Transcriber.last_processing_time := 0;
       Transcriber.last_transcription := "the cat sat on the mat" |}.
Proof. split; [reflexivity | vm_compute; discriminate]. Qed.

Lemma similarity_suppression_witness :
  let st := {| Transcriber.model_loaded := true; Transcriber.is_loading := false;
               Transcriber.audio_buffer := [replicate (Z.to_nat 12000) 0%Z; replicate (Z.to_nat 8000) 0%Z];
               Transcriber.last_processing_time := 0;
               Transcriber.last_transcription := "the cat sat on the mat" |} in
  (Transcriber._process_buffer st (Transcriber.Result "the cat sat on the rug") 5000).2
  = Some "the cat sat on the rug"
  ∧ (Transcriber._process_buffer st (Transcriber.Result "the cat sat on the mat now") 5000).2
    = None.
Proof.
  intros st. split.
  - destruct (similarity_suppression st "the cat sat on the rug" 5000)
      as (Hiff & Hsome & _); [exact listening_ready | vm_compute; discriminate |].
    rewrite Hsome; [reflexivity|].
    intros Hnone. apply Hiff in Hnone. vm_compute in Hnone. lia.
  - destruct (similarity_suppression st "the cat sat on the mat now" 5000)
      as (Hiff & _ & _); [exact listening_ready | vm_compute; discriminate |].
    apply Hiff. vm_compute. lia.
Defined.

Lemma suppressed_leaves_buffer_witness :
  let st := {| Transcriber.model_loaded := true; Transcriber.is_loading := false;
               Transcriber.audio_buffer := [replicate (Z.to_nat 12000) 0%Z; replicate (Z.to_nat 8000) 0%Z];
               Transcriber.last_processing_time := 0;
               Transcriber.last_transcription := "the cat sat on the mat" |} in
  Transcriber._process_buffer st (Transcriber.Result "the cat sat on the mat now") 5000
  = (st, None).
Proof.
  intros st.
  destruct (suppressed_leaves_buffer st "the cat sat on the mat now" 5000)
    as [Hsup _]; [exact listening_ready | vm_compute; discriminate |].
  apply Hsup. vm_compute. reflexivity.
Defined.

(** C4 as stated fails: a near repeat leaves the two buffered chunks and
    the time of the last dispatch as they were; the continuity tail would
    be one chunk of 16000 samples. *)
Lemma suppressed_trim_counterexample :
  let st := {| Transcriber.model_loaded := true; Transcriber.is_loading := false;
               Transcriber.audio_buffer := [replicate (Z.to_nat 12000) 0%Z; replicate (Z.to_nat 8000) 0%Z];
               Transcriber.last_processing_time := 0;
               Transcriber.last_transcription := "the cat sat on the mat" |} in
  let out := Transcriber._process_buffer st
               (Transcriber.Result "the cat sat on the mat now") 5000 in
  out.2 = None
  ∧ length (Transcriber.audio_buffer out.1) = 2
  ∧ length (Transcriber.continuity_tail (concat (Transcriber.audio_buffer st))) = 1
  ∧ Transcriber.audio_buffer out.1
    ≠ Transcriber.continuity_tail (concat (Transcriber.audio_buffer st))
  ∧ Transcriber.last_processing_time out.1 = 0%Z.
Proof.
  intros st out.
  assert (out = (st, None)) as -> by (vm_compute; reflexivity).
  split_and!; [done | done | vm_compute; reflexivity | | done].
  intros H. apply (f_equal length) in H. vm_compute in H. discriminate.
Qed.

Lemma first_transcription_emitted_witness :
  let st := {| Transcriber.model_loaded := true; Transcriber.is_loading := false;
               Transcriber.audio_buffer := [replicate (Z.to_nat 12800) 0%Z];
               Transcriber.last_processing_time := 0;
               Transcriber.last_transcription := "" |} in
  Transcriber._is_too_similar "good morning class" "" = false
  ∧ (Transcriber._process_buffer st (Transcriber.Result " Good morning class. ") 5000).2
    = Some "Good morning class.".
Proof.
  intros st.
  destruct (first_transcription_emitted st " Good morning class. " 5000)
    as (Hfirst & Hemit & _).
  - split; [reflexivity | vm_compute; discriminate].
  - vm_compute. discriminate.
  - split; [apply Hfirst|]. destruct (Hemit eq_refl) as [-> _]. vm_compute. reflexivity.
Defined.

(** ** More on Python strings *)

Section PyTextFacts.
Import PyStr PyText.

Lemma append_assoc (a b c : string) : (a +:+ b) +:+ c = a +:+ (b +:+ c).
Proof.
  induction a as [|x a IH]; [done|].
  change (String x a +:+ b) with (String x (a +:+ b)).
  change (String x (a +:+ b) +:+ c) with (String x ((a +:+ b) +:+ c)).
  change (String x a +:+ (b +:+ c)) with (String x (a +:+ (b +:+ c))).
  by rewrite IH.
Qed.

Lemma append_nil_r (a : string) : a +:+ "" = a.
Proof.
  induction a as [|x a IH]; [done|].
  change (String x a +:+ "") with (String x (a +:+ "")). by rewrite IH.
Qed.

Lemma append_cons (x : ascii) (a b : string) :
  String x a +:+ b = String x (a +:+ b).
Proof. done. Qed.

Lemma split_cons_space (a : ascii) (s : string) :
  is_space a = true → split (String a s) = split s.
Proof. intros Ha. cbn. by rewrite Ha. Qed.

Lemma split_cons_ink_nonempty (a : ascii) (s : string) :
  is_space a = false → split (String a s) ≠ [].
Proof.
  intros Ha. cbn. rewrite Ha. destruct s as [|b s]; [done|].
  destruct (is_space b); [done|]. by destruct (split (String b s)).
Qed.

(** The words of two texts set side by side, with white space between
    them, are the words of the first followed by those of the second. *)
Lemma split_app_space (a b : string) (sp : ascii) :
  is_space sp = true →
  split (a +:+ String sp b) = split a ++ split b.
Proof.
  intros Hsp. induction a as [|c a IH].
  - change ("" +:+ String sp b) with (String sp b). by rewrite split_cons_space.
  - rewrite append_cons.
    destruct (is_space c) eqn:Hc; [by rewrite !split_cons_space|].
    destruct a as [|d a'].
    + change ("" +:+ String sp b) with (String sp b) in *.
      cbn [split]. rewrite Hc, Hsp. cbn [split] in IH. rewrite Hsp in IH.
      cbn. by f_equal.
    + rewrite append_cons in *.
      cbn [split] in *. rewrite Hc. destruct (is_space d) eqn:Hd.
      * rewrite IH. done.
      * rewrite IH. clear IH.
        pose proof (split_cons_ink_nonempty d a' Hd) as Hne. cbn [split] in Hne.
        rewrite Hd in Hne.
        destruct (match a' with
                  | "" => [String d ""]
                  | String b0 _ =>
                      if is_space b0 then String d "" :: split a'
                      else match split a' with
                           | [] => [String d ""]
                           | w :: ws => String d w :: ws
                           end
                  end) as [|w ws]; [done|]. done.
Qed.

End PyTextFacts.

(** ** Capture loop: smoothing, vocabulary, sentence and uploads *)

Section CaptureFacts.
Import Capture.

Lemma max_by_spec (key : Z → nat) (rest : list Z) (best : Z) :
  max_by key best rest ∈ best :: rest
  ∧ ∀ x, x ∈ best :: rest → key x ≤ key (max_by key best rest).
Proof.
  revert best. induction rest as [|y rest IH]; intros best; cbn [max_by].
  - split; [apply list_elem_of_here|].
    intros x Hx. apply list_elem_of_singleton in Hx as ->. done.
  - destruct (Nat.ltb_spec (key best) (key y)) as [Hlt|Hge].
    + destruct (IH y) as [Hin Hmax]. split; [by apply list_elem_of_further|].
      pose proof (Hmax y (list_elem_of_here _ _)) as Hy.
      intros x Hx. apply elem_of_cons in Hx as [->|Hx]; [lia | by apply Hmax].
    + destruct (IH best) as [Hin Hmax].
      pose proof (Hmax best (list_elem_of_here _ _)) as Hb.
      split.
      * apply elem_of_cons in Hin as [->|Hin]; [apply list_elem_of_here|].
        by do 2 apply list_elem_of_further.
      * intros x Hx. apply elem_of_cons in Hx as [->|Hx]; [done|].
        apply elem_of_cons in Hx as [->|Hx]; [lia|].
        apply Hmax. by apply list_elem_of_further.
Qed.

Lemma count_of_two (q : list Z) (x y : Z) :
  x ≠ y → count_of q x + count_of q y ≤ length q.
Proof.
  intros Hne. unfold count_of. induction q as [|z q IH]; [cbn; lia|].
  rewrite !filter_cons. repeat case_decide; cbn [length]; subst; try done; lia.
Qed.

Lemma count_of_app (q1 q2 : list Z) (x : Z) :
  count_of (q1 ++ q2) x = count_of q1 x + count_of q2 x.
Proof. unfold count_of. by rewrite filter_app, length_app. Qed.

Lemma count_of_pos (q : list Z) (x : Z) : 0 < count_of q x → x ∈ q.
Proof.
  unfold count_of. intros H.
  destruct (filter (λ y, y = x) q) as [|z l] eqn:Hf; [cbn in H; lia|].
  assert (z ∈ filter (λ y, y = x) q) as Hz by (rewrite Hf; set_solver).
  apply list_elem_of_filter in Hz as [-> Hz]. done.
Qed.

(** A value that fills three of the five places of the window is the
    smoothed count, in whatever order the set is iterated. *)
Lemma smooth_majority (set_iter : list Z → list Z) (q : list Z) (c current : Z) :
  iterates set_iter → length q = 5 → 3 ≤ count_of q c →
  smooth set_iter q current = c.
Proof.
  intros Hiter Hlen Hc. unfold smooth. rewrite decide_True by done.
  destruct (Hiter q) as [_ Hmem].
  assert (c ∈ set_iter q) as Hin by (apply Hmem, count_of_pos; lia).
  destruct (set_iter q) as [|x rest] eqn:Hs; [by apply elem_of_nil in Hin|].
  destruct (max_by_spec (count_of q) rest x) as [Hm Hmax].
  specialize (Hmax c Hin).
  destruct (decide (max_by (count_of q) x rest = c)) as [|Hne]; [done|].
  pose proof (count_of_two q _ _ Hne). lia.
Qed.

Lemma append_maxlen_tail (p l : list Z) (c : Z) :
  length l ≤ 4 → ∃ p', append_maxlen (p ++ l) c = p' ++ l ++ [c].
Proof.
  intros Hl. unfold append_maxlen. rewrite <- app_assoc.
  exists (drop (length (p ++ l ++ [c]) - 5) p).
  rewrite drop_app_le; [done|]. rewrite !length_app. cbn. lia.
Qed.

Lemma append_maxlen_length (q : list Z) (c : Z) :
  length (append_maxlen q c) = Nat.min (length q + 1) 5.
Proof. unfold append_maxlen. rewrite length_drop, length_app. cbn. lia. Qed.

(** X1. Three frames in a row with the same finger count settle the
    smoothed count: whatever the window held before, and in whatever order
    the interpreter iterates the set, the smoothed count of the third frame
    is that count. *)
Theorem smooth_three_in_a_row (set_iter : list Z → list Z) (q : list Z) (c : Z) :
  iterates set_iter →
  smooth set_iter (append_maxlen (append_maxlen (append_maxlen q c) c) c) c = c.
Proof.
  intros Hiter.
  destruct (append_maxlen_tail q [] c) as [p1 H1]; [cbn; lia|].
  rewrite app_nil_r in H1. rewrite H1. cbn [app].
  destruct (append_maxlen_tail p1 [c] c) as [p2 H2]; [cbn; lia|].
  rewrite H2. cbn [app].
  destruct (append_maxlen_tail p2 [c; c] c) as [p3 H3]; [cbn; lia|].
  rewrite H3. cbn [app].
  destruct (decide (length (p3 ++ [c; c; c]) = 5)) as [Hlen|Hlen].
  - apply smooth_majority; [done | done |].
    rewrite count_of_app. unfold count_of at 2.
    rewrite !filter_cons, !decide_True by done. cbn. lia.
  - unfold smooth. by rewrite decide_False.
Qed.

Lemma first_seen_iterates : iterates first_seen.
Proof.
  intros q. split; [apply NoDup_remove_dups|]. intros x. apply elem_of_remove_dups.
Qed.

Lemma smooth_three_in_a_row_witness :
  smooth first_seen
    (append_maxlen (append_maxlen (append_maxlen [5; 5; 5; 5; 5]%Z 2) 2) 2) 2
  = 2%Z.
Proof. apply (smooth_three_in_a_row first_seen [5; 5; 5; 5; 5]%Z 2 first_seen_iterates). Defined.

(** What one debounce step can emit. *)
Lemma debounce_events (st : Gesture.state) (f : Gesture.frame) :
  (Gesture.step st f).2 = []
  ∨ ((0 < Gesture.smoothed_count f)%Z
     ∧ ∃ rest, (Gesture.step st f).2
               = Gesture.Recognized (Gesture.sign_text (Gesture.smoothed_count f)) :: rest
               ∧ (rest = [] ∨ ∃ s, rest = [Gesture.Upload s])).
Proof.
  unfold Gesture.step.
  destruct (decide (_ ∧ _)) as [[_ Hpos]|_]; [|by left].
  right. split; [done|]. destruct (decide (_ <= _)%Z); cbn; eauto.
Qed.

Lemma sign_text_vocabulary (c : Z) :
  (1 <= c <= 10)%Z → Gesture.sign_text c ∈ vocabulary.
Proof.
  intros Hc.
  assert (c = 1 ∨ c = 2 ∨ c = 3 ∨ c = 4 ∨ c = 5 ∨ c = 6 ∨ c = 7 ∨ c = 8
          ∨ c = 9 ∨ c = 10)%Z as Hcases by lia.
  repeat destruct Hcases as [->|Hcases]; try subst c;
    apply (bool_decide_unpack _); vm_compute; exact I.
Qed.

Lemma append_maxlen_range (q : list Z) (c : Z) :
  Forall in_range q → in_range c → Forall in_range (append_maxlen q c).
Proof.
  intros Hq Hc. unfold append_maxlen. apply Forall_drop.
  apply Forall_app. split; [done | by constructor].
Qed.

Lemma smooth_range (set_iter : list Z → list Z) (q : list Z) (current : Z) :
  iterates set_iter → Forall in_range q → in_range current →
  in_range (smooth set_iter q current).
Proof.
  intros Hiter Hq Hc. unfold smooth. case_decide; [|done].
  destruct (Hiter q) as [_ Hmem].
  destruct (set_iter q) as [|x rest] eqn:Hs; [done|].
  destruct (max_by_spec (count_of q) rest x) as [Hm _].
  apply Hmem in Hm. rewrite Forall_forall in Hq. by apply Hq.
Qed.

Lemma commits_app (a b : list event) : commits (a ++ b) = commits a ++ commits b.
Proof. apply omap_app. Qed.

Lemma pass_vocabulary (set_iter : list Z → list Z) (r : recognizer) (c : capture) :
  iterates set_iter → Forall in_range (finger_count_queue r) →
  Forall in_range (finger_count_queue (pass set_iter r c).1)
  ∧ Forall (λ s, s ∈ vocabulary) (commits (pass set_iter r c).2).
Proof.
  intros Hiter Hq. unfold pass.
  assert (in_range (current_finger_count c)) as Hcur
    by (unfold in_range, current_finger_count; lia).
  destruct (fingers c) as [|n ns] eqn:Hf.
  - destruct (pressed c); cbn; split; done || constructor.
  - pose proof (append_maxlen_range _ _ Hq Hcur) as Hq'.
    pose proof (smooth_range set_iter _ _ Hiter Hq' Hcur) as Hsm.
    set (f := Gesture.mkFrame _ _).
    pose proof (debounce_events (core r) f) as Hev.
    destruct (Gesture.step (core r) f) as [st out]. cbn [snd] in Hev.
    assert (Forall (λ s, s ∈ vocabulary) (commits (of_debounce (now c) <$> out)))
      as Hout.
    { destruct Hev as [->|(Hpos & rest & -> & Hrest)]; [constructor|].
      cbn in Hpos.
      assert (Gesture.sign_text (Gesture.smoothed_count f) ∈ vocabulary) as Hv.
      { apply sign_text_vocabulary. unfold in_range in Hsm. subst f. cbn. lia. }
      destruct Hrest as [->|[s ->]]; cbn; (constructor; [exact Hv | constructor]). }
    destruct (pressed c); cbn [fst snd finger_count_queue];
      rewrite ?commits_app, ?app_nil_r; done.
Qed.

(** X2. Whatever the frames and the keys, every token the capture loop
    commits is a phrase of the table of signs, never the fallback
    "UNKNOWN": the window only holds counts from 0 to 10 and a count of 0
    commits nothing. *)
Theorem committed_tokens_in_vocabulary (set_iter : list Z → list Z)
    (cs : list capture) :
  iterates set_iter →
  Forall (λ s, s ∈ vocabulary) (commits (run set_iter init cs).2)
  ∧ "UNKNOWN" ∉ vocabulary.
Proof.
  intros Hiter. split; [|apply (bool_decide_unpack _); vm_compute; exact I].
  assert (Forall in_range (finger_count_queue init)) as Hq by constructor.
  revert Hq. generalize init. induction cs as [|c cs IH]; intros r Hq; [constructor|].
  cbn [run]. destruct (pass_vocabulary set_iter r c Hiter Hq) as [Hq' Hev].
  destruct (pass set_iter r c) as [r1 evs]. cbn [fst snd] in *.
  destruct (pressed c); try done;
    specialize (IH r1 Hq'); destruct (run set_iter r1 cs) as [r2 out];
    cbn [snd] in *; rewrite commits_app; by apply Forall_app.
Qed.

Lemma committed_tokens_in_vocabulary_witness :
  commits (run first_seen init
             (replicate 11 (mkCapture [2; 1] 0 NoKey) ++ [mkCapture [] 0 KeyC])).2
  = ["RPEPEAT THAT"]
  ∧ "RPEPEAT THAT" ∈ vocabulary.
Proof.
  destruct (committed_tokens_in_vocabulary first_seen
              (replicate 11 (mkCapture [2; 1] 0 NoKey) ++ [mkCapture [] 0 KeyC])
              first_seen_iterates) as [Hall _].
  assert (commits (run first_seen init
             (replicate 11 (mkCapture [2; 1] 0 NoKey) ++ [mkCapture [] 0 KeyC])).2
          = ["RPEPEAT THAT"]) as Heq by (vm_compute; reflexivity).
  split; [exact Heq|]. rewrite Heq in Hall. by inversion Hall.
Defined.

Lemma steady_step (st : Gesture.state) (f : Gesture.frame) :
  steady st → steady (Gesture.step st f).1.
Proof.
  unfold steady, Gesture.step, Gesture.REPEAT_THRESHOLD. intros Hst.
  destruct (decide (Gesture.smoothed_count f = Gesture.last_finger_count st)) as [He|Hne];
    cbn [Gesture.repeat_count Gesture.last_finger_count Gesture.sentence
         Gesture.last_upload_time].
  - destruct (decide (_ ∧ _)) as [[Hten Hpos]|Hno].
    + destruct (decide (_ <= _)%Z); cbn; lia.
    + cbn. intros Hl. specialize (Hst Hl).
      assert (Gesture.repeat_count st + 1 ≠ 10)%Z by (intros ?; apply Hno; lia).
      lia.
  - destruct (decide (_ ∧ _)) as [[Hten _]|_]; [done|]. cbn. lia.
Qed.

Lemma steady_run (fs : list Gesture.frame) (st : Gesture.state) :
  steady st → steady (Gesture.run st fs).2.
Proof.
  revert st. induction fs as [|f fs IH]; intros st Hst; [done|].
  cbn [Gesture.run]. pose proof (steady_step st f Hst) as Hst'.
  destruct (Gesture.step st f) as [st' evs]. specialize (IH st' Hst').
  by destruct (Gesture.run st' fs).
Qed.

Lemma steady_init : steady Gesture.init.
Proof. unfold steady. cbn. lia. Qed.

Lemma constant_stream_tokens (c : Z) (clock : list Z) (st : Gesture.state) :
  Forall (λ o, o = None ∨ o = Some (Gesture.sign_text c))
    (Gesture.commits st (Gesture.constant_stream c clock)).
Proof.
  revert st. induction clock as [|t clock IH]; intros st; [constructor|].
  unfold Gesture.commits, Gesture.constant_stream in *. cbn [map Gesture.run].
  pose proof (debounce_events st (Gesture.mkFrame c t)) as Hev.
  destruct (Gesture.step st (Gesture.mkFrame c t)) as [st' evs]. cbn [snd] in Hev.
  specialize (IH st'). destruct (Gesture.run st' _) as [out st'']. cbn [fst] in *.
  constructor; [|done].
  destruct Hev as [->|(_ & rest & -> & _)]; [by left | by right].
Qed.

(** X3. After any history of frames, a sign held for 11 frames is
    committed: 11 consecutive frames with the same positive smoothed count
    commit its token at least once, and commit no other token. *)
Theorem held_sign_is_committed (history : list Gesture.frame) (c : Z)
    (clock : list Z) :
  (0 < c)%Z → length clock = 11 →
  let st := (Gesture.run Gesture.init history).2 in
  let out := Gesture.commits st (Gesture.constant_stream c clock) in
  Some (Gesture.sign_text c) ∈ out
  ∧ Forall (λ o, o = None ∨ o = Some (Gesture.sign_text c)) out.
Proof.
  intros Hc Hlen st out. split; [|apply constant_stream_tokens].
  pose proof (steady_run history _ steady_init) as Hst. fold st in Hst.
  destruct (decide (Gesture.last_finger_count st = c)) as [Hl|Hl].
  - assert (0 <= Gesture.repeat_count st < Gesture.REPEAT_THRESHOLD)%Z as Hr
      by (apply Hst; lia).
    unfold Gesture.REPEAT_THRESHOLD in Hr.
    pose proof (commits_tracking c clock Hc st
                  (Z.to_nat (9 - Gesture.repeat_count st)) Hl) as Htr.
    rewrite decide_True in Htr by (rewrite Z2Nat.id by lia;
      replace (Gesture.repeat_count st + (9 - Gesture.repeat_count st) + 1)%Z
        with 10%Z by lia; done).
    eapply list_elem_of_lookup_2, Htr; unfold Gesture.REPEAT_THRESHOLD; lia.
  - destruct clock as [|t clock]; [done|]. cbn in Hlen.
    subst out. unfold Gesture.commits, Gesture.constant_stream. cbn [map Gesture.run].
    assert (∃ st', Gesture.step st (Gesture.mkFrame c t) = (st', [])
                   ∧ Gesture.last_finger_count st' = c
                   ∧ Gesture.repeat_count st' = 0%Z) as (st' & -> & Hl' & Hr').
    { unfold Gesture.step. cbn [Gesture.smoothed_count].
      destruct (decide (c = Gesture.last_finger_count st)) as [?|_]; [congruence|].
      cbn [Gesture.repeat_count].
      destruct (decide (_ ∧ _)) as [[? _]|_]; [done|]. eauto. }
    pose proof (commits_tracking c clock Hc st' 9 Hl') as Htr.
    unfold Gesture.commits, Gesture.constant_stream in Htr.
    destruct (Gesture.run st' _) as [o st'']. cbn [fst] in *.
    rewrite Hr' in Htr. rewrite decide_True in Htr by done.
    apply list_elem_of_further. eapply list_elem_of_lookup_2, Htr;
      unfold Gesture.REPEAT_THRESHOLD; lia.
Qed.

Lemma held_sign_is_committed_witness :
  Some "STOP"
  ∈ Gesture.commits
      (Gesture.run Gesture.init (Gesture.constant_stream 2 [0; 40; 80; 120]%Z)).2
      (Gesture.constant_stream 5 ((λ i, 40 * Z.of_nat i)%Z <$> seq 4 11)).
Proof.
  apply (held_sign_is_committed (Gesture.constant_stream 2 [0; 40; 80; 120]%Z) 5
           ((λ i, 40 * Z.of_nat i)%Z <$> seq 4 11)); [lia | reflexivity].
Defined.

Lemma spell_app (a b : list string) : spell (a ++ b) = spell a +:+ spell b.
Proof.
  unfold spell. induction a as [|t a IH]; [done|].
  cbn [app foldr]. by rewrite IH, !append_assoc.
Qed.

(** What one debounce step does to the sentence and the upload clock. *)
Lemma debounce_shape (st : Gesture.state) (f : Gesture.frame) :
  let st' := (Gesture.step st f).1 in
  let out := (Gesture.step st f).2 in
  (out = [] ∧ Gesture.sentence st' = Gesture.sentence st
   ∧ Gesture.last_upload_time st' = Gesture.last_upload_time st)
  ∨ (∃ tok, Gesture.sentence st' = Gesture.sentence st +:+ tok +:+ " "
       ∧ ((out = [Gesture.Recognized tok]
           ∧ Gesture.last_upload_time st' = Gesture.last_upload_time st)
          ∨ (out = [Gesture.Recognized tok; Gesture.Upload (Gesture.sentence st')]
             ∧ Gesture.last_upload_time st' = Gesture.current_time f
             ∧ (Gesture.upload_cooldown
                <= Gesture.current_time f - Gesture.last_upload_time st)%Z))).
Proof.
  unfold Gesture.step.
  destruct (decide (Gesture.smoothed_count f = Gesture.last_finger_count st));
    cbn [Gesture.repeat_count Gesture.last_finger_count Gesture.sentence
         Gesture.last_upload_time];
    (destruct (decide (_ ∧ _)) as [_|_]; [|by left]);
    (destruct (decide (_ <= _)%Z); cbn [fst snd Gesture.sentence Gesture.last_upload_time];
     right; exists (Gesture.sign_text (Gesture.smoothed_count f));
     (split; [reflexivity|]); [right | left]); done.
Qed.

Lemma uploads_app (a b : list event) : uploads (a ++ b) = uploads a ++ uploads b.
Proof. apply omap_app. Qed.

(** What one pass of the loop does when the clear key is not pressed. *)
Lemma pass_shape (set_iter : list Z → list Z) (r : recognizer) (c : capture) :
  pressed c ≠ KeyC →
  let r' := (pass set_iter r c).1 in
  let evs := (pass set_iter r c).2 in
  (evs = [] ∧ Gesture.sentence (core r') = Gesture.sentence (core r))
  ∨ (∃ tok, Gesture.sentence (core r') = Gesture.sentence (core r) +:+ tok +:+ " "
       ∧ (evs = [Commit tok]
          ∨ evs = [Commit tok; Upload (now c) (Gesture.sentence (core r'))])).
Proof.
  intros Hkey. unfold pass. destruct (fingers c) as [|n ns].
  - destruct (pressed c); try done; by left.
  - set (f := Gesture.mkFrame _ _).
    pose proof (debounce_shape (core r) f) as Hsh. cbv zeta in Hsh.
    destruct (Gesture.step (core r) f) as [st out]. cbn [fst snd] in Hsh.
    destruct (pressed c); try done; cbn [fst snd core];
      (destruct Hsh as [(-> & Hs & _)|(tok & Hs & [(-> & _)|(-> & _)])];
       [by left | right; exists tok; split; [done | by left]
        | right; exists tok; split; [done | by right]]).
Qed.

(** X4. Without the clear key, the sentence after a run of the loop is the
    sentence before it followed by the committed tokens, each with a space
    after it, and every upload carries the whole sentence as it stands
    after the token committed by the same frame: the tokens committed
    since an earlier upload are batched into the next one. *)
Theorem uploads_carry_whole_sentence (set_iter : list Z → list Z)
    (cs : list capture) (r : recognizer) :
  Forall (λ c, pressed c ≠ KeyC) cs →
  let r' := (run set_iter r cs).1 in
  let evs := (run set_iter r cs).2 in
  Gesture.sentence (core r')
  = Gesture.sentence (core r) +:+ spell (commits evs)
  ∧ ∀ pre post t s, evs = pre ++ Upload t s :: post →
      s = Gesture.sentence (core r) +:+ spell (commits pre).
Proof.
  revert r. induction cs as [|c cs IH]; intros r Hkeys.
  - cbn. split; [by rewrite append_nil_r|]. intros [|? ?] ? ? ? H; discriminate H.
  - apply Forall_cons in Hkeys as [Hkey Hkeys]. cbn [run].
    pose proof (pass_shape set_iter r c Hkey) as Hsh. cbv zeta in Hsh.
    destruct (pass set_iter r c) as [r1 evs1]. cbn [fst snd] in Hsh.
    assert (Gesture.sentence (core r1)
            = Gesture.sentence (core r) +:+ spell (commits evs1)
            ∧ ∀ pre post t s, evs1 = pre ++ Upload t s :: post →
                s = Gesture.sentence (core r) +:+ spell (commits pre)) as [Hs1 Hu1].
    { destruct Hsh as [[-> Hs]|(tok & Hs & [->| ->])].
      - split; [by rewrite Hs, append_nil_r|]. intros [|? ?] ? ? ? H; discriminate H.
      - split; [by rewrite Hs; cbn; rewrite append_nil_r|].
        intros [|? [|? ?]] ? ? ? H; discriminate H.
      - split; [by rewrite Hs; cbn; rewrite append_nil_r|].
        intros [|e [|e2 [|e3 pre]]] post t s H; simplify_eq/=.
        rewrite Hs. by rewrite append_nil_r. }
    assert (∀ out r2,
              (Gesture.sentence (core r2)
               = Gesture.sentence (core r1) +:+ spell (commits out)
               ∧ ∀ pre post t s, out = pre ++ Upload t s :: post →
                   s = Gesture.sentence (core r1) +:+ spell (commits pre)) →
              Gesture.sentence (core r2)
              = Gesture.sentence (core r) +:+ spell (commits (evs1 ++ out))
              ∧ ∀ pre post t s, evs1 ++ out = pre ++ Upload t s :: post →
                  s = Gesture.sentence (core r) +:+ spell (commits pre)) as Hglue.
    { intros out r2 [Hs2 Hu2]. split.
      - by rewrite Hs2, Hs1, commits_app, spell_app, append_assoc.
      - intros pre post t s Heq.
        apply app_eq_inv in Heq as [(k & -> & Hk)|(k & -> & Hk)].
        + destruct k as [|e k].
          * rewrite app_nil_r in *. cbn in Hk. subst out.
            rewrite (Hu2 [] post t s eq_refl), Hs1. cbn. by rewrite append_nil_r.
          * cbn in Hk. injection Hk as <- ->. by apply (Hu1 pre k t s).
        + rewrite (Hu2 k post t s Hk), Hs1, commits_app, spell_app.
          by rewrite append_assoc. }
    destruct (pressed c) eqn:Hp; [|by split|done].
    specialize (IH r1 Hkeys). cbv zeta in IH.
    destruct (run set_iter r1 cs) as [r2 out]. cbn [fst snd] in *.
    by apply Hglue.
Qed.

Lemma uploads_carry_whole_sentence_witness :
  let cs := replicate 11 (mkCapture [1] 2500 NoKey)
            ++ replicate 10 (mkCapture [1] 3000 NoKey) in
  Gesture.sentence (core (run first_seen init cs).1) = "HELLO HELLO "
  ∧ uploads (run first_seen init cs).2 = [(2500%Z, "HELLO ")].
Proof.
  intros cs.
  destruct (uploads_carry_whole_sentence first_seen cs init) as [Hs Hu].
  - apply Forall_app. split; by apply Forall_replicate.
  - split; [rewrite Hs|]; vm_compute; reflexivity.
Defined.

Lemma spaced_cons (u : Z * string) (ups : list (Z * string)) :
  spaced ups →
  (∀ u2, head ups = Some u2 → (Gesture.upload_cooldown <= u2.1 - u.1)%Z) →
  spaced (u :: ups).
Proof.
  intros Hsp Hh [|i] u1 u2 H1 H2; cbn in *.
  - injection H1 as <-. apply Hh. by destruct ups.
  - by apply (Hsp i).
Qed.

(** What one pass does to the upload clock. *)
Lemma pass_uploads (set_iter : list Z → list Z) (r : recognizer) (c : capture) :
  let r' := (pass set_iter r c).1 in
  let evs := (pass set_iter r c).2 in
  (uploads evs = []
   ∧ Gesture.last_upload_time (core r') = Gesture.last_upload_time (core r))
  ∨ (∃ s, uploads evs = [(now c, s)]
       ∧ Gesture.last_upload_time (core r') = now c
       ∧ (Gesture.upload_cooldown <= now c - Gesture.last_upload_time (core r))%Z).
Proof.
  unfold pass. destruct (fingers c) as [|n ns].
  - destruct (pressed c); by left.
  - set (f := Gesture.mkFrame _ _).
    pose proof (debounce_shape (core r) f) as Hsh. cbv zeta in Hsh.
    destruct (Gesture.step (core r) f) as [st out]. cbn [fst snd] in Hsh.
    destruct Hsh as [(-> & _ & Hl)|(tok & _ & [(-> & Hl)|(-> & Hl & Hc)])];
      destruct (pressed c); cbn [fst snd core clear_sentence Gesture.last_upload_time];
      first [by left | right; eexists; split; [reflexivity | by split]].
Qed.

(** X5. Uploads triggered by commits are rate limited: whatever the frames,
    the keys and the clock readings, two consecutive such uploads are at
    least 2 s apart, and the first one is at least 2 s after the upload
    time the loop started with. *)
Theorem commit_uploads_are_spaced (set_iter : list Z → list Z)
    (cs : list capture) (r : recognizer) :
  let ups := uploads (run set_iter r cs).2 in
  spaced ups
  ∧ ∀ u, head ups = Some u →
      (Gesture.upload_cooldown <= u.1 - Gesture.last_upload_time (core r))%Z.
Proof.
  revert r. induction cs as [|c cs IH]; intros r.
  - cbn. split; [by intros i u1 u2 H | done].
  - cbn [run]. pose proof (pass_uploads set_iter r c) as Hp. cbv zeta in Hp.
    destruct (pass set_iter r c) as [r1 evs]. cbn [fst snd] in Hp.
    specialize (IH r1). cbv zeta in IH.
    assert (let ups := uploads (evs ++ (run set_iter r1 cs).2) in
            spaced ups
            ∧ ∀ u, head ups = Some u →
                (Gesture.upload_cooldown
                 <= u.1 - Gesture.last_upload_time (core r))%Z) as Hgo.
    { cbv zeta. rewrite uploads_app. destruct IH as [Hsp Hh].
      destruct Hp as [[-> Hl]|(s & -> & Hl & Hc)]; cbn [app].
      - by rewrite <- Hl.
      - split; [|by intros u [= <-]].
        apply spaced_cons; [done|]. intros u2 Hu2. rewrite <- Hl. by apply Hh. }
    destruct (pressed c); [|clear Hgo|];
      try (destruct (run set_iter r1 cs) as [r2 out]; exact Hgo).
    cbn [snd]. destruct Hp as [[-> _]|(s & -> & _ & Hc)].
    + split; [by intros i u1 u2 H | done].
    + split; [by intros [|i] u1 u2 H1 H2 | by intros u [= <-]].
Qed.

End CaptureFacts.

(** ** Writes to the store and what the listeners make of them *)

Section StoreFacts.
Import Feed Store.

Lemma has_code_lookup (code : string) (d : session) :
  has_code code d = bool_decide (d !! "session_code" = Some (JStr code)).
Proof.
  unfold has_code.
  destruct (bool_decide (d !! "session_code" = Some (JStr code))) eqn:Hc;
    [|by rewrite andb_false_r].
  apply bool_decide_eq_true in Hc.
  rewrite bool_decide_true; [done|]. intros ->. by rewrite lookup_empty in Hc.
Qed.

Lemma has_code_patch (code : string) (upd d : session) :
  upd !! "session_code" = None →
  has_code code (Join.patch_fields upd d) = has_code code d.
Proof.
  intros Hupd. rewrite !has_code_lookup. unfold Join.patch_fields.
  by rewrite lookup_union_r.
Qed.

Lemma find_session_patch (code sid : string) (upd d : session) (db : Join.store) :
  upd !! "session_code" = None →
  find_session code db = Some (sid, d) →
  find_session code (Join.patch sid upd db) = Some (sid, Join.patch_fields upd d).
Proof.
  intros Hupd. unfold Join.patch. induction db as [|[i d0] db IH]; [done|].
  cbn [find_session fmap list_fmap].
  destruct (has_code code d0) eqn:Hc.
  - intros [= -> ->]. rewrite decide_True by done. cbn [find_session].
    by rewrite has_code_patch, Hc.
  - intros Hf. case_decide; cbn [find_session];
      rewrite ?has_code_patch, Hc by done; by apply IH.
Qed.

Lemma find_session_elem (code sid : string) (d : session) (db : Join.store) :
  find_session code db = Some (sid, d) → (sid, d) ∈ db.
Proof.
  induction db as [|[i d0] db IH]; [done|]. cbn.
  destruct (has_code code d0).
  - intros [= -> ->]. apply list_elem_of_here.
  - intros H. apply list_elem_of_further. by apply IH.
Qed.

Lemma lookup_id_elem (sid : string) (d : session) (db : Join.store) :
  keyed db → (sid, d) ∈ db → lookup_id sid db = Some d.
Proof.
  unfold keyed. induction db as [|[i d0] db IH]; intros Hk Hin.
  - by apply elem_of_nil in Hin.
  - cbn in Hk. apply NoDup_cons in Hk as [Hni Hk]. cbn.
    apply elem_of_cons in Hin as [[= -> ->]|Hin]; [by rewrite decide_True|].
    case_decide as Hi; [|by apply IH]. subst i. exfalso. apply Hni.
    apply list_elem_of_fmap. by exists (sid, d).
Qed.

Lemma lookup_id_patch (sid : string) (upd d : session) (db : Join.store) :
  lookup_id sid db = Some d →
  lookup_id sid (Join.patch sid upd db) = Some (Join.patch_fields upd d).
Proof.
  unfold Join.patch. induction db as [|[i d0] db IH]; [done|].
  cbn [lookup_id fmap list_fmap]. case_decide as Hi.
  - intros [= ->]. cbn. by rewrite decide_True.
  - intros H. cbn. rewrite decide_False by done. by apply IH.
Qed.

Lemma patch_at_present (sid : string) (upd d : session) (db : Join.store) :
  lookup_id sid db = Some d → patch_at sid upd db = Join.patch sid upd db.
Proof. intros H. unfold patch_at. by rewrite H. Qed.

(** What the teacher's listener emits, read off the record and its
    memory. *)
Lemma teacher_poll_transcripts (st : Teacher.state) (d : session) :
  transcripts (Teacher.poll st (Teacher.Record_ d)).2
  = let t := get_str d "student_transcript" "" in
    if PyStr.truthy t && bool_decide (t ≠ Teacher.last_transcript st)
    then [t] else [].
Proof.
  cbv zeta. unfold Teacher.poll.
  set (t := get_str d "student_transcript" "").
  set (en := if decide (_ ≠ Teacher.student_name st) then _ else _).
  assert (transcripts en = []) as Hname by (subst en; by case_decide).
  clearbody en.
  pose proof (teacher_chat_loop_events (Teacher.last_chat_message st)
                (drop (Teacher.last_chat_count st) (get_chat d))) as Hloop.
  destruct (Teacher.chat_loop _ _) as [[lm ec] ok]. cbn [fst snd] in Hloop.
  assert (transcripts (if ok then [] else [Connection false]) = []) as Hok
    by (by destruct ok).
  destruct (decide (Teacher.last_chat_count st < length (get_chat d)));
    cbn [snd]; change (Connection true :: ?l) with ([Connection true] ++ l);
    rewrite !transcripts_app, ?Hname, ?Hloop, ?Hok;
    by destruct (PyStr.truthy t && bool_decide (t ≠ Teacher.last_transcript st)).
Qed.

Lemma names_app (a b : list event) : names (a ++ b) = names a ++ names b.
Proof. apply omap_app. Qed.

Lemma teacher_poll_names (st : Teacher.state) (d : session) :
  names (Teacher.poll st (Teacher.Record_ d)).2
  = let n := get_str d "student_name" "Student" in
    if decide (n ≠ Teacher.student_name st) then [n] else [].
Proof.
  cbv zeta. unfold Teacher.poll.
  set (t := get_str d "student_transcript" "").
  set (n := get_str d "student_name" "Student").
  set (et := if PyStr.truthy t && _ then [Transcript t] else []).
  assert (names et = []) as Het
    by (subst et; by destruct (PyStr.truthy t && _)).
  clearbody et.
  assert (∀ last log, names (Teacher.chat_loop last log).1.2 = []) as Hloop.
  { intros last log. revert last.
    induction log as [|[m|] log IH]; intros last; cbn; [done| |done].
    repeat case_decide; try apply IH. specialize (IH (message m)).
    destruct (Teacher.chat_loop (message m) log) as [[l e] ok]. by cbn in *. }
  specialize (Hloop (Teacher.last_chat_message st)
                (drop (Teacher.last_chat_count st) (get_chat d))).
  destruct (Teacher.chat_loop _ _) as [[lm ec] ok]. cbn [fst snd] in Hloop.
  assert (names (if ok then [] else [Connection false]) = []) as Hok
    by (by destruct ok).
  destruct (decide (Teacher.last_chat_count st < length (get_chat d)));
    cbn [snd]; change (Connection true :: ?l) with ([Connection true] ++ l);
    rewrite !names_app, ?Het, ?Hloop, ?Hok, ?app_nil_r;
    by destruct (decide (n ≠ Teacher.student_name st)).
Qed.

(** The chat events of the teacher's listener depend on the chat log of
    the record only. *)
Lemma teacher_poll_chats (st : Teacher.state) (d d' : session) :
  get_chat d' = get_chat d →
  chats (Teacher.poll st (Teacher.Record_ d')).2
  = chats (Teacher.poll st (Teacher.Record_ d)).2.
Proof.
  intros Hc. unfold Teacher.poll. rewrite Hc.
  destruct (Teacher.chat_loop _ _) as [[lm ec] ok].
  destruct (decide (Teacher.last_chat_count st < length (get_chat d)));
    cbn [snd]; rewrite !chats_connection, !chats_app, !chats_no_transcript;
    f_equal; by repeat case_decide.
Qed.

Lemma sentence_update_fields (name sentence : string) (now : Z) (d : session) :
  let d' := Join.patch_fields (sentence_update name sentence now) d in
  get_str d' "student_transcript" "" = sentence
  ∧ get_str d' "student_name" "Student" = name
  ∧ get_chat d' = get_chat d
  ∧ d' !! "current_transcript" = d !! "current_transcript".
Proof.
  cbv zeta. unfold get_str, get_chat, Join.patch_fields, sentence_update.
  split_and!.
  - by rewrite (lookup_union_Some_l _ _ _ (JStr sentence)) by by simplify_map_eq.
  - by rewrite (lookup_union_Some_l _ _ _ (JStr name)) by by simplify_map_eq.
  - by rewrite lookup_union_r by by simplify_map_eq.
  - by rewrite lookup_union_r by by simplify_map_eq.
Qed.

(** X6. When the gesture script's upload reaches the store, the teacher's
    listener finds at its next poll the sentence and the student's name in
    the record of the session: it emits the sentence unless it is empty or
    the one it emitted last, and the name unless it is the one it
    remembers; its chat events are what they would have been without the
    upload.  An empty sentence (after the clear key) is never emitted. *)
Theorem upload_reaches_teacher (code name sentence sid : string) (now : Z)
    (a : Join.patch_answer) (db : Join.store) (d : session) (st : Teacher.state) :
  keyed db →
  find_session code db = Some (sid, d) →
  applied a = true →
  ∃ d', lookup_id sid (upload_to_firebase code name sentence now true a db) = Some d'
    ∧ transcripts (Teacher.poll st (Teacher.Record_ d')).2
      = (if PyStr.truthy sentence
            && bool_decide (sentence ≠ Teacher.last_transcript st)
         then [sentence] else [])
    ∧ names (Teacher.poll st (Teacher.Record_ d')).2
      = (if decide (name ≠ Teacher.student_name st) then [name] else [])
    ∧ chats (Teacher.poll st (Teacher.Record_ d')).2
      = chats (Teacher.poll st (Teacher.Record_ d)).2
    ∧ d' !! "current_transcript" = d !! "current_transcript".
Proof.
  intros Hk Hf Ha.
  pose proof (lookup_id_elem sid d db Hk (find_session_elem _ _ _ _ Hf)) as Hl.
  exists (Join.patch_fields (sentence_update name sentence now) d).
  destruct (sentence_update_fields name sentence now d) as (Ht & Hn & Hc & Hcur).
  split_and!.
  - unfold upload_to_firebase, write. rewrite Hf, Ha.
    rewrite (patch_at_present _ _ _ _ Hl). by apply lookup_id_patch.
  - by rewrite teacher_poll_transcripts, Ht.
  - by rewrite teacher_poll_names, Hn.
  - by apply teacher_poll_chats.
  - done.
Qed.

Lemma upload_reaches_teacher_witness :
  let db := [("s1", new_session "Biology" "123456" 1700000000)] in
  ∃ d', lookup_id "s1"
          (upload_to_firebase "123456" "Asha" "HELLO " 1700000100 true
             Join.Patched db) = Some d'
    ∧ transcripts (Teacher.poll Teacher.init (Teacher.Record_ d')).2 = ["HELLO "]
    ∧ names (Teacher.poll Teacher.init (Teacher.Record_ d')).2 = ["Asha"].
Proof.
  intros db.
  destruct (upload_reaches_teacher "123456" "Asha" "HELLO " "s1" 1700000100
              Join.Patched db (new_session "Biology" "123456" 1700000000)
              Teacher.init)
    as (d' & Hl & Ht & Hn & _).
  - apply (bool_decide_unpack _). vm_compute. exact I.
  - vm_compute. reflexivity.
  - reflexivity.
  - exists d'. split_and!; [exact Hl | exact Ht | exact Hn].
Defined.

Lemma chat_update_fields (log : list (option ChatMessage)) (m : ChatMessage)
    (now : Z) (d : session) :
  let d' := Join.patch_fields (chat_update log m now) d in
  get_chat d' = log ++ [Some m]
  ∧ ∀ k, k ≠ "chat_messages" → k ≠ "last_updated" → d' !! k = d !! k.
Proof.
  cbv zeta. unfold get_chat, Join.patch_fields, chat_update. split.
  - by rewrite (lookup_union_Some_l _ _ _ (JChat (log ++ [Some m])))
      by by simplify_map_eq.
  - intros k H1 H2. apply lookup_union_r. by simplify_map_eq.
Qed.

Lemma deaf_poll_chats (code : string) (st : Deaf.state)
    (all : list (string * session)) (id : string) (d : session) :
  find_session code all = Some (id, d) →
  chats (Deaf.poll code st (Deaf.Sessions all)).2
  = (if bool_decide (Deaf.last_chat_count st < length (get_chat d))
     then chats (Deaf.chat_loop (drop (Deaf.last_chat_count st) (get_chat d)))
     else []).
Proof.
  intros Hf. unfold Deaf.poll. rewrite Hf. cbn [snd].
  rewrite chats_connection, chats_app, chats_no_transcript.
  by case_bool_decide.
Qed.

Lemma mute_poll_chats (code : string) (st : Mute.state)
    (all : list (string * session)) (id : string) (d : session) :
  find_session code all = Some (id, d) →
  chats (Mute.poll code st (Mute.Sessions all)).2
  = (if bool_decide (Mute.last_chat_count st < length (get_chat d))
     then chats (Mute.chat_loop (drop (Mute.last_chat_count st) (get_chat d)))
     else []).
Proof.
  intros Hf. unfold Mute.poll. rewrite Hf. cbn [snd].
  rewrite chats_connection, chats_verified, chats_app, chats_no_transcript.
  rewrite app_nil_r. by case_bool_decide.
Qed.

Lemma teacher_poll_chat_loop (st : Teacher.state) (d : session) :
  chats (Teacher.poll st (Teacher.Record_ d)).2
  = (if decide (Teacher.last_chat_count st < length (get_chat d))
     then chats (Teacher.chat_loop (Teacher.last_chat_message st)
                   (drop (Teacher.last_chat_count st) (get_chat d))).1.2
     else [])
  ∧ Teacher.last_chat_count (Teacher.poll st (Teacher.Record_ d)).1
    = (if decide (Teacher.last_chat_count st < length (get_chat d))
       then if (Teacher.chat_loop (Teacher.last_chat_message st)
                  (drop (Teacher.last_chat_count st) (get_chat d))).2
            then length (get_chat d) else Teacher.last_chat_count st
       else Teacher.last_chat_count st).
Proof.
  unfold Teacher.poll.
  destruct (Teacher.chat_loop _ _) as [[lm ec] ok].
  destruct (decide (Teacher.last_chat_count st < length (get_chat d)));
    cbn [fst snd Teacher.last_chat_count]; (split; [|done]);
    rewrite !chats_connection, !chats_app, !chats_no_transcript, ?app_nil_r.
  - assert (chats (if ok then [] else [Connection false]) = []) as ->
      by (by destruct ok).
    rewrite app_nil_r. by case_decide.
  - by case_decide.
Qed.

Lemma drop_all_snoc {A : Type} (l : list A) (x : A) :
  drop (length l) (l ++ [x]) = [x].
Proof. by rewrite drop_app_length. Qed.

(** X7. A chat message the teacher sends reaches both student pages and is
    not echoed: once the write is applied, the deaf student's and the mute
    student's listeners, which had counted the whole earlier log, each
    emit exactly this message, the teacher's own listener emits none, the
    earlier messages stay in place, and the call answers whether the store
    acknowledged the write. *)
Theorem teacher_chat_reaches_students (sid code message : string) (now : Z)
    (a : Join.patch_answer) (db : Join.store) (d : session)
    (log : list ChatMessage)
    (stD : Deaf.state) (stM : Mute.state) (stT : Teacher.state) :
  keyed db →
  find_session code db = Some (sid, d) →
  get_chat d = Some <$> log →
  applied a = true →
  Deaf.last_chat_count stD = length log →
  Mute.last_chat_count stM = length log →
  Teacher.last_chat_count stT = length log →
  let db' := (upload_chat_to_firebase sid message now true a db).1 in
  (upload_chat_to_firebase sid message now true a db).2 = acknowledged a
  ∧ (∃ d', lookup_id sid db' = Some d'
       ∧ get_chat d' = Some <$> (log ++ [teacher_message message now])
       ∧ chats (Teacher.poll stT (Teacher.Record_ d')).2 = [])
  ∧ chats (Deaf.poll code stD (Deaf.Sessions db')).2 = [teacher_message message now]
  ∧ chats (Mute.poll code stM (Mute.Sessions db')).2 = [teacher_message message now].
Proof.
  intros Hk Hf Hlog Ha HD HM HT db'.
  pose proof (lookup_id_elem sid d db Hk (find_session_elem _ _ _ _ Hf)) as Hl.
  set (upd := chat_update (Some <$> log) (teacher_message message now) now).
  assert (db' = Join.patch sid upd db) as Hdb.
  { subst db'. unfold upload_chat_to_firebase, teacher_write, teacher_read, write.
    cbn [fst]. rewrite Ha, Hl. change (default ∅ (Some d)) with d. rewrite Hlog.
    by apply patch_at_present with d. }
  destruct (chat_update_fields (Some <$> log) (teacher_message message now) now d)
    as [Hc Hother]. fold upd in Hc, Hother.
  assert (find_session code db' = Some (sid, Join.patch_fields upd d)) as Hf'.
  { rewrite Hdb. apply find_session_patch; [|done]. subst upd. unfold chat_update.
    by simplify_map_eq. }
  assert (length (Some <$> log) = length log) as Hlen by apply length_fmap.
  split_and!.
  - done.
  - exists (Join.patch_fields upd d). split_and!.
    + rewrite Hdb. by apply lookup_id_patch.
    + by rewrite Hc, fmap_app.
    + destruct (teacher_poll_chat_loop stT (Join.patch_fields upd d)) as [-> _].
      rewrite Hc, HT. rewrite decide_True by (rewrite length_app; cbn; lia).
      rewrite <- Hlen, drop_all_snoc. cbn. by rewrite decide_False.
  - rewrite (deaf_poll_chats _ _ _ _ _ Hf'), Hc, HD.
    rewrite bool_decide_true by (rewrite length_app; cbn; lia).
    by rewrite <- Hlen, drop_all_snoc.
  - rewrite (mute_poll_chats _ _ _ _ _ Hf'), Hc, HM.
    rewrite bool_decide_true by (rewrite length_app; cbn; lia).
    rewrite <- Hlen, drop_all_snoc. cbn. by rewrite decide_True.
Qed.

Lemma teacher_chat_reaches_students_witness :
  let db := [("s1", new_session "Biology" "123456" 1700000000)] in
  let db' := (upload_chat_to_firebase "s1" "Any questions?" 1700000200 true
                Join.Patched db).1 in
  chats (Deaf.poll "123456" Deaf.init (Deaf.Sessions db')).2
  = [teacher_message "Any questions?" 1700000200]
  ∧ chats (Mute.poll "123456" Mute.init (Mute.Sessions db')).2
    = [teacher_message "Any questions?" 1700000200].
Proof.
  intros db db'.
  destruct (teacher_chat_reaches_students "s1" "123456" "Any questions?"
              1700000200 Join.Patched db
              (new_session "Biology" "123456" 1700000000) []
              Deaf.init Mute.init Teacher.init)
    as (_ & _ & HD & HM); try reflexivity.
  - apply (bool_decide_unpack _). vm_compute. exact I.
  - split; [exact HD | exact HM].
Defined.

(** X8. A chat message sent from the mute student's page reaches the
    teacher unless its text is the text of the student message the teacher
    received last: in both cases the teacher's listener counts it, so a
    dropped message is not delivered later either.  The sender's own
    listener does not echo it; the deaf student's page does show it. *)
Theorem student_chat_reaches_teacher (sid code message : string) (now : Z)
    (a : Join.patch_answer) (db : Join.store) (d : session)
    (log : list ChatMessage)
    (stD : Deaf.state) (stM : Mute.state) (stT : Teacher.state) :
  keyed db →
  find_session code db = Some (sid, d) →
  get_chat d = Some <$> log →
  applied a = true →
  Deaf.last_chat_count stD = length log →
  Mute.last_chat_count stM = length log →
  Teacher.last_chat_count stT = length log →
  let db' := _send_chat_async code message now true a db in
  let m := student_message "" message now in
  (∃ d', lookup_id sid db' = Some d'
     ∧ chats (Teacher.poll stT (Teacher.Record_ d')).2
       = (if decide (message = Teacher.last_chat_message stT) then [] else [m])
     ∧ Teacher.last_chat_count (Teacher.poll stT (Teacher.Record_ d')).1
       = S (length log))
  ∧ chats (Mute.poll code stM (Mute.Sessions db')).2 = []
  ∧ chats (Deaf.poll code stD (Deaf.Sessions db')).2 = [m].
Proof.
  intros Hk Hf Hlog Ha HD HM HT db' m.
  pose proof (lookup_id_elem sid d db Hk (find_session_elem _ _ _ _ Hf)) as Hl.
  set (upd := chat_update (Some <$> log) m now).
  assert (db' = Join.patch sid upd db) as Hdb.
  { subst db'. unfold _send_chat_async, _send_chat_to_firebase, write.
    rewrite Hf, Ha, Hlog. by apply patch_at_present with d. }
  destruct (chat_update_fields (Some <$> log) m now d) as [Hc Hother].
  fold upd in Hc, Hother.
  assert (find_session code db' = Some (sid, Join.patch_fields upd d)) as Hf'.
  { rewrite Hdb. apply find_session_patch; [|done]. subst upd. unfold chat_update.
    by simplify_map_eq. }
  assert (length (Some <$> log) = length log) as Hlen by apply length_fmap.
  split_and!.
  - exists (Join.patch_fields upd d).
    destruct (teacher_poll_chat_loop stT (Join.patch_fields upd d)) as [-> ->].
    rewrite Hc, HT. rewrite !decide_True by (rewrite length_app; cbn; lia).
    rewrite <- Hlen, drop_all_snoc. split_and!.
    + rewrite Hdb. by apply lookup_id_patch.
    + cbn. destruct (decide ("student" = "student")) as [_|?]; [|done].
      destruct (decide (message = Teacher.last_chat_message stT)) as [He|Hne];
        by destruct (decide (message ≠ Teacher.last_chat_message stT)).
    + cbn. destruct (decide ("student" = "student")) as [_|?]; [|done].
      destruct (decide (message ≠ Teacher.last_chat_message stT)); cbn;
        rewrite decide_True by (rewrite length_app; cbn; lia);
        rewrite length_app; cbn; lia.
  - rewrite (mute_poll_chats _ _ _ _ _ Hf'), Hc, HM.
    rewrite bool_decide_true by (rewrite length_app; cbn; lia).
    rewrite <- Hlen, drop_all_snoc. cbn. by rewrite decide_False.
  - rewrite (deaf_poll_chats _ _ _ _ _ Hf'), Hc, HD.
    rewrite bool_decide_true by (rewrite length_app; cbn; lia).
    by rewrite <- Hlen, drop_all_snoc.
Qed.

Lemma student_chat_reaches_teacher_witness :
  let db := [("s1", new_session "Biology" "123456" 1700000000)] in
  let db' := _send_chat_async "123456" "yes" 1700000300 true Join.Patched db in
  ∃ d', lookup_id "s1" db' = Some d'
    ∧ chats (Teacher.poll Teacher.init (Teacher.Record_ d')).2
      = [student_message "" "yes" 1700000300].
Proof.
  intros db db'.
  destruct (student_chat_reaches_teacher "s1" "123456" "yes" 1700000300
              Join.Patched db (new_session "Biology" "123456" 1700000000) []
              Deaf.init Mute.init Teacher.init)
    as ((d' & Hl & Hc & _) & _); try reflexivity.
  - apply (bool_decide_unpack _). vm_compute. exact I.
  - exists d'. split; [exact Hl | exact Hc].
Defined.

(** X9. The chat log is written back whole, so two senders who read the
    same log lose a message: when the teacher and a student both read the
    log before either writes, the log after both writes is the log they
    read followed by the later sender's message only.  When the student
    reads after the teacher's write, both messages are kept, in order. *)
Theorem concurrent_chat_sends_lose_one (sid name mt ms : string) (t1 t2 : Z)
    (db : Join.store) (d : session) :
  lookup_id sid db = Some d →
  let seen_by_teacher := teacher_read sid db in
  let seen_by_student := get_chat d in
  let db1 := teacher_write sid seen_by_teacher mt t1 Join.Patched db in
  (∃ d2, lookup_id sid (student_write sid seen_by_student name ms t2 Join.Patched db1)
         = Some d2
         ∧ get_chat d2 = get_chat d ++ [Some (student_message name ms t2)])
  ∧ (∃ d1 d2, lookup_id sid db1 = Some d1
       ∧ lookup_id sid (student_write sid (get_chat d1) name ms t2 Join.Patched db1)
         = Some d2
       ∧ get_chat d2 = get_chat d ++ [Some (teacher_message mt t1);
                                      Some (student_message name ms t2)]).
Proof.
  intros Hl seen_t seen_s db1.
  assert (seen_t = get_chat d) as Hseen
    by (subst seen_t; unfold teacher_read; by rewrite Hl).
  set (u1 := chat_update (get_chat d) (teacher_message mt t1) t1).
  assert (db1 = Join.patch sid u1 db) as Hdb1.
  { subst db1. unfold teacher_write, write. cbn [applied]. rewrite Hseen.
    by apply patch_at_present with d. }
  assert (lookup_id sid db1 = Some (Join.patch_fields u1 d)) as Hl1
    by (rewrite Hdb1; by apply lookup_id_patch).
  destruct (chat_update_fields (get_chat d) (teacher_message mt t1) t1 d) as [Hc1 _].
  fold u1 in Hc1.
  split.
  - eexists. split.
    + unfold student_write, write. cbn [applied].
      rewrite (patch_at_present _ _ _ _ Hl1). by apply lookup_id_patch.
    + by destruct (chat_update_fields seen_s (student_message name ms t2) t2
                     (Join.patch_fields u1 d)) as [-> _].
  - eexists _, _. split; [exact Hl1|]. split.
    + unfold student_write, write. cbn [applied].
      rewrite (patch_at_present _ _ _ _ Hl1). by apply lookup_id_patch.
    + destruct (chat_update_fields (get_chat (Join.patch_fields u1 d))
                  (student_message name ms t2) t2 (Join.patch_fields u1 d)) as [-> _].
      by rewrite Hc1, <- app_assoc.
Qed.

Lemma concurrent_chat_sends_lose_one_witness :
  let db := [("s1", new_session "Biology" "123456" 1700000000)] in
  let db1 := teacher_write "s1" (teacher_read "s1" db) "Page 12" 1700000400
               Join.Patched db in
  ∃ d2, lookup_id "s1" (student_write "s1" [] "Asha" "ok" 1700000401
                          Join.Patched db1) = Some d2
        ∧ get_chat d2 = [Some (student_message "Asha" "ok" 1700000401)].
Proof.
  intros db db1.
  destruct (concurrent_chat_sends_lose_one "s1" "Asha" "Page 12" "ok"
              1700000400 1700000401 db
              (new_session "Biology" "123456" 1700000000) eq_refl)
    as [(d2 & Hl & Hc) _].
  exists d2. split; [exact Hl | exact Hc].
Defined.

Lemma send_chat_is_read_then_write (code name message sid : string) (now : Z)
    (a : Join.patch_answer) (db : Join.store) (d : session) :
  find_session code db = Some (sid, d) →
  _send_chat_to_firebase code name message now true a db
  = student_write sid (get_chat d) name message now a db.
Proof. intros Hf. unfold _send_chat_to_firebase. by rewrite Hf. Qed.

Lemma name_update_fields (name : string) (now : Z) (d : session) :
  let d' := Join.patch_fields (name_update name now) d in
  get_str d' "student_name" "Student" = name
  ∧ get_str d' "student_transcript" "" = get_str d "student_transcript" ""
  ∧ get_chat d' = get_chat d.
Proof.
  cbv zeta. unfold get_str, get_chat, Join.patch_fields, name_update.
  split_and!.
  - by rewrite (lookup_union_Some_l _ _ _ (JStr name)) by by simplify_map_eq.
  - by rewrite lookup_union_r by by simplify_map_eq.
  - by rewrite lookup_union_r by by simplify_map_eq.
Qed.

(** X10. Joining from the mute student's page writes the student's name
    into the session: after a successful join the teacher's listener
    reports that name at its next poll unless it is the one it remembers,
    while its transcript and chat events are what they were. *)
Theorem mute_join_reports_name (name code sid : string) (now : Z)
    (net : Join.network) (db : Join.store) (d : session) (st : Teacher.state) :
  keyed db →
  find_session code db = Some (sid, d) →
  (mute_check_session_async name code now net db).2 = Join.Joined →
  ∃ d', lookup_id sid (mute_check_session_async name code now net db).1 = Some d'
    ∧ names (Teacher.poll st (Teacher.Record_ d')).2
      = (if decide (name ≠ Teacher.student_name st) then [name] else [])
    ∧ transcripts (Teacher.poll st (Teacher.Record_ d')).2
      = transcripts (Teacher.poll st (Teacher.Record_ d)).2
    ∧ chats (Teacher.poll st (Teacher.Record_ d')).2
      = chats (Teacher.poll st (Teacher.Record_ d)).2.
Proof.
  intros Hk Hf. unfold mute_check_session_async.
  destruct (Join.test_response net) as [test_status|e]; [|by destruct e].
  destruct (test_status =? 200)%N; cbn [negb]; [|done].
  destruct (Join.response net) as [status|e]; [|by destruct e].
  destruct (status =? 200)%N; [|done].
  rewrite Hf. destruct (Join.patch_response net) as [patch_status|e];
    [|by destruct e].
  destruct (patch_status =? 200)%N; cbn [fst snd]; [|done].
  intros _.
  pose proof (lookup_id_elem sid d db Hk (find_session_elem _ _ _ _ Hf)) as Hl.
  destruct (name_update_fields name now d) as (Hn & Ht & Hc).
  exists (Join.patch_fields (name_update name now) d). split_and!.
  - by apply lookup_id_patch.
  - by rewrite teacher_poll_names, Hn.
  - by rewrite !teacher_poll_transcripts, Ht.
  - by apply teacher_poll_chats.
Qed.

Lemma mute_join_reports_name_witness :
  let db := [("s1", new_session "Biology" "123456" 1700000000)] in
  let net := Join.mkNetwork (Join.Status 200) (Join.Status 200) (Join.Status 200) false in
  ∃ d', lookup_id "s1" (mute_check_session_async "Ravi" "123456" 1700000050 net db).1
        = Some d'
    ∧ names (Teacher.poll Teacher.init (Teacher.Record_ d')).2 = ["Ravi"].
Proof.
  intros db net.
  destruct (mute_join_reports_name "Ravi" "123456" "s1" 1700000050 net db
              (new_session "Biology" "123456" 1700000000) Teacher.init)
    as (d' & Hl & Hn & _).
  - apply (bool_decide_unpack _). vm_compute. exact I.
  - vm_compute. reflexivity.
  - vm_compute. reflexivity.
  - exists d'. split; [exact Hl | exact Hn].
Defined.

Lemma transcript_update_fields (text : string) (now : Z) (d : session) :
  let d' := Join.patch_fields (transcript_update text now) d in
  get_str d' "current_transcript" "" = text
  ∧ get_chat d' = get_chat d
  ∧ d' !! "student_transcript" = d !! "student_transcript"
  ∧ d' !! "student_name" = d !! "student_name".
Proof.
  cbv zeta. unfold get_str, get_chat, Join.patch_fields, transcript_update.
  split_and!.
  - by rewrite (lookup_union_Some_l _ _ _ (JStr text)) by by simplify_map_eq.
  - by rewrite lookup_union_r by by simplify_map_eq.
  - by rewrite lookup_union_r by by simplify_map_eq.
  - by rewrite lookup_union_r by by simplify_map_eq.
Qed.

Lemma deaf_poll_transcripts (code : string) (st : Deaf.state)
    (all : list (string * session)) (id : string) (d : session) :
  find_session code all = Some (id, d) →
  transcripts (Deaf.poll code st (Deaf.Sessions all)).2
  = let t := get_str d "current_transcript" "" in
    (if PyStr.truthy t && bool_decide (t ≠ Deaf.last_transcript st)
     then [t] else []).
Proof.
  intros Hf. cbv zeta. unfold Deaf.poll. rewrite Hf. cbn [snd].
  set (ec := if bool_decide (Deaf.last_chat_count st < length (get_chat d))
             then Deaf.chat_loop _ else _).
  assert (transcripts ec = []) as Hec.
  { subst ec. case_bool_decide; [|done]. unfold Deaf.chat_loop.
    induction (drop _ _) as [|[m|] l IH]; by cbn. }
  change (Connection true :: ?l) with ([Connection true] ++ l).
  rewrite !transcripts_app, Hec, app_nil_r.
  by destruct (PyStr.truthy _ && _).
Qed.

(** X11. A transcript the teacher's page writes reaches the deaf student:
    once the write is applied, the student's listener emits the text at
    its next poll unless it is empty or the text it emitted last; its chat
    events are what they were, and the student's own fields of the record
    are untouched.  Without a session id nothing is written. *)
Theorem teacher_transcript_reaches_student (sid code text : string) (now : Z)
    (a : Join.patch_answer) (db : Join.store) (d : session) (st : Deaf.state) :
  keyed db →
  find_session code db = Some (sid, d) →
  applied a = true →
  let db' := (update_transcript_in_firebase (Some sid) text now a db).1 in
  transcripts (Deaf.poll code st (Deaf.Sessions db')).2
  = (if PyStr.truthy text && bool_decide (text ≠ Deaf.last_transcript st)
     then [text] else [])
  ∧ chats (Deaf.poll code st (Deaf.Sessions db')).2
    = chats (Deaf.poll code st (Deaf.Sessions db)).2
  ∧ (∃ d', lookup_id sid db' = Some d'
       ∧ d' !! "student_transcript" = d !! "student_transcript"
       ∧ d' !! "student_name" = d !! "student_name")
  ∧ update_transcript_in_firebase None text now a db = (db, false).
Proof.
  intros Hk Hf Ha db'.
  pose proof (lookup_id_elem sid d db Hk (find_session_elem _ _ _ _ Hf)) as Hl.
  set (upd := transcript_update text now).
  assert (db' = Join.patch sid upd db) as Hdb.
  { subst db'. unfold update_transcript_in_firebase, write. cbn [fst].
    rewrite Ha. by apply patch_at_present with d. }
  destruct (transcript_update_fields text now d) as (Ht & Hc & Hst & Hsn).
  fold upd in Ht, Hc, Hst, Hsn.
  assert (find_session code db' = Some (sid, Join.patch_fields upd d)) as Hf'.
  { rewrite Hdb. apply find_session_patch; [|done]. subst upd.
    unfold transcript_update. by simplify_map_eq. }
  split_and!.
  - by rewrite (deaf_poll_transcripts _ _ _ _ _ Hf'), Ht.
  - by rewrite (deaf_poll_chats _ _ _ _ _ Hf'), (deaf_poll_chats _ _ _ _ _ Hf), Hc.
  - exists (Join.patch_fields upd d). split_and!; [|done..].
    rewrite Hdb. by apply lookup_id_patch.
  - done.
Qed.

Lemma teacher_transcript_reaches_student_witness :
  let db := [("s1", new_session "Biology" "123456" 1700000000)] in
  let db' := (update_transcript_in_firebase (Some "s1") "Good morning class."
                1700000500 Join.Patched db).1 in
  transcripts (Deaf.poll "123456" Deaf.init (Deaf.Sessions db')).2
  = ["Good morning class."].
Proof.
  intros db db'.
  destruct (teacher_transcript_reaches_student "s1" "123456" "Good morning class."
              1700000500 Join.Patched db
              (new_session "Biology" "123456" 1700000000) Deaf.init)
    as (Ht & _).
  - apply (bool_decide_unpack _). vm_compute. exact I.
  - vm_compute. reflexivity.
  - reflexivity.
  - exact Ht.
Defined.

End StoreFacts.

(** ** Speaking the student's words *)

Section VoiceFacts.
Import PyStr PyText Feed Voice.

Lemma split_words_solid (s : string) : Forall (λ w, is_word w = true) (split s).
Proof.
  unfold is_word. induction s as [|a s IH]; [constructor|]. cbn [split].
  destruct (is_space a) eqn:Ha; [done|].
  destruct s as [|b s']; [constructor; [by cbn; rewrite Ha|constructor]|].
  destruct (is_space b) eqn:Hb.
  - constructor; [by cbn; rewrite Ha | done].
  - destruct (split (String b s')) as [|w ws].
    + constructor; [by cbn; rewrite Ha | constructor].
    + inversion IH as [|? ? Hw Hws]; subst. constructor; [|done].
      apply andb_prop in Hw as [_ Hw]. by cbn; rewrite Ha, Hw.
Qed.

Lemma rstrip_solid (w : string) : solid w = true → rstrip w = w.
Proof.
  induction w as [|a w IH]; [done|]. cbn. intros H.
  apply andb_prop in H as [Ha Hw]. apply negb_true_iff in Ha.
  rewrite (IH Hw). destruct w; [by rewrite Ha | done].
Qed.

Lemma strip_word (w : string) : is_word w = true → strip w = w.
Proof.
  unfold is_word, strip. intros H. apply andb_prop in H as [Hne Hs].
  destruct w as [|a w]; [done|]. cbn in Hs. apply andb_prop in Hs as [Ha Hw].
  apply negb_true_iff in Ha. cbn [lstrip]. rewrite Ha.
  apply rstrip_solid. cbn. by rewrite Ha, Hw.
Qed.

Lemma split_spell (tokens : list string) :
  split (Capture.spell tokens) = concat (split <$> tokens).
Proof.
  induction tokens as [|t tokens IH]; [done|].
  cbn [Capture.spell foldr fmap list_fmap concat]. fold (Capture.spell tokens).
  change (t +:+ " " +:+ Capture.spell tokens)
    with (t +:+ String " "%char (Capture.spell tokens)).
  by rewrite split_app_space, IH.
Qed.

Lemma get_new_words_drop (st : state) (current : string) :
  get_new_words st current
  = drop (length (split (last_full_transcript st))) (split current).
Proof.
  unfold get_new_words.
  destruct (last_full_transcript st) as [|a s] eqn:Hl; cbn [truthy negb]; [done|].
  destruct (Nat.ltb_spec (length (split (String a s))) (length (split current)));
    [done | by rewrite drop_ge].
Qed.

(** The words to speak are found by position, not by comparing
    texts: they are the words of the new transcript beyond the number of
    words of the transcript handled last.  A transcript with no more words
    than the last one yields no word to speak, even if it shares none with
    it. *)
Theorem new_words_by_position (st : state) (current : string) :
  get_new_words st current
  = drop (length (split (last_full_transcript st))) (split current)
  ∧ (length (split current) ≤ length (split (last_full_transcript st)) →
     last_full_transcript st ≠ "" → get_new_words st current = []).
Proof.
  rewrite get_new_words_drop. split; [done|]. intros Hle _. by apply drop_ge.
Qed.

Lemma new_words_by_position_witness :
  get_new_words
    {| tts_enabled := true; last_full_transcript := "HELLO PLEASE ";
       last_spoken_content := "PLEASE"; last_spoken_time := 0;
       student_name := "Asha"; tts_engine := Speech.init |}
    "STOP YES "
  = [].
Proof.
  apply (new_words_by_position
           {| tts_enabled := true; last_full_transcript := "HELLO PLEASE ";
              last_spoken_content := "PLEASE"; last_spoken_time := 0;
              student_name := "Asha"; tts_engine := Speech.init |} "STOP YES ").
  - vm_compute. lia.
  - discriminate.
Defined.

(** X12. When the sentence of the gesture script grows by committed
    tokens, the words to speak are exactly the words of the new tokens:
    with the sentence of some tokens handled last, the sentence of these
    tokens followed by further ones yields the words of the further
    ones, in order. *)
Theorem new_words_of_grown_sentence (st : state) (tokens more : list string) :
  last_full_transcript st = Capture.spell tokens →
  get_new_words st (Capture.spell (tokens ++ more)) = concat (split <$> more).
Proof.
  intros Hl. rewrite get_new_words_drop.
  rewrite Hl, !split_spell, fmap_app, concat_app. by rewrite drop_app_length.
Qed.

Lemma new_words_of_grown_sentence_witness :
  get_new_words
    {| tts_enabled := true; last_full_transcript := "HELLO ";
       last_spoken_content := "HELLO"; last_spoken_time := 0;
       student_name := "Asha"; tts_engine := Speech.init |}
    "HELLO I DID NOT UNDERSTAND "
  = ["I"; "DID"; "NOT"; "UNDERSTAND"].
Proof.
  apply (new_words_of_grown_sentence
           {| tts_enabled := true; last_full_transcript := "HELLO ";
              last_spoken_content := "HELLO"; last_spoken_time := 0;
              student_name := "Asha"; tts_engine := Speech.init |}
           ["HELLO"] ["I DID NOT UNDERSTAND"]).
  reflexivity.
Defined.

Lemma speak_word_queued (st : state) (w : string) (t : Z) :
  is_word w = true → 1 < String.length w →
  queued (speak_word st w t)
  = queued st
      ++ (if bool_decide (w = last_spoken_content st)
             && bool_decide (t - last_spoken_time st < min_speech_interval)%Z
          then [] else [w])
  ∧ last_spoken_content (speak_word st w t) = w.
Proof.
  intros Hw Hlen. unfold speak_word, queued.
  destruct (bool_decide (w = last_spoken_content st)
            && bool_decide (t - last_spoken_time st < min_speech_interval)%Z)
    eqn:Hs.
  - rewrite app_nil_r. split; [done|].
    apply andb_prop in Hs as [Hs _]. by apply bool_decide_eq_true in Hs.
  - cbn [tts_engine last_spoken_content]. split; [|done].
    destruct (speak_queue w (tts_engine st)) as (-> & _).
    rewrite (strip_word w Hw). by rewrite decide_True.
Qed.

Lemma adjacent_distinct_tail (x : string) (l : list string) :
  adjacent_distinct (x :: l) → adjacent_distinct l.
Proof. intros H i a b Ha Hb. by apply (H (S i)). Qed.

Lemma speak_each_voiced (clock : nat → Z) (ws : list string) :
  Forall (λ w, is_word w = true) ws →
  ∀ (st : state) (i : nat),
    queued (speak_each st i clock ws)
    = queued st
        ++ voiced (last_spoken_content st) (last_spoken_time st) i clock ws.
Proof.
  induction 1 as [|w ws Hw Hws IH]; intros st i.
  - cbn. by rewrite app_nil_r.
  - cbn [speak_each voiced].
    destruct (Nat.ltb_spec 1 (String.length w)) as [Hlen|Hlen]; [|apply IH].
    rewrite IH. destruct (speak_word_queued st w (clock i) Hw Hlen) as [Hq Hlast].
    rewrite Hq. unfold speak_word. unfold min_speech_interval.
    destruct (bool_decide (w = last_spoken_content st)
              && bool_decide (clock i - last_spoken_time st < 2000)%Z) eqn:Hs.
    + by rewrite app_nil_r.
    + cbn [last_spoken_content last_spoken_time]. by rewrite <- app_assoc.
Qed.

Lemma voiced_sublist (clock : nat → Z) (ws : list string) (content : string)
    (time : Z) (i : nat) :
  voiced content time i clock ws `sublist_of` filter (λ w, 1 < String.length w) ws.
Proof.
  revert content time i. induction ws as [|w ws IH]; intros content time i; [done|].
  cbn [voiced]. rewrite filter_cons.
  destruct (Nat.ltb_spec 1 (String.length w)) as [Hlen|Hlen].
  - rewrite decide_True by done.
    destruct (_ && _); [by apply sublist_cons | by apply sublist_skip].
  - rewrite decide_False by lia. apply IH.
Qed.

Lemma voiced_distinct (clock : nat → Z) (ws : list string) (content : string)
    (time : Z) (i : nat) :
  adjacent_distinct (content :: filter (λ w, 1 < String.length w) ws) →
  voiced content time i clock ws = filter (λ w, 1 < String.length w) ws.
Proof.
  revert content time i. induction ws as [|w ws IH]; intros content time i; [done|].
  cbn [voiced]. rewrite filter_cons.
  destruct (Nat.ltb_spec 1 (String.length w)) as [Hlen|Hlen].
  - rewrite decide_True by done. intros Hadj.
    rewrite bool_decide_false.
    2:{ intros ->. by apply (Hadj 0 content content). }
    cbn [andb]. f_equal. by apply IH, adjacent_distinct_tail with content.
  - rewrite decide_False by lia. apply IH.
Qed.

(** X13. Handling a transcript adds to the speech queue, in their order,
    words of the transcript that are new by position and longer than one
    character.  Such a word is left out exactly when it is the content
    spoken last and less than 2 s have passed since that was spoken: a
    single new word that repeats what was spoken last is left out at a
    reading of the clock within 2 s of it and spoken again at a later one,
    and in general the queue grows by [voiced], which follows this rule
    word by word.  So when no two such words in a row are equal and the
    first differs from the last spoken content, exactly these words are
    queued.  With speech disabled, a blank transcript or a system message
    nothing is queued. *)
Theorem spoken_words_are_new_words (st : state) (transcript : string)
    (clock : nat → Z) :
  let new_words := get_new_words st transcript in
  let wanted := filter (λ w, 1 < String.length w) new_words in
  let spoken :=
    if tts_enabled st && truthy (strip transcript)
       && negb (is_system_message transcript)
    then voiced (last_spoken_content st) (last_spoken_time st) 0 clock new_words
    else [] in
  queued (speak_new_words st transcript clock) = queued st ++ spoken
  ∧ spoken `sublist_of` wanted
  ∧ (tts_enabled st = true → strip transcript ≠ "" →
     is_system_message transcript = false →
     (adjacent_distinct (last_spoken_content st :: wanted) → spoken = wanted)
     ∧ (∀ w, new_words = [w] → 1 < String.length w →
          spoken
          = if bool_decide (w = last_spoken_content st)
               && bool_decide (clock 0%nat - last_spoken_time st
                               < min_speech_interval)%Z
            then [] else [w])).
Proof.
  intros new_words wanted spoken.
  assert (Forall (λ w, is_word w = true) new_words) as Hwords.
  { subst new_words. rewrite get_new_words_drop.
    apply Forall_drop, split_words_solid. }
  assert (spoken `sublist_of` wanted) as Hsub.
  { subst spoken. destruct (_ && _); [apply voiced_sublist | apply sublist_nil_l]. }
  split_and!; [|done|].
  - subst spoken. unfold speak_new_words.
    destruct (tts_enabled st); cbn [negb orb andb]; [|by rewrite app_nil_r].
    destruct (truthy (strip transcript)); cbn [negb andb]; [|by rewrite app_nil_r].
    destruct (is_system_message transcript); cbn [negb]; [by rewrite app_nil_r|].
    by rewrite (speak_each_voiced clock _ Hwords).
  - intros He Hne Hsys. subst spoken. rewrite He, Hsys.
    assert (truthy (strip transcript) = true) as -> by (by destruct (strip transcript)).
    cbn [andb negb]. split; [apply voiced_distinct|].
    intros w Hw Hlen. rewrite Hw. cbn [voiced].
    destruct (Nat.ltb_spec 1 (String.length w)); [done | lia].
Qed.

Lemma spoken_words_are_new_words_witness :
  let st := {| tts_enabled := true; last_full_transcript := "HELLO ";
               last_spoken_content := "HELLO"; last_spoken_time := 0;
               student_name := "Asha"; tts_engine := Speech.init |} in
  queued (speak_new_words st "HELLO I DID NOT UNDERSTAND "
            (λ i, 5000 + Z.of_nat i)%Z)
  = ["DID"; "NOT"; "UNDERSTAND"]
  ∧ queued (speak_new_words st "HELLO HELLO " (λ _, 1500%Z)) = []
  ∧ queued (speak_new_words st "HELLO HELLO " (λ _, 2000%Z)) = ["HELLO"].
Proof.
  intros st. split_and!.
  - destruct (spoken_words_are_new_words st "HELLO I DID NOT UNDERSTAND "
                (λ i, 5000 + Z.of_nat i)%Z) as (-> & _ & Hex).
    destruct Hex as [Hex _]; [reflexivity | vm_compute; discriminate | reflexivity |].
    rewrite Hex; [reflexivity|].
    intros [|[|[|[|i]]]] x y Hx Hy; vm_compute in Hx, Hy; simplify_eq; discriminate.
  - destruct (spoken_words_are_new_words st "HELLO HELLO " (λ _, 1500%Z))
      as (-> & _ & Hex).
    destruct Hex as [_ Hex]; [reflexivity | vm_compute; discriminate | reflexivity |].
    rewrite (Hex "HELLO"); [reflexivity | reflexivity | vm_compute; lia].
  - destruct (spoken_words_are_new_words st "HELLO HELLO " (λ _, 2000%Z))
      as (-> & _ & Hex).
    destruct Hex as [_ Hex]; [reflexivity | vm_compute; discriminate | reflexivity |].
    rewrite (Hex "HELLO"); [reflexivity | reflexivity | vm_compute; lia].
Defined.

(** X14. The placeholder of a new session is never spoken: at its first
    poll of a freshly created session the teacher's listener does emit the
    placeholder transcript and the placeholder name, but the handlers take
    the transcript for a system message, so the speech queue stays empty
    and only the displayed name changes. *)
Theorem placeholder_is_not_spoken (session_name code : string) (now : Z)
    (clock : nat → Z) :
  let evs := (Teacher.poll Teacher.init
                (Teacher.Record_ (Store.new_session session_name code now))).2 in
  transcripts evs = ["Student has not started signing yet..."]
  ∧ Store.names evs = ["Waiting for student..."]
  ∧ queued (foldl (handle clock) init evs) = []
  ∧ last_full_transcript (foldl (handle clock) init evs) = ""
  ∧ student_name (foldl (handle clock) init evs) = "Waiting for student...".
Proof.
  intros evs.
  assert (evs = [Connection true; StudentInfo "Waiting for student...";
                 Transcript "Student has not started signing yet..."]) as ->.
  { subst evs. unfold Teacher.poll, get_str, get_chat, Store.new_session.
    by simplify_map_eq. }
  by vm_compute.
Qed.

End VoiceFacts.


(* ================================================================== *)
(** * The forms *)

Section FormsFacts.
Import PyStr PyText Feed Store Forms.

Lemma digit_of_digit (d : N) :
  (d < 10)%N →
  digit_char (digit_of d) = true ∧ is_space (digit_of d) = false.
Proof.
  intros Hd.
  assert (d = 0 ∨ d = 1 ∨ d = 2 ∨ d = 3 ∨ d = 4 ∨ d = 5 ∨ d = 6 ∨ d = 7
          ∨ d = 8 ∨ d = 9)%N as Hc by lia.
  destruct Hc as [->|[->|[->|[->|[->|[->|[->|[->|[->| ->]]]]]]]]];
    by vm_compute.
Qed.

Lemma str_go_all (P : ascii → bool) (fuel : nat) :
  (∀ d, (d < 10)%N → P (digit_of d) = true) →
  ∀ (n : N) (acc : string),
    all_chars P acc = true → all_chars P (str_go fuel n acc) = true.
Proof.
  intros HP. induction fuel as [|fuel IH]; intros n acc Hacc; cbn [str_go].
  - cbn [all_chars]. rewrite HP, Hacc; [done|]. apply N.mod_lt. lia.
  - assert (all_chars P (String (digit_of (n mod 10)) acc) = true) as H'.
    { cbn [all_chars]. rewrite HP, Hacc; [done|]. apply N.mod_lt. lia. }
    destruct (n / 10 =? 0)%N; [done|]. by apply IH.
Qed.

Lemma solid_all_chars (s : string) :
  solid s = all_chars (λ a, negb (is_space a)) s.
Proof. induction s as [|a s IH]; [done|]. cbn. by rewrite IH. Qed.

Lemma str_go_truthy (fuel : nat) (n : N) (acc : string) :
  truthy (str_go fuel n acc) = true.
Proof.
  revert n acc. induction fuel as [|fuel IH]; intros n acc; cbn [str_go];
    [done|]. destruct (n / 10 =? 0)%N; [done|]. apply IH.
Qed.

Lemma str_isdigit (n : N) : isdigit (str n) = true.
Proof.
  unfold isdigit, str. rewrite str_go_truthy. cbn [andb].
  apply str_go_all; [|done]. intros d Hd. by apply digit_of_digit.
Qed.

Lemma str_is_word (n : N) : is_word (str n) = true.
Proof.
  unfold is_word, str. rewrite str_go_truthy. cbn [andb].
  rewrite solid_all_chars. apply str_go_all; [|done].
  intros d Hd. destruct (digit_of_digit d Hd) as [_ ->]. done.
Qed.

Local Ltac div_lia := zify; Z.to_euclidean_division_equations; lia.

Lemma str_six_digits (r : N) : randint_range r → String.length (str r) = 6.
Proof.
  intros [Hlo Hhi]. unfold str.
  assert (16 ≤ N.log2 r)%N as Hlog.
  { change 16%N with (N.log2 100000). by apply N.log2_le_mono. }
  destruct (N.to_nat (N.log2 r)) as [|[|[|[|[|f]]]]] eqn:Hf; try lia.
  cbn [str_go].
  destruct (N.eqb_spec (r / 10) 0); [div_lia|].
  destruct (N.eqb_spec (r / 10 / 10) 0); [div_lia|].
  destruct (N.eqb_spec (r / 10 / 10 / 10) 0); [div_lia|].
  destruct (N.eqb_spec (r / 10 / 10 / 10 / 10) 0); [div_lia|].
  destruct (N.eqb_spec (r / 10 / 10 / 10 / 10 / 10) 0); [div_lia|].
  destruct f as [|f]; cbn [str_go]; [done|].
  destruct (N.eqb_spec (r / 10 / 10 / 10 / 10 / 10 / 10) 0); [done|div_lia].
Qed.

(** X15. The code a teacher's page shows is always accepted by the
    students' join forms: for any number [random.randint(100000, 999999)]
    can draw, its [str] has six characters, all digits, so a student who
    enters it, with or without white space around it, and a name that is
    not blank gets past every check of [check_session], which stores the
    stripped name and exactly the teacher's code. *)
Theorem shown_code_passes_the_form (r : N) (name_input code_input : string) :
  randint_range r →
  has_ink name_input = true →
  strip code_input = str r →
  check_session name_input code_input = Joining (strip name_input) (str r).
Proof.
  intros Hr Hname Hcode. unfold check_session. rewrite Hcode.
  destruct (strip name_input) eqn:Hn.
  { rewrite <- strip_keeps_ink, Hn in Hname. done. }
  cbn [truthy negb].
  pose proof (str_isdigit r) as Hd. pose proof (str_six_digits r Hr) as Hl.
  rewrite Hd, Hl. cbn [negb orb Nat.eqb].
  destruct (str r) eqn:Hs; [done|]. done.
Qed.

Lemma shown_code_passes_the_form_witness :
  check_session "  Asha " " 482913  " = Joining "Asha" "482913".
Proof.
  apply (shown_code_passes_the_form 482913 "  Asha " " 482913  ");
    [by vm_compute | reflexivity | reflexivity].
Defined.

Lemma find_session_app (code : string) (pre rest : Join.store) :
  find_session code (pre ++ rest)
  = match find_session code pre with
    | Some rec => Some rec
    | None => find_session code rest
    end.
Proof.
  induction pre as [|[i d] pre IH]; [done|]. cbn [app find_session].
  by destruct (has_code code d).
Qed.

Lemma find_session_none (code : string) (pre : Join.store) :
  Forall (λ rec, ¬ carries code rec) pre → find_session code pre = None.
Proof.
  induction 1 as [|[i d] pre Hn _ IH]; [done|]. cbn [find_session].
  unfold carries in Hn. cbn in Hn. by destruct (has_code code d).
Qed.

Lemma new_session_carries (session_name code : string) (now : Z) :
  has_code code (Store.new_session session_name code now) = true.
Proof.
  unfold has_code, Store.new_session.
  rewrite andb_true_iff, !bool_decide_eq_true. split; [|by simplify_map_eq].
  intros H. apply (f_equal (λ m : session, m !! "session_code")) in H.
  by simplify_map_eq.
Qed.

Lemma create_session_record (session_input : string) (r : N) (now : Z)
    (code : string) (d : session) :
  create_session session_input r now = Some (code, d) →
  code = str r ∧ d = Store.new_session (strip session_input) code now.
Proof.
  unfold create_session. destruct (truthy (strip session_input)); [|done].
  cbn [negb]. by intros [= <- <-].
Qed.

Lemma lookup_id_patch_ne (id sid : string) (upd : session) (db : Join.store) :
  id ≠ sid → lookup_id id (Join.patch sid upd db) = lookup_id id db.
Proof.
  intros Hne. unfold Join.patch. induction db as [|[i d0] db IH]; [done|].
  cbn [lookup_id fmap list_fmap].
  destruct (decide (i = sid)) as [->|Hi]; cbn [lookup_id].
  - rewrite !decide_False by done. apply IH.
  - destruct (decide (i = id)); [done|]. apply IH.
Qed.

Lemma network_answers (net : Join.network) :
  Join.test_ok net = true → Join.sessions_ok net = true →
  Join.patch_result net = Join.Patched →
  Join.test_response net = Join.Status 200
  ∧ Join.response net = Join.Status 200
  ∧ Join.patch_response net = Join.Status 200.
Proof.
  unfold Join.test_ok, Join.sessions_ok, Join.patch_result, Join.answered_200.
  destruct (Join.test_response net) as [c1|]; [|done].
  destruct (Join.response net) as [c2|]; [|done].
  destruct (Join.patch_response net) as [c3|]; [|done].
  destruct (N.eqb_spec c1 200) as [->|]; [|done].
  destruct (N.eqb_spec c2 200) as [->|]; [|done].
  destruct (N.eqb_spec c3 200) as [->|]; done.
Qed.

(** X16. A session a teacher has created can be joined with the code
    shown: the record [create_session] posts carries the code in the field
    the join looks up, so when the network answers and no record earlier in
    the store carries the same code, the join of either student page
    finds this record, patches it and ends in [Joined]. *)
Theorem created_session_is_joinable (session_input name code id : string)
    (r : N) (now later : Z) (d : session) (pre post : Join.store)
    (net : Join.network) :
  create_session session_input r now = Some (code, d) →
  Forall (λ rec, ¬ carries code rec) pre →
  Join.test_ok net = true → Join.sessions_ok net = true →
  Join.patch_result net = Join.Patched →
  let db := pre ++ (id, d) :: post in
  Join._check_session_async name code later net db
  = (Join.patch id (Join.update_data name later) db, Join.Joined)
  ∧ Store.mute_check_session_async name code later net db
    = (Join.patch id (Store.name_update name later) db, Join.Joined).
Proof.
  intros Hc Hpre Ht Hs Hp db.
  apply create_session_record in Hc as [_ ->].
  assert (find_session code db
          = Some (id, Store.new_session (strip session_input) code now)) as Hf.
  { subst db. rewrite find_session_app, find_session_none by done.
    cbn [find_session]. by rewrite new_session_carries. }
  destruct (network_answers net Ht Hs Hp) as (Ht' & Hs' & Hp').
  unfold Join._check_session_async, Store.mute_check_session_async.
  by rewrite Ht', Hs', Hp', Hf.
Qed.

Lemma created_session_is_joinable_witness :
  let d := Store.new_session "Biology" "482913" 1700000000 in
  let older := ("s0", Store.new_session "History" "771204" 1690000000) in
  let net := Join.mkNetwork (Join.Status 200) (Join.Status 200) (Join.Status 200) false in
  (Join._check_session_async "Asha" "482913" 1700000100 net [older; ("s1", d)]).2
  = Join.Joined.
Proof.
  intros d older net.
  assert (Forall (λ rec, ¬ carries "482913" rec) [older]) as Hpre.
  { apply (bool_decide_unpack _). by vm_compute. }
  exact (f_equal snd
           (proj1 (created_session_is_joinable " Biology " "Asha" "482913" "s1"
                     482913 1700000000 1700000100 d [older] [] net
                     eq_refl Hpre eq_refl eq_refl eq_refl))).
Defined.

(** X17. Codes are drawn without looking at the store, and the join takes
    the first record that carries the code.  So when an earlier record of
    the store carries the code of a newly created session, a student who
    enters the code is joined to the earlier record: the join succeeds, the
    earlier record is patched, and the new session's record stays as it was
    created. *)
Theorem earlier_session_with_same_code_wins
    (session_input name code id id0 : string) (r : N) (now later : Z)
    (d d0 : session) (pre post : Join.store) (net : Join.network) :
  create_session session_input r now = Some (code, d) →
  find_session code pre = Some (id0, d0) →
  Store.keyed (pre ++ (id, d) :: post) →
  Join.test_ok net = true → Join.sessions_ok net = true →
  Join.patch_result net = Join.Patched →
  let joined := Join._check_session_async name code later net
                  (pre ++ (id, d) :: post) in
  joined.2 = Join.Joined
  ∧ lookup_id id joined.1 = Some d
  ∧ lookup_id id0 joined.1
    = Some (Join.patch_fields (Join.update_data name later) d0).
Proof.
  intros _ Hf Hk Ht Hs Hp joined. subst joined.
  destruct (network_answers net Ht Hs Hp) as (Ht' & Hs' & Hp').
  unfold Join._check_session_async.
  rewrite Ht', Hs', find_session_app, Hf, Hp'. cbn [N.eqb Pos.eqb negb fst snd].
  pose proof (find_session_elem _ _ _ _ Hf) as Hin0.
  assert (lookup_id id0 (pre ++ (id, d) :: post) = Some d0) as Hl0.
  { apply lookup_id_elem; [done|]. apply elem_of_app. by left. }
  assert (lookup_id id (pre ++ (id, d) :: post) = Some d) as Hl.
  { apply lookup_id_elem; [done|]. apply elem_of_app. right.
    apply list_elem_of_here. }
  assert (id ≠ id0) as Hne.
  { intros ->. unfold Store.keyed in Hk. rewrite fmap_app in Hk.
    apply NoDup_app in Hk as (_ & Hk & _). apply (Hk id0).
    - apply list_elem_of_fmap. by exists (id0, d0).
    - cbn. apply list_elem_of_here. }
  split_and!; [done | by rewrite lookup_id_patch_ne | by apply lookup_id_patch].
Qed.

Lemma earlier_session_with_same_code_wins_witness :
  let d := Store.new_session "Biology" "482913" 1700000000 in
  let older := ("s0", Store.new_session "History" "482913" 1690000000) in
  let net := Join.mkNetwork (Join.Status 200) (Join.Status 200) (Join.Status 200) false in
  lookup_id "s1"
    (Join._check_session_async "Asha" "482913" 1700000100 net [older; ("s1", d)]).1
  = Some d.
Proof.
  intros d older net.
  destruct (earlier_session_with_same_code_wins " Biology " "Asha" "482913" "s1" "s0"
              482913 1700000000 1700000100 d older.2 [older] [] net)
    as (_ & H & _);
    [reflexivity | reflexivity | | reflexivity | reflexivity | reflexivity | exact H].
  apply (bool_decide_unpack _). by vm_compute.
Defined.

End FormsFacts.


(* ================================================================== *)
(** * The assistant's chat display *)

Section HtmlFacts.
Import PyStr PyText Html.

Lemma replace_char_cons (c a : ascii) (new s : string) :
  replace (char c) new (String a s)
  = (if decide (a = c) then new else char a) +:+ replace (char c) new s.
Proof.
  unfold replace, char. cbn [replace_go String.prefix String.length Nat.sub].
  assert (String.prefix EmptyString s = true) as Hp by (by destruct s).
  destruct (ascii_dec c a) as [->|Hne]; rewrite ?Hp.
  - by rewrite decide_True.
  - rewrite decide_False by done. done.
Qed.

Lemma replace_char_expand (c : ascii) (new s : string) :
  replace (char c) new s = expand (λ a, if decide (a = c) then new else char a) s.
Proof.
  induction s as [|a s IH]; [done|].
  rewrite replace_char_cons, IH. done.
Qed.

Lemma expand_app (f : ascii → string) (x y : string) :
  expand f (x +:+ y) = expand f x +:+ expand f y.
Proof.
  induction x as [|a x IH]; [done|].
  change (String a x +:+ y) with (String a (x +:+ y)). cbn [expand].
  by rewrite IH, append_assoc.
Qed.

Lemma expand_expand (f g : ascii → string) (s : string) :
  expand g (expand f s) = expand (λ a, expand g (f a)) s.
Proof.
  induction s as [|a s IH]; [done|]. cbn [expand]. by rewrite expand_app, IH.
Qed.

Lemma expand_ext (f g : ascii → string) (s : string) :
  (∀ a, f a = g a) → expand f s = expand g s.
Proof. intros H. induction s as [|a s IH]; [done|]. cbn. by rewrite H, IH. Qed.

(** The five replacements in a row amount to one pass that replaces each
    character by its entity: no replacement touches what an earlier one
    wrote. *)
Lemma escape_html_expand (text : string) :
  escape_html text = expand entity text.
Proof.
  unfold escape_html. destruct text as [|a0 s0]; [done|]. cbn [truthy negb].
  rewrite !replace_char_expand, !expand_expand. apply expand_ext. intros a.
  unfold entity.
  destruct (decide (a = amp)) as [->|Ha]; [by vm_compute|].
  destruct (decide (a = lt)) as [->|Hl]; [by vm_compute|].
  destruct (decide (a = gt)) as [->|Hg]; [by vm_compute|].
  destruct (decide (a = quot)) as [->|Hq]; [by vm_compute|].
  destruct (decide (a = apos)) as [->|Hp]; [by vm_compute|].
  unfold char. cbn [expand].
  rewrite (decide_False (P := a = lt)) by done. cbn [expand String.append].
  rewrite (decide_False (P := a = gt)) by done. cbn [expand String.append].
  rewrite (decide_False (P := a = quot)) by done. cbn [expand String.append].
  rewrite (decide_False (P := a = apos)) by done. done.
Qed.

Lemma all_chars_app (p : ascii → bool) (x y : string) :
  all_chars p (x +:+ y) = all_chars p x && all_chars p y.
Proof.
  induction x as [|a x IH]; [done|].
  change (String a x +:+ y) with (String a (x +:+ y)). cbn [all_chars].
  by rewrite IH, andb_assoc.
Qed.

Lemma entity_free_of_markup (a : ascii) :
  all_chars (λ b, negb (markup b)) (entity a) = true.
Proof.
  unfold entity. repeat case_decide; try by vm_compute.
  cbn. unfold markup. rewrite !bool_decide_false by done. done.
Qed.

(** X18. What [escape_html] returns holds none of the characters
    [<], [>], the double quote and the apostrophe, whatever the text; and
    a text without these and without [&] is returned as it is. *)
Theorem escaped_text_has_no_markup (text : string) :
  all_chars (λ b, negb (markup b)) (escape_html text) = true
  ∧ (all_chars (λ b, negb (markup b) && negb (bool_decide (b = amp))) text = true →
     escape_html text = text).
Proof.
  rewrite escape_html_expand. split.
  - induction text as [|a s IH]; [done|]. cbn [expand].
    by rewrite all_chars_app, entity_free_of_markup, IH.
  - induction text as [|a s IH]; [done|]. cbn [expand all_chars].
    rewrite !andb_true_iff, !negb_true_iff. intros [[Hm Ha] Hs].
    rewrite IH by done. unfold markup in Hm.
    rewrite !orb_false_iff in Hm. destruct Hm as [[[Hl Hg] Hq] Hp].
    apply bool_decide_eq_false in Ha, Hl, Hg, Hq, Hp.
    unfold entity. by rewrite !decide_False by done.
Qed.

Lemma escaped_text_has_no_markup_witness :
  escape_html "2 + 2 = 4" = "2 + 2 = 4".
Proof. apply (escaped_text_has_no_markup "2 + 2 = 4"). reflexivity. Defined.

Lemma entity_split (a b : ascii) (x y : string) :
  entity a +:+ x = entity b +:+ y → a = b ∧ x = y.
Proof.
  unfold entity, char.
  destruct (decide (a = amp)) as [->|Ha]; [|
  destruct (decide (a = lt)) as [->|Hl]; [|
  destruct (decide (a = gt)) as [->|Hg]; [|
  destruct (decide (a = quot)) as [->|Hq]; [|
  destruct (decide (a = apos)) as [->|Hp]]]]];
  (destruct (decide (b = amp)) as [->|Hb]; [|
   destruct (decide (b = lt)) as [->|Hbl]; [|
   destruct (decide (b = gt)) as [->|Hbg]; [|
   destruct (decide (b = quot)) as [->|Hbq]; [|
   destruct (decide (b = apos)) as [->|Hbp]]]]]);
  cbn; intros H; try discriminate H; by simplify_eq.
Qed.

Lemma entity_truthy (a : ascii) (x : string) : entity a +:+ x ≠ EmptyString.
Proof. unfold entity, char. by repeat case_decide. Qed.

(** X19. [escape_html] loses nothing: two texts with the same escaped form
    are the same text. *)
Theorem escape_html_injective (text1 text2 : string) :
  escape_html text1 = escape_html text2 → text1 = text2.
Proof.
  rewrite !escape_html_expand. revert text2.
  induction text1 as [|a s IH]; intros [|b t]; cbn [expand]; intros H.
  - done.
  - symmetry in H. by apply entity_truthy in H.
  - by apply entity_truthy in H.
  - apply entity_split in H as [-> H]. f_equal. by apply IH.
Qed.

Lemma escape_html_injective_witness :
  escape_html "a<b" = escape_html "a<b" ∧ "a<b" = "a<b".
Proof. split; [reflexivity | apply (escape_html_injective "a<b" "a<b"); reflexivity]. Defined.

(** X20. In a reply of the assistant as [add_message] formats it, the only
    markup is the line break: the six replacements amount to one pass over
    the message in which a newline becomes [<br>], each of the five special
    characters becomes its entity and any other character stays. *)
Theorem formatted_reply_only_breaks (message : string) :
  formatted_message message
  = expand (λ a, if decide (a = newline) then "<br>" else entity a) message.
Proof.
  unfold formatted_message.
  rewrite escape_html_expand, replace_char_expand, expand_expand.
  apply expand_ext. intros a. unfold entity.
  destruct (decide (a = newline)) as [->|Hn]; [by vm_compute|].
  repeat case_decide; try by vm_compute.
  unfold char. cbn [expand]. by rewrite decide_False by done.
Qed.

End HtmlFacts.


(* ================================================================== *)
(** * The visual concept *)

Section ConceptFacts.
Import PyStr PyText Concept.

Lemma split_word (w : string) : is_word w = true → split w = [w].
Proof.
  unfold is_word. induction w as [|a s IH]; [done|]. cbn [truthy andb solid].
  intros H. apply andb_prop in H as [Ha Hs]. apply negb_true_iff in Ha.
  cbn [split]. rewrite Ha. destruct s as [|b s']; [done|].
  cbn [solid] in Hs. apply andb_prop in Hs as [Hb Hs']. apply negb_true_iff in Hb.
  rewrite Hb. rewrite IH; [done|]. cbn [truthy andb solid]. by rewrite Hb, Hs'.
Qed.

Lemma split_join_words (ws : list string) :
  Forall (λ w, is_word w = true) ws → split (join " " ws) = ws.
Proof.
  unfold join. induction 1 as [|x ws Hx Hws IH]; [done|].
  destruct ws as [|y ws]; [by apply split_word|].
  change (String.concat " " (x :: y :: ws))
    with (x +:+ String " "%char (String.concat " " (y :: ws))).
  by rewrite split_app_space, IH, split_word.
Qed.

Lemma joined_words_between (k : nat) (s : string) :
  words_between 0 k (join " " (take k (split s))).
Proof.
  unfold words_between. rewrite split_join_words.
  - rewrite length_take. lia.
  - apply Forall_take, split_words_solid.
Qed.

Lemma parse_line_well (d : data) (line : string) :
  parsed_well d → parsed_well (parse_line d line).
Proof.
  intros [Hp Hc]. unfold parse_line.
  destruct (truthy (strip line)); cbn [negb]; [|done].
  destruct (startswith "CONCEPT:" (strip line)).
  { split; [done|]. apply joined_words_between. }
  destruct (startswith "VISUAL_TYPE:" (strip line)); [done|].
  destruct (startswith "-" (strip line)); [|done].
  destruct (take 3 (split (strip (replace "-" "" (strip line))))) as [|w ws] eqn:Hw;
    [done|].
  split; [|done]. cbn [points]. apply Forall_app. split; [done|].
  constructor; [|constructor].
  pose proof (joined_words_between 3 (strip (replace "-" "" (strip line)))) as Hb.
  unfold words_between in *. rewrite Hw in Hb. split; [|lia].
  rewrite split_join_words; [cbn; lia|].
  rewrite <- Hw. apply Forall_take, split_words_solid.
Qed.

Lemma parse_lines_well (lines : list string) (d : data) :
  parsed_well d → parsed_well (foldl parse_line d lines).
Proof.
  revert d. induction lines as [|l lines IH]; intros d Hd; [done|].
  cbn [foldl]. by apply IH, parse_line_well.
Qed.

(** X21. What the renderer gets from [_parse_concept_clearly]: for any
    concept text that is not empty, three or four points, each of one to
    three words, and a title of at most four words, whatever the text
    holds; the default points stand in when fewer than three were found.
    For the empty text it gets no point at all. *)
Theorem parsed_concept_shape (visual_concept : string) :
  let d := _parse_concept_clearly visual_concept in
  (visual_concept = "" → points d = [] ∧ concept d = "Teaching Concept")
  ∧ (visual_concept ≠ "" → 3 ≤ length (points d) ≤ 4)
  ∧ Forall (words_between 1 3) (points d)
  ∧ words_between 0 4 (concept d).
Proof.
  intros d. subst d. unfold _parse_concept_clearly.
  destruct visual_concept as [|a s]; cbn [truthy negb].
  { split_and!; [done | by intros [] | apply Forall_nil_2 | by (unfold words_between; vm_compute; lia)]. }
  set (d := foldl parse_line _ _).
  assert (parsed_well d) as [Hp Hc].
  { apply parse_lines_well. split; [apply Forall_nil_2 | by (unfold words_between; vm_compute; lia)]. }
  cbn [points concept]. split_and!; [done | | | done].
  - intros _. destruct (Nat.ltb_spec (length (points d)) 3).
    + vm_compute. lia.
    + rewrite length_take. lia.
  - apply Forall_take. destruct (length (points d) <? 3); [|done].
    repeat constructor; unfold words_between; vm_compute; lia.
Qed.

End ConceptFacts.


(* ================================================================== *)
(** * The chunks of the visualisation and its cache *)

Section VisualChunks.
Import PyStr PyText Visual.
Context {pixmap : Type} (hash : string → Z).
Implicit Types (d : list (Z * pixmap)) (k : Z) (p : pixmap).

Lemma dict_get_app d1 d2 k :
  dict_get (d1 ++ d2) k
  = match dict_get d1 k with Some v => Some v | None => dict_get d2 k end.
Proof.
  induction d1 as [|[k0 v0] d1 IH]; [done|]. cbn. by case_decide.
Qed.

Lemma dict_get_set d k p : dict_get (dict_set d k p) k = Some p.
Proof.
  induction d as [|[k0 v0] d IH]; cbn.
  - by rewrite decide_True.
  - case_decide as Hk; cbn; [by rewrite decide_True | by rewrite decide_False].
Qed.

Lemma dict_get_tail_None d k : dict_get d k = None → dict_get (tail d) k = None.
Proof. destruct d as [|[k0 v0] d]; [done|]. cbn. by case_decide. Qed.

Lemma cache_store_get d k p :
  length d ≤ 10 → dict_get (cache_store d k p) k = Some p.
Proof.
  intros Hd. unfold cache_store, pop_first. case_bool_decide as Hlen;
    [|apply dict_get_set].
  rewrite dict_set_length in Hlen.
  destruct (dict_get d k) eqn:Hk; [lia|].
  rewrite dict_set_fresh by done.
  destruct d as [|[k0 v0] d]; [cbn in Hlen; lia|].
  pose proof (dict_get_tail_None _ _ Hk) as Ht. cbn [tail] in Ht.
  cbn [app tail]. rewrite dict_get_app, Ht. cbn. by rewrite decide_True.
Qed.

(** X22. Once the cooldown has passed and no generation is in flight, a
    transcript with at least one word starts a visualisation exactly when
    the extended buffer holds 20 words or more: the comparison of the chunk
    counts never stands in the way.  The chunk is then the 20 oldest words
    of the buffer joined by single spaces, so that splitting it gives these
    20 words back; they leave the buffer, the rest waits for a later call,
    and the buffer holds words only. *)
Theorem chunk_is_twenty_oldest_words (st : state pixmap) (transcript : string)
    (now : Z) :
  Forall (λ w, is_word w = true) (word_buffer st) →
  (visualization_cooldown <= now - last_visualization_time st)%Z →
  is_generating_visual st = false →
  split transcript ≠ [] →
  let buf := word_buffer st ++ split transcript in
  let chunk_text := join " " (take 20 buf) in
  let st' := (process_for_visualization hash st transcript now).1 in
  let effects := (process_for_visualization hash st transcript now).2 in
  Forall (λ w, is_word w = true) (word_buffer st')
  ∧ (20 ≤ length buf →
     effects = generate_visualization hash st chunk_text ++ [ResetFlagLater]
     ∧ split chunk_text = take 20 buf
     ∧ length (split chunk_text) = 20
     ∧ word_buffer st' = drop 20 buf
     ∧ is_generating_visual st' = true
     ∧ last_visualization_time st' = now)
  ∧ (length buf < 20 →
     effects = [] ∧ word_buffer st' = buf
     ∧ last_visualization_time st' = last_visualization_time st).
Proof.
  intros Hbuf Hcool Hgen Hne buf chunk_text st' effects.
  assert (Forall (λ w, is_word w = true) buf) as Hwords.
  { apply Forall_app. split; [done | apply split_words_solid]. }
  subst st' effects. unfold process_for_visualization.
  rewrite Hgen, orb_false_r, bool_decide_false by lia.
  rewrite bool_decide_false by (destruct (split transcript); [done | cbn; lia]).
  fold buf. unfold word_count_threshold.
  destruct (decide (20 ≤ length buf)) as [Hlen|Hlen].
  - rewrite (bool_decide_true (20 ≤ length buf)) by done.
    rewrite bool_decide_true.
    2:{ change (Z.of_nat 20) with 20%Z.
        assert (20 <= Z.of_nat (length buf))%Z by lia.
        Z.to_euclidean_division_equations; lia. }
    cbn [andb fst snd word_buffer is_generating_visual last_visualization_time].
    fold chunk_text. split_and!.
    + by apply Forall_drop.
    + intros _. assert (split chunk_text = take 20 buf) as Hs.
      { subst chunk_text. apply split_join_words. by apply Forall_take. }
      split_and!; try done. rewrite Hs, length_take. lia.
    + lia.
  - rewrite (bool_decide_false (20 ≤ length buf)) by done.
    cbn [andb fst snd word_buffer is_generating_visual last_visualization_time].
    split_and!; [done | lia | done].
Qed.

(** X23. A picture that was rendered is found again, by any chunk with
    the same first 50 characters: with a cache within its bound of 10
    entries, after a generation under the key of one chunk that yielded a
    picture, a chunk that starts with the same 50 characters is shown this
    picture from the cache, and nothing is generated for it. *)
Theorem same_opening_shares_visual (st : state pixmap) (chunk1 chunk2 : string)
    (p : pixmap) :
  length (visual_cache st) ≤ 10 →
  first50 chunk1 = first50 chunk2 →
  let st' := (_generate_visual_async st (hash (first50 chunk1)) (Rendered p)).1 in
  generate_visualization hash st' chunk2 = [Display p]
  ∧ length (visual_cache st') ≤ 10.
Proof.
  intros Hd Heq st'. subst st'. unfold generate_visualization, _generate_visual_async.
  cbn [fst visual_cache].
  rewrite <- Heq, cache_store_get by done. split; [done|].
  by apply cache_store_bound.
Qed.

End VisualChunks.

Section VisualChunkExamples.
Import PyStr PyText Visual.

Lemma chunk_is_twenty_oldest_words_witness :
  let st : state nat :=
    mkState (replicate 19 "photosynthesis") 19 0%Z false [] in
  (process_for_visualization (λ s, Z.of_nat (String.length s)) st
     "needs light" 12000%Z).2
  = [Generate
       (join " " (take 20 (replicate 19 "photosynthesis" ++ ["needs"; "light"])))
       (Z.of_nat 50);
     ResetFlagLater].
Proof.
  intros st.
  destruct (chunk_is_twenty_oldest_words (λ s, Z.of_nat (String.length s)) st
              "needs light" 12000%Z) as (_ & H & _).
  - apply (bool_decide_unpack _). by vm_compute.
  - by vm_compute.
  - reflexivity.
  - by vm_compute.
  - destruct H as (-> & _); [vm_compute; lia | by vm_compute].
Defined.

Lemma same_opening_shares_visual_witness :
  let st : state nat := init in
  let key := Z.of_nat 50 in
  generate_visualization (λ s, Z.of_nat (String.length s))
    (_generate_visual_async st key (Rendered 7)).1
    "the water cycle starts when the sun heats the ocean and the lakes"
  = [Display 7].
Proof.
  intros st key.
  apply (same_opening_shares_visual (λ s, Z.of_nat (String.length s)) st
           "the water cycle starts when the sun heats the ocean and rivers"
           "the water cycle starts when the sun heats the ocean and the lakes" 7).
  - cbn. lia.
  - reflexivity.
Defined.

End VisualChunkExamples.


(* ================================================================== *)
(** * The captions over a session *)

Section CaptionsFacts.
Import PyStr Transcriber Captions.

Lemma process_buffer_emits (st : state) (a : answer) (now : Z) (text : string) :
  (_process_buffer st a now).2 = Some text →
  ∃ raw, a = Result raw ∧ strip raw ≠ ""
    ∧ text = _clean_transcription (strip raw)
    ∧ _is_too_similar text (last_transcription st) = false
    ∧ (_process_buffer st a now).1 = accept st text now.
Proof.
  unfold _process_buffer, accept.
  destruct (negb (model_loaded st) || bool_decide (audio_buffer st = []));
    [done|].
  destruct (bool_decide (_ < _)%Z); [done|].
  destruct a as [|raw]; [done|].
  destruct (strip raw) as [|c0 s0] eqn:Hraw; [done|]. cbn [truthy].
  destruct (_is_too_similar _ _) eqn:Hsim; [done|].
  cbn [fst snd]. intros [= <-]. exists raw. rewrite Hraw. by split_and!.
Qed.

Lemma process_buffer_silent (st : state) (a : answer) (now : Z) :
  (_process_buffer st a now).2 = None →
  last_transcription (_process_buffer st a now).1 = last_transcription st.
Proof.
  unfold _process_buffer.
  destruct (negb (model_loaded st) || bool_decide (audio_buffer st = []));
    [done|].
  destruct (bool_decide (_ < _)%Z); [done|].
  destruct a as [|raw]; [done|].
  destruct (truthy (strip raw)); [|done].
  by destruct (_is_too_similar _ _).
Qed.

Lemma add_audio_chunk_keeps (st : state) (c : chunk) (t : Z) :
  let st' := (add_audio_chunk st c t).1 in
  last_transcription st' = last_transcription st
  ∧ last_processing_time st' = last_processing_time st
  ∧ model_loaded st' = model_loaded st
  ∧ is_loading st' = is_loading st
  ∧ audio_buffer st'
    = (if negb (model_loaded st) || is_loading st then audio_buffer st
       else audio_buffer st ++ [c]).
Proof.
  unfold add_audio_chunk.
  by destruct (negb (model_loaded st) || is_loading st).
Qed.

Lemma total_samples_app (a b : list chunk) :
  total_samples (a ++ b) = (total_samples a + total_samples b)%Z.
Proof.
  unfold total_samples. induction a as [|c a IH]; [done|]. cbn. rewrite IH. lia.
Qed.

Lemma continuity_tail_total (audio : chunk) :
  (total_samples (continuity_tail audio) <= sample_rate)%Z
  ∧ ∃ k, concat (continuity_tail audio) = drop k audio.
Proof.
  unfold continuity_tail.
  assert (Z.of_nat (Z.to_nat (sample_rate * 1)) = sample_rate) as Hk.
  { rewrite Z2Nat.id; unfold sample_rate; lia. }
  set (keep := Z.to_nat (sample_rate * 1)) in *. clearbody keep.
  case_bool_decide as Hlen; unfold total_samples; cbn [foldr concat].
  - rewrite length_drop, app_nil_r. split; [lia | by eexists].
  - rewrite app_nil_r. split; [lia | by exists 0].
Qed.

Lemma feed_keeps (st : state) (chunks : list (chunk * Z)) :
  last_processing_time (feed st chunks) = last_processing_time st
  ∧ model_loaded (feed st chunks) = model_loaded st
  ∧ is_loading (feed st chunks) = is_loading st
  ∧ audio_buffer (feed st chunks)
    = (if negb (model_loaded st) || is_loading st then audio_buffer st
       else audio_buffer st ++ chunks.*1).
Proof.
  unfold feed. revert st. induction chunks as [|[c t] chunks IH]; intros st.
  - cbn. rewrite app_nil_r. by destruct (negb _ || _).
  - cbn [foldl fst snd fmap list_fmap].
    destruct (IH (add_audio_chunk st c t).1) as (Ht & Hm & Hl & Hb).
    destruct (add_audio_chunk_keeps st c t) as (_ & Ht' & Hm' & Hl' & Hb').
    rewrite Ht, Hm, Hl, Hb, Ht', Hm', Hl', Hb'.
    split_and!; try done.
    destruct (negb (model_loaded st) || is_loading st); [done|].
    by rewrite <- app_assoc.
Qed.

(** X25. After a caption was emitted the buffer holds at most one second
    of audio, the end of what was transcribed, and the next job is
    dispatched only by a chunk that arrives at least 2 s after the
    acceptance and brings the audio that arrived since to at least two
    seconds. *)
Theorem accepted_needs_fresh_audio (st : state) (a : answer) (now : Z)
    (text : string) (chunks : list (chunk * Z)) (c : chunk) (t : Z) :
  (_process_buffer st a now).2 = Some text →
  let st' := (_process_buffer st a now).1 in
  (total_samples (audio_buffer st') <= 16000)%Z
  ∧ (∃ k, concat (audio_buffer st') = drop k (concat (audio_buffer st)))
  ∧ ((add_audio_chunk (feed st' chunks) c t).2 = true →
     (32000 <= total_samples (chunks.*1 ++ [c]))%Z ∧ (now + 2000 <= t)%Z).
Proof.
  intros He st'.
  apply process_buffer_emits in He as (raw & _ & _ & _ & _ & Hst).
  subst st'. rewrite Hst. cbn [accept audio_buffer].
  destruct (continuity_tail_total (concat (audio_buffer st))) as [Htot Hsuf].
  unfold sample_rate in Htot. split_and!; [done | done |].
  destruct (feed_keeps (accept st text now) chunks) as (Ht & Hm & Hl & Hb).
  unfold add_audio_chunk. rewrite Hm, Hl, Hb, Ht.
  cbn [accept model_loaded is_loading audio_buffer last_processing_time].
  destruct (negb (model_loaded st) || is_loading st); [done|].
  cbn [snd]. rewrite andb_true_iff, !bool_decide_eq_true.
  rewrite <- app_assoc, !total_samples_app.
  unfold sample_rate, buffer_duration, processing_interval. lia.
Qed.

Lemma accepted_needs_fresh_audio_witness :
  let st := mkState true false [replicate (Z.to_nat 14000) 0%Z] 0%Z "" in
  let st' := (_process_buffer st (Result " good morning ") 5000%Z).1 in
  (add_audio_chunk st' (replicate (Z.to_nat 20000) 0%Z) 9000%Z).2 = false.
Proof.
  intros st st'.
  destruct (add_audio_chunk st' (replicate (Z.to_nat 20000) 0%Z) 9000%Z).2 eqn:Hd; [|done].
  destruct (accepted_needs_fresh_audio st (Result " good morning ") 5000%Z
              "good morning" [] (replicate (Z.to_nat 20000) 0%Z) 9000%Z) as (_ & _ & H).
  - by vm_compute.
  - apply H in Hd as [Hd _]. vm_compute in Hd. by destruct Hd.
Defined.

End CaptionsFacts.


(* ================================================================== *)
(** * The teacher's speech recognition *)

Section WhisperFacts.
Import PyStr Whisper.

Lemma kept_tail (audio : chunk) :
  let kept := if bool_decide (keep_samples < length audio)
              then [drop (length audio - keep_samples) audio] else [audio] in
  (Transcriber.total_samples kept <= 8000)%Z
  ∧ ∃ k, concat kept = drop k audio.
Proof.
  assert (Z.of_nat keep_samples = 8000%Z) as Hk.
  { unfold keep_samples. rewrite Z2Nat.id; by vm_compute. }
  set (keep := keep_samples) in *. clearbody keep.
  case_bool_decide as Hlen; unfold Transcriber.total_samples; cbn [foldr concat].
  - rewrite length_drop, app_nil_r. split; [lia | by eexists].
  - rewrite app_nil_r. split; [lia | by exists 0].
Qed.

Lemma total_samples_length (buf : list chunk) :
  Transcriber.total_samples buf = Z.of_nat (length (concat buf)).
Proof.
  unfold Transcriber.total_samples. induction buf as [|c l IH]; [done|].
  cbn [foldr concat]. rewrite length_app, IH. lia.
Qed.

Lemma process_buffer_due (st : state) (a : Transcriber.answer) (now : Z) :
  model_loaded st = true →
  (sample_rate * buffer_duration < Transcriber.total_samples (audio_buffer st))%Z →
  process_buffer st a now
  = match a with
    | Transcriber.Raised => (cleared st, "")
    | Transcriber.Result raw =>
        if truthy (strip raw) then
          ({| model_loaded := model_loaded st;
              audio_buffer :=
                if bool_decide (keep_samples < length (concat (audio_buffer st)))
                then [drop (length (concat (audio_buffer st)) - keep_samples)
                        (concat (audio_buffer st))]
                else [concat (audio_buffer st)];
              last_processing_time := now |}, strip raw)
        else (cleared st, "")
    end.
Proof.
  intros Hm Htot. unfold process_buffer. rewrite Hm. cbn [negb orb].
  pose proof (total_samples_length (audio_buffer st)) as Hlen.
  rewrite bool_decide_false.
  2:{ intros Hb. rewrite Hb in Htot. by vm_compute in Htot. }
  rewrite bool_decide_false; [done|].
  unfold sample_rate, buffer_duration in *. lia.
Qed.

Lemma add_audio_chunk_due (st : state) (c : chunk) (current_time : Z)
    (a : Transcriber.answer) (now : Z) :
  model_loaded st = true →
  add_audio_chunk st c current_time a now
  = let st1 := mkState true (audio_buffer st ++ [c]) (last_processing_time st) in
    if due st c current_time
    then ((process_buffer st1 a now).1, Some (process_buffer st1 a now).2)
    else (st1, Some "").
Proof. intros Hm. unfold add_audio_chunk, due. by rewrite Hm. Qed.

(** X26. What a chunk of the microphone leads to on the teacher's page,
    with a model loaded.  A text is written to the session exactly when
    the chunk was due (more than 3 s buffered, more than 2 s since the last
    acceptance) and the engine answered with a text that is not blank; the
    text written is the answer stripped.  The buffer then keeps the last
    half second at most.  A due chunk on which the engine raised or
    answered with a blank text empties the buffer, and a chunk that is
    not due only joins the buffer; in both cases nothing is written. *)
Theorem teacher_recognition_outcomes (session_id : option string) (st : state)
    (db : Join.store) (c : chunk) (current_time : Z) (a : Transcriber.answer)
    (now write_time : Z) (net : Join.patch_answer) :
  model_loaded st = true →
  let out := process_chunk session_id st db c current_time a now write_time net in
  (∀ text, out.2 = Some text ↔
     due st c current_time = true
     ∧ ∃ raw, a = Transcriber.Result raw ∧ strip raw ≠ "" ∧ text = strip raw)
  ∧ (∀ text, out.2 = Some text →
       out.1.2 = (Store.update_transcript_in_firebase session_id text write_time
                    net db).1
       ∧ last_processing_time out.1.1 = now
       ∧ (Transcriber.total_samples (audio_buffer out.1.1) <= 8000)%Z
       ∧ ∃ k, concat (audio_buffer out.1.1)
              = drop k (concat (audio_buffer st ++ [c])))
  ∧ (out.2 = None →
       out.1.2 = db
       ∧ last_processing_time out.1.1 = last_processing_time st
       ∧ audio_buffer out.1.1
         = (if due st c current_time then [] else audio_buffer st ++ [c])).
Proof.
  intros Hm out. subst out. unfold process_chunk.
  rewrite add_audio_chunk_due by done.
  destruct (due st c current_time) eqn:Hdue; cbn [fst snd].
  2:{ cbn [truthy andb fst snd audio_buffer last_processing_time].
      split_and!; [|done|done]. intros text. split; [done | by intros [? _]]. }
  unfold due in Hdue. apply andb_prop in Hdue as [Htot _].
  apply bool_decide_eq_true in Htot.
  rewrite process_buffer_due by done.
  cbn [model_loaded audio_buffer last_processing_time].
  destruct a as [|raw].
  { cbn [truthy andb fst snd cleared audio_buffer last_processing_time].
    split_and!; [|done|done]. intros text. split; [done|].
    by intros [_ (raw & ? & _)]. }
  destruct (strip raw) as [|c0 s0] eqn:Hraw; cbn [truthy fst snd].
  { cbn [truthy andb fst snd cleared audio_buffer last_processing_time].
    split_and!; [|done|done]. intros text. split; [done|].
    intros [_ (raw' & [= <-] & Hne & _)]. by rewrite Hraw in Hne. }
  assert (truthy (strip (String c0 s0)) = true) as Hstrip.
  { apply has_ink_truthy. rewrite strip_keeps_ink, <- Hraw.
    apply strip_ink. by rewrite Hraw. }
  rewrite Hstrip. cbn [andb fst snd audio_buffer last_processing_time].
  destruct (kept_tail (concat (audio_buffer st ++ [c]))) as [Hb Hs].
  split_and!.
  - intros text. split.
    + intros [= <-]. split; [done|]. exists raw. by rewrite Hraw.
    + intros [_ (raw' & [= <-] & _ & ->)]. by rewrite Hraw.
  - intros text [= <-]. by split_and!.
  - done.
Qed.

Lemma teacher_recognition_outcomes_witness :
  let st := mkState true [replicate (Z.to_nat 48000) 0%Z] 0%Z in
  (process_chunk (Some "s1") st [("s1", Store.new_session "Biology" "482913" 0%Z)]
     (replicate (Z.to_nat 1600) 0%Z) 3000%Z (Transcriber.Result "  ") 3100%Z 3200%Z
     Join.Patched).2
  = None.
Proof.
  intros st.
  destruct (teacher_recognition_outcomes (Some "s1") st
              [("s1", Store.new_session "Biology" "482913" 0%Z)]
              (replicate (Z.to_nat 1600) 0%Z) 3000%Z (Transcriber.Result "  ")
              3100%Z 3200%Z Join.Patched eq_refl) as (H & _ & _).
  destruct (process_chunk _ _ _ _ _ _ _ _ _).2 as [text|]; [|done].
  destruct (proj1 (H text) eq_refl) as (_ & raw & [= <-] & Hne & _).
  by vm_compute in Hne.
Defined.

End WhisperFacts.


(* ================================================================== *)
(** * The threads of the transcriber *)

Section JobsFacts.
Import PyStr Transcriber Jobs.









Lemma system_eta (s : system) :
  s = {| shared := shared s; caller := caller s; jobs := jobs s;
         emitted := emitted s |}.
Proof. by destruct s. Qed.

Lemma run_moves_app (s : system) (m1 m2 : list move) :
  run s (m1 ++ m2) = run (run s m1) m2.
Proof. unfold run. apply foldl_app. Qed.

Lemma run_call_alone (s : system) (c : chunk) (t : Z) :
  caller s = Idle →
  run s (call_alone c t)
  = {| shared := (add_audio_chunk (shared s) c t).1;
       caller := Idle;
       jobs := jobs s ++ (if (add_audio_chunk (shared s) c t).2
                          then [Started] else []);
       emitted := emitted s |}.
Proof.
  destruct s as [sh cl js em]. cbn [caller shared jobs emitted]. intros ->.
  unfold call_alone, run, add_audio_chunk. cbn [foldl].
  cbn [step caller shared jobs emitted].
  destruct (negb (model_loaded sh) || is_loading sh).
  - cbn [step caller shared jobs emitted fst snd]. by rewrite app_nil_r.
  - cbn [step caller jobs shared emitted fst snd audio_buffer last_processing_time].
    by destruct (_ && _); [|rewrite app_nil_r].
Qed.

Lemma run_turns (n : nat) (s : system) (j : nat) (jb : job) (a : answer)
    (now : Z) :
  jobs s !! j = Some jb →
  run s (replicate n (Turn j a now))
  = {| shared := (alone n (shared s) jb a now).1.1;
       caller := caller s;
       jobs := <[j := (alone n (shared s) jb a now).1.2]> (jobs s);
       emitted := emitted s ++ (alone n (shared s) jb a now).2 |}.
Proof.
  unfold run. revert s jb. induction n as [|n IH]; intros s jb Hl.
  - cbn. rewrite app_nil_r, list_insert_id by done. apply system_eta.
  - cbn [replicate foldl alone fst snd]. cbn [step]. rewrite Hl.
    erewrite IH.
    2:{ cbn [jobs]. apply list_lookup_insert_eq. by eapply lookup_lt_Some. }
    cbn [shared caller jobs emitted].
    by rewrite list_insert_insert_eq, app_assoc.
Qed.

Lemma alone_done (n : nat) (sh : state) (a : answer) (now : Z) :
  alone n sh Done a now = (sh, Done, []).
Proof. induction n as [|n IH]; [done|]. cbn [alone turn fst snd]. by rewrite IH. Qed.

Lemma alone_next (n : nat) (sh sh' : state) (jb jb' : job) (e : option string)
    (a : answer) (now : Z) :
  turn sh jb a now = (sh', jb', e) →
  alone (S n) sh jb a now
  = ((alone n sh' jb' a now).1.1, (alone n sh' jb' a now).1.2,
     option_list e ++ (alone n sh' jb' a now).2).
Proof. intros H. cbn [alone]. by rewrite H. Qed.

Lemma alone_process_buffer (sh : state) (a : answer) (now : Z) :
  alone 8 sh Started a now
  = ((_process_buffer sh a now).1, Done, option_list (_process_buffer sh a now).2).
Proof.
  unfold _process_buffer.
  destruct (negb (model_loaded sh) || bool_decide (audio_buffer sh = [])) eqn:Hc.
  { erewrite alone_next by (cbn [turn]; by rewrite Hc). by rewrite alone_done. }
  erewrite alone_next by (cbn [turn]; by rewrite Hc).
  apply orb_false_elim in Hc as [_ Hb].
  destruct (bool_decide (10 * Z.of_nat (length (concat (audio_buffer sh)))
                         < sample_rate * 8)%Z) eqn:Hshort.
  { erewrite alone_next by (cbn [turn]; by rewrite Hb, Hshort).
    by rewrite alone_done. }
  erewrite alone_next by (cbn [turn]; by rewrite Hb, Hshort).
  destruct a as [|raw].
  { erewrite alone_next by done. erewrite alone_next by done.
    by rewrite alone_done. }
  destruct (truthy (strip raw)) eqn:Ht.
  2:{ erewrite alone_next by (cbn [turn]; by rewrite Ht). by rewrite alone_done. }
  erewrite alone_next by (cbn [turn]; by rewrite Ht).
  destruct (_is_too_similar (_clean_transcription (strip raw))
              (last_transcription sh)) eqn:Hsim.
  { erewrite alone_next by (cbn [turn]; by rewrite Hsim). by rewrite alone_done. }
  erewrite alone_next by (cbn [turn]; by rewrite Hsim).
  erewrite alone_next by done. erewrite alone_next by done.
  erewrite alone_next by done. erewrite alone_next by done.
  cbn [alone fst snd option_list option_rect app last_transcription audio_buffer
       last_processing_time model_loaded is_loading].
  done.
Qed.

(** X27. Threads that are left alone do what the sequential reading of the
    code says.  A call of [add_audio_chunk] with no statement of a thread
    between its statements leaves the shared fields as the function read in
    one piece does and starts a thread exactly when that answers [True];
    and a thread on [_process_buffer] that runs its statements with nothing
    in between, whatever the state of the other threads, leaves the shared
    fields as the function read in one piece does, emits what that emits,
    and ends. *)
Theorem undisturbed_threads_are_sequential (s : system) (c : chunk) (t : Z)
    (j : nat) (a : answer) (now : Z) :
  (caller s = Idle →
   run s (call_alone c t)
   = {| shared := (add_audio_chunk (shared s) c t).1;
        caller := Idle;
        jobs := jobs s ++ (if (add_audio_chunk (shared s) c t).2
                           then [Started] else []);
        emitted := emitted s |})
  ∧ (jobs s !! j = Some Started →
     run s (job_alone j a now)
     = {| shared := (_process_buffer (shared s) a now).1;
          caller := caller s;
          jobs := <[j := Done]> (jobs s);
          emitted := emitted s
                     ++ option_list (_process_buffer (shared s) a now).2 |}).
Proof.
  split; [apply run_call_alone|].
  intros Hl. unfold job_alone. rewrite (run_turns 8 s j Started a now Hl).
  by rewrite alone_process_buffer.
Qed.

Lemma undisturbed_threads_are_sequential_witness :
  let st := mkState true false [replicate (Z.to_nat 48000) 0%Z] 0%Z "" in
  emitted (run (start st)
             (call_alone (replicate (Z.to_nat 1600) 0%Z) 3000
              ++ job_alone 0 (Result " good morning ") 3500))
  = ["good morning"].
Proof.
  intros st. rewrite run_moves_app.
  destruct (undisturbed_threads_are_sequential
              (run (start st) (call_alone (replicate (Z.to_nat 1600) 0%Z) 3000))
              [] 0 0 (Result " good morning ") 3500) as [_ ->].
  - by vm_compute.
  - by vm_compute.
Defined.

Lemma run_cons_move (s : system) (m : move) (ms : list move) :
  run s (m :: ms) = run (step s m) ms.
Proof. done. Qed.

Lemma step_turn (s : system) (j : nat) (jb jb' : job) (sh' : state)
    (e : option string) (a : answer) (now : Z) :
  jobs s !! j = Some jb →
  turn (shared s) jb a now = (sh', jb', e) →
  step s (Turn j a now)
  = {| shared := sh'; caller := caller s; jobs := <[j := jb']> (jobs s);
       emitted := emitted s ++ option_list e |}.
Proof. intros Hl Ht. cbn [step]. by rewrite Hl, Ht. Qed.

Lemma in_step_repeats (sh : state) (cl : call) (em : list string) (raw : string)
    (now : Z) :
  model_loaded sh = true →
  audio_buffer sh ≠ [] →
  (sample_rate * 8 <= 10 * Z.of_nat (length (concat (audio_buffer sh))))%Z →
  strip raw ≠ "" →
  _is_too_similar (_clean_transcription (strip raw)) (last_transcription sh) = false →
  emitted (run {| shared := sh; caller := cl; jobs := [Started; Started];
                  emitted := em |}
             (in_step 0 1 (Result raw) now))
  = em ++ [_clean_transcription (strip raw); _clean_transcription (strip raw)].
Proof.
  intros Hm Hb Hlen Hraw Hsim.
  assert (truthy (strip raw) = true) as Ht by (by destruct (strip raw)).
  assert (bool_decide (audio_buffer sh = []) = false) as Hb'
    by (by apply bool_decide_eq_false).
  assert (bool_decide (10 * Z.of_nat (length (concat (audio_buffer sh)))
                       < sample_rate * 8)%Z = false) as Hlen'
    by (apply bool_decide_eq_false; lia).
  unfold in_step. cbn [replicate concat app].
  do 16 (rewrite run_cons_move;
         erewrite step_turn;
         [ | cbn [jobs lookup list_lookup]; reflexivity
           | cbn [turn shared model_loaded audio_buffer last_transcription];
             rewrite ?Hm, ?Hb', ?Hlen', ?Ht, ?Hsim; cbn [negb orb];
             reflexivity ];
         cbn [jobs caller emitted shared insert list_insert option_list
              option_rect]).
  cbn [run foldl emitted]. by rewrite !app_nil_r, <- !app_assoc.
Qed.

(** X28. Threads that overlap may emit the same caption twice.  Two chunks
    in a row that each find three seconds of audio and two seconds since
    the last acceptance each start a thread, the second although the first
    has not finished, since the time is stamped on acceptance only.  If
    the engine gives both the same text, not blank and different enough
    from the transcription remembered, and the two threads run in step,
    both pass the test before either has written the text, and the text
    is emitted twice in a row although it is too similar to itself. *)
Theorem overlapping_jobs_repeat_a_caption (st : state) (c1 c2 : chunk)
    (t1 t2 : Z) (raw : string) (now : Z) :
  model_loaded st = true → is_loading st = false →
  (sample_rate * buffer_duration <= total_samples (audio_buffer st ++ [c1]))%Z →
  (processing_interval <= t1 - last_processing_time st)%Z →
  (t1 <= t2)%Z →
  strip raw ≠ "" →
  let text := _clean_transcription (strip raw) in
  _is_too_similar text (last_transcription st) = false →
  let s := run (start st)
             (call_alone c1 t1 ++ call_alone c2 t2
              ++ in_step 0 1 (Result raw) now) in
  emitted s = [text; text]
  ∧ _is_too_similar text text = true
  ∧ ¬ distinct_enough (last_transcription st) (emitted s).
Proof.
  intros Hm Hl Htot Htime Hle Hraw text Hsim s.
  assert (has_ink text = true) as Hink by (by apply clean_ink, strip_ink).
  set (st1 := (add_audio_chunk st c1 t1).1).
  set (st2 := (add_audio_chunk st1 c2 t2).1).
  destruct (add_audio_chunk_keeps st c1 t1) as (Hx1 & Ht1 & Hm1 & Hl1 & Hb1).
  fold st1 in Hx1, Ht1, Hm1, Hl1, Hb1.
  rewrite Hm in Hm1. rewrite Hl in Hl1. rewrite Hm, Hl in Hb1.
  cbn [negb orb] in Hb1.
  destruct (add_audio_chunk_keeps st1 c2 t2) as (Hx2 & Ht2 & Hm2 & Hl2 & Hb2).
  fold st2 in Hx2, Ht2, Hm2, Hl2, Hb2.
  rewrite Hm1 in Hm2. rewrite Hl1 in Hl2. rewrite Hm1, Hl1 in Hb2.
  cbn [negb orb] in Hb2.
  assert ((add_audio_chunk st c1 t1).2 = true) as Hd1.
  { unfold add_audio_chunk. rewrite Hm, Hl. cbn [negb orb snd].
    by rewrite (bool_decide_true _ Htot), (bool_decide_true _ Htime). }
  assert (0 <= total_samples [c2])%Z as Hc2
    by (unfold total_samples; cbn; lia).
  assert ((add_audio_chunk st1 c2 t2).2 = true) as Hd2.
  { unfold add_audio_chunk. rewrite Hm1, Hl1. cbn [negb orb snd].
    rewrite Hb1, Ht1, total_samples_app.
    rewrite bool_decide_true by lia. by rewrite bool_decide_true by lia. }
  assert (emitted s = [text; text]) as He.
  { subst s. rewrite !run_moves_app.
    rewrite (run_call_alone (start st)) by done.
    cbn [shared jobs emitted start]. rewrite Hd1. fold st1. cbn [app].
    rewrite run_call_alone by done.
    cbn [shared jobs emitted]. fold st2. rewrite Hd2. cbn [app].
    rewrite in_step_repeats; [done | done | | | done | by rewrite Hx2, Hx1].
    - rewrite Hb2. by destruct (audio_buffer st1).
    - rewrite <- total_samples_length, Hb2, Hb1, total_samples_app.
      unfold sample_rate, buffer_duration in *. lia. }
  split_and!; [done | by apply is_too_similar_self |].
  rewrite He. cbn. intros (_ & Hself & _).
  by rewrite is_too_similar_self in Hself.
Qed.

Lemma overlapping_jobs_repeat_a_caption_witness :
  let st := mkState true false [replicate (Z.to_nat 47000) 0%Z] 0%Z "" in
  emitted (run (start st)
             (call_alone (replicate (Z.to_nat 1600) 0%Z) 3000
              ++ call_alone (replicate (Z.to_nat 1600) 0%Z) 3250
              ++ in_step 0 1 (Result " good morning ") 5000))
  = ["good morning"; "good morning"].
Proof.
  intros st.
  destruct (overlapping_jobs_repeat_a_caption st
              (replicate (Z.to_nat 1600) 0%Z) (replicate (Z.to_nat 1600) 0%Z)
              3000 3250 " good morning " 5000) as (-> & _);
    [reflexivity | reflexivity | by vm_compute | by vm_compute | lia
     | by vm_compute | reflexivity | by vm_compute].
Defined.





End JobsFacts.
